(** * LoFac super-commit parser (scripts/supercommit/parse.js)

    A shallow embedding of [parseCommitMessage] and of the parts of the
    JavaScript runtime it relies on: UTF-16 strings, backtracking regular
    expressions, binary64 numbers and [Date.UTC]. *)

From Stdlib Require Import String Ascii.
From Stdlib Require Import ZArith NArith QArith List Bool Lia Permutation.
From Stdlib Require Import SpecFloat.
From Stdlib Require Import Qpower.
Import ListNotations.

Local Open Scope N_scope.

(** ** JavaScript strings: sequences of UTF-16 code units *)

Module JSString.

Definition char := N.
Definition jsstring := list char.

(** An ASCII literal as a JavaScript string. *)
Definition js (s : string) : jsstring :=
  map N_of_ascii (list_ascii_of_string s).

Definition in_range (lo hi c : char) : bool := (lo <=? c) && (c <=? hi).

(** ECMAScript LineTerminator: LF, CR, LS, PS. *)
Definition isLineTerminator (c : char) : bool :=
  (c =? 10) || (c =? 13) || (c =? 8232) || (c =? 8233).

(** ECMAScript WhiteSpace: TAB, VT, FF, ZWNBSP and the category Zs. *)
Definition isWhiteSpace (c : char) : bool :=
  (c =? 9) || (c =? 11) || (c =? 12) || (c =? 32) || (c =? 160)
  || (c =? 5760) || in_range 8192 8202 c || (c =? 8239) || (c =? 8287)
  || (c =? 12288) || (c =? 65279).

(** The class [\s], which is also what [trim] strips. *)
Definition isSpace (c : char) : bool := isWhiteSpace c || isLineTerminator c.

Definition notSpace (c : char) : bool := negb (isSpace c).

(** The class [.] without the [s] flag. *)
Definition isDot (c : char) : bool := negb (isLineTerminator c).

(** The class [\d]. *)
Definition isDigit (c : char) : bool := in_range 48 57 c.

Definition isUpper (c : char) : bool := in_range 65 90 c.

Definition isUpperOrDigit (c : char) : bool := isUpper c || isDigit c.

(** Word characters of [\b]: [A-Za-z0-9_]. *)
Definition isWordChar (c : char) : bool :=
  isUpper c || in_range 97 122 c || isDigit c || (c =? 95).

Fixpoint trimStart (s : jsstring) : jsstring :=
  match s with
  | c :: t => if isSpace c then trimStart t else s
  | [] => []
  end.

Definition trimEnd (s : jsstring) : jsstring := rev (trimStart (rev s)).

Definition trim (s : jsstring) : jsstring := trimEnd (trimStart s).

(** [String.prototype.toLowerCase], code unit by code unit: ASCII and Latin-1
    capitals, KELVIN SIGN and ANGSTROM SIGN get their lower-case letter.  The
    other code units are left in place; none of them lower-cases to text made
    of ASCII letters or digits only. *)
Definition lowerChar (c : char) : char :=
  if isUpper c then c + 32
  else if in_range 192 222 c && negb (c =? 215) then c + 32
  else if c =? 8490 then 107
  else if c =? 8491 then 229
  else c.

Definition toLowerCase (s : jsstring) : jsstring := map lowerChar s.

Definition eqb (a b : jsstring) : bool :=
  if list_eq_dec N.eq_dec a b then true else false.

(** [Array.prototype.includes] on an array of strings. *)
Definition includes (l : list jsstring) (s : jsstring) : bool :=
  existsb (eqb s) l.

(** [s.indexOf(c)] for a one-character needle; [None] stands for -1. *)
Fixpoint indexOf (c : char) (s : jsstring) : option nat :=
  match s with
  | [] => None
  | x :: t => if x =? c then Some O
              else match indexOf c t with
                   | Some i => Some (S i)
                   | None => None
                   end
  end.

(** [s.slice(0, i)] and [s.slice(i)] for [0 <= i]. *)
Definition sliceTo (i : nat) (s : jsstring) : jsstring := firstn i s.
Definition sliceFrom (i : nat) (s : jsstring) : jsstring := skipn i s.

End JSString.

Import JSString.

(** ** Backtracking regular expressions

    The matcher returns every way the pattern can match at a position, in the
    order in which a backtracking engine tries them; the engine's answer is
    the first one. *)

Module Regex.

Inductive regex :=
| Eps
| Cls (p : char -> bool)
| Seq (a b : regex)
| Alt (a b : regex)
| Rep (greedy : bool) (lo : nat) (hi : option nat) (p : char -> bool)
| Opt (r : regex)
| Grp (n : nat) (r : regex)
| Look (r : regex)
| Bol
| Eol
| WordB.

(** [Rep] is a quantified class, greedy or lazy; [Opt r] is the greedy
    [(?:r)?] for an [r] that cannot match the empty text; [Look] is the
    positive lookahead. *)

(** A position in the input: the code unit before it, the input after it, and
    the capture groups set so far. *)
Record mstate := MState {
  prev : option char;
  rest : jsstring;
  caps : list (nat * jsstring)
}.

Definition advance (c : char) (t : jsstring) (s : mstate) : mstate :=
  MState (Some c) t (caps s).

(** All ways to consume between [lo] and [hi] code units of class [p],
    fewest first. *)
Fixpoint reps (p : char -> bool) (lo : nat) (hi : option nat)
         (pv : option char) (l : jsstring) (cs : list (nat * jsstring))
  : list mstate :=
  (match lo with O => [MState pv l cs] | S _ => [] end) ++
  match hi with
  | Some O => []
  | _ =>
    match l with
    | c :: t => if p c then reps p (Nat.pred lo) (option_map Nat.pred hi) (Some c) t cs
                else []
    | [] => []
    end
  end.

Definition consumed (s s' : mstate) : jsstring :=
  firstn (length (rest s) - length (rest s')) (rest s).

Definition set_cap (n : nat) (s s' : mstate) : mstate :=
  MState (prev s') (rest s') ((n, consumed s s') :: caps s').

Definition is_word (o : option char) : bool :=
  match o with Some c => isWordChar c | None => false end.

Fixpoint m (r : regex) (s : mstate) : list mstate :=
  match r with
  | Eps => [s]
  | Cls p =>
      match rest s with
      | c :: t => if p c then [advance c t s] else []
      | [] => []
      end
  | Seq a b => flat_map (m b) (m a s)
  | Alt a b => m a s ++ m b s
  | Rep g lo hi p =>
      let l := reps p lo hi (prev s) (rest s) (caps s) in
      if g then rev l else l
  | Opt r => m r s ++ [s]
  | Grp n r => map (set_cap n s) (m r s)
  | Look r =>
      match m r s with
      | s' :: _ => [MState (prev s) (rest s) (caps s')]
      | [] => []
      end
  | Bol => match prev s with None => [s] | Some _ => [] end
  | Eol => match rest s with [] => [s] | _ :: _ => [] end
  | WordB => if xorb (is_word (prev s)) (is_word (hd_error (rest s)))
             then [s] else []
  end.

(** A literal string. *)
Fixpoint Lit (w : jsstring) : regex :=
  match w with
  | [] => Eps
  | c :: t => Seq (Cls (N.eqb c)) (Lit t)
  end.

(** An alternation of literals, [a|b|c]. *)
Fixpoint AltLits (ws : list jsstring) : regex :=
  match ws with
  | [] => Eps
  | [w] => Lit w
  | w :: t => Alt (Lit w) (AltLits t)
  end.

(** A successful match: where it starts, and the state at its end. *)
Record hit := Hit { h_start : nat; h_end : mstate }.

(** [RegExp.prototype.exec] from a position: the leftmost start at which the
    pattern matches. *)
Fixpoint search (r : regex) (i : nat) (pv : option char) (l : jsstring)
  : option hit :=
  match m r (MState pv l []) with
  | s' :: _ => Some (Hit i s')
  | [] =>
      match l with
      | [] => None
      | c :: t => search r (S i) (Some c) t
      end
  end.

Definition exec (r : regex) (s : jsstring) : option hit := search r O None s.

(** Capture group [n] of a match; unset groups read as [None]. *)
Fixpoint lookup (n : nat) (cs : list (nat * jsstring)) : option jsstring :=
  match cs with
  | [] => None
  | (k, v) :: t => if Nat.eqb k n then Some v else lookup n t
  end.

Definition group (n : nat) (h : hit) : option jsstring := lookup n (caps (h_end h)).

Definition test (r : regex) (s : jsstring) : bool :=
  match exec r s with Some _ => true | None => false end.

(** [s.match(re)] with the [g] flag: the matches found by repeated [exec],
    each search resuming where the previous match ended (one code unit later
    after an empty match). *)
Fixpoint matchAllFrom (fuel : nat) (r : regex) (i : nat) (pv : option char)
         (l : jsstring) : list hit :=
  match fuel with
  | O => []
  | S fuel' =>
      match search r i pv l with
      | None => []
      | Some h =>
          let e := h_end h in
          let l0 := skipn (h_start h - i) l in
          let n := (length l0 - length (rest e))%nat in
          h :: match n with
               | O => match rest e with
                      | [] => []
                      | c :: t => matchAllFrom fuel' r (S (h_start h)) (Some c) t
                      end
               | S _ => matchAllFrom fuel' r (h_start h + n)%nat (prev e) (rest e)
               end
      end
  end.

Definition matchAll (r : regex) (s : jsstring) : list hit :=
  matchAllFrom (S (length s)) r O None s.

(** [s.replace(re, "")] without the [g] flag: the first match is removed. *)
Definition removeFirst (r : regex) (s : jsstring) : jsstring :=
  match exec r s with
  | Some h => firstn (h_start h) s ++ rest (h_end h)
  | None => s
  end.

(** [s.split(re)[0]]: the text before the first match. *)
Definition splitFirst (r : regex) (s : jsstring) : jsstring :=
  match exec r s with
  | Some h => firstn (h_start h) s
  | None => s
  end.

(** Whether a pattern is free of capture groups. *)
Fixpoint no_group (r : regex) : bool :=
  match r with
  | Seq a b | Alt a b => no_group a && no_group b
  | Opt r | Look r => no_group r
  | Grp _ _ => false
  | _ => true
  end.

(** The code unit before the position reached by reading [w]. *)
Definition lastp (pv : option char) (w : jsstring) : option char :=
  fold_left (fun _ c => Some c) w pv.

End Regex.

Import Regex.

(** ** Numbers: IEEE 754 binary64, round to nearest even *)

Module JSNumber.

Local Open Scope Z_scope.

Definition prec : Z := 53.
Definition emax : Z := 1024.

Definition number := spec_float.

Definition NaN : number := S754_nan.

(** The Number for an integer. *)
Definition ofZ (z : Z) : number := binary_normalize prec emax z 0 false.

(** The Number nearest to [n / d], for [0 <= n] and [0 < d]. *)
Definition ofRatio (n d : Z) : number :=
  match n with
  | Z0 => S754_zero false
  | _ =>
      let '(mz, ez, lz) := SFdiv_core_binary prec emax n 0 d 0 in
      binary_round_aux prec emax false mz ez lz
  end.

Definition add (a b : number) : number := SFadd prec emax a b.
Definition div (a b : number) : number := SFdiv prec emax a b.

(** [a > b]; false when either side is NaN. *)
Definition gt (a b : number) : bool := SFltb b a.

(** The rational a finite Number stands for. *)
Definition valueOf (x : number) : option Q :=
  match x with
  | S754_zero _ => Some 0%Q
  | S754_finite s mx e =>
      Some (Qred (inject_Z (cond_Zopp s (Zpos mx)) * Qpower 2 e))
  | _ => None
  end.

Definition digitVal (c : char) : Z := Z.of_N c - 48.

(** The mathematical value of a run of decimal digits. *)
Definition digitsVal (s : jsstring) : Z :=
  fold_left (fun acc c => 10 * acc + digitVal c) s 0.

Fixpoint takeDigits (s : jsstring) : jsstring * jsstring :=
  match s with
  | c :: t => if isDigit c
              then let '(d, r) := takeDigits t in (c :: d, r)
              else ([], s)
  | [] => ([], [])
  end.

(** [parseInt(s, 10)] on unsigned text: leading white space is skipped and
    the longest run of digits is read; no digit gives NaN.  (The parser only
    passes runs of digits.) *)
Definition parseInt (s : jsstring) : number :=
  match fst (takeDigits (trimStart s)) with
  | [] => NaN
  | ds => ofZ (digitsVal ds)
  end.

(** [parseFloat(s)] on unsigned text without exponent: digits, then an
    optional point and digits; no digit gives NaN.  (The parser only passes
    text of the form digits[.digits].) *)
Definition parseFloat (s : jsstring) : number :=
  let '(ip, r) := takeDigits (trimStart s) in
  let fp := match r with
            | c :: t => if N.eqb c 46 then fst (takeDigits t) else []
            | [] => []
            end in
  match ip ++ fp with
  | [] => NaN
  | ds => ofRatio (digitsVal ds) (10 ^ Z.of_nat (length fp))
  end.

End JSNumber.

(** ** Dates: the time-value arithmetic behind [Date.UTC] and the UTC getters *)

Module JSDate.

Local Open Scope Z_scope.

Definition msPerDay : Z := 86400000.

Definition Day (t : Z) : Z := t / msPerDay.

Definition DaysInYear (y : Z) : Z :=
  if negb (y mod 4 =? 0) then 365
  else if negb (y mod 100 =? 0) then 366
  else if negb (y mod 400 =? 0) then 365
  else 366.

Definition DayFromYear (y : Z) : Z :=
  365 * (y - 1970) + (y - 1969) / 4 - (y - 1901) / 100 + (y - 1601) / 400.

Definition TimeFromYear (y : Z) : Z := msPerDay * DayFromYear y.

(** The largest [y'] at most [y] with [TimeFromYear y' <= t], looked for
    downwards. *)
Fixpoint yearDown (fuel : nat) (y t : Z) : Z :=
  match fuel with
  | O => y
  | S f => if TimeFromYear y <=? t then y else yearDown f (y - 1) t
  end.

(** The largest year whose start is not after [t]. *)
Definition YearFromTime (t : Z) : Z :=
  let d := Day t in
  let ub := if 0 <=? d then 1970 + d / 365 + 1 else 1970 + d / 366 + 1 in
  yearDown (Z.to_nat (Z.abs d / 100000) + 3) ub t.

Definition InLeapYear (t : Z) : Z :=
  if DaysInYear (YearFromTime t) =? 365 then 0 else 1.

Definition DayWithinYear (t : Z) : Z := Day t - DayFromYear (YearFromTime t).

(** The first day-within-year of each month, for a common year ([leap = 0])
    or a leap year ([leap = 1]); the thirteenth entry closes December. *)
Definition monthStart (leap : Z) : list Z :=
  [0; 31; 59 + leap; 90 + leap; 120 + leap; 151 + leap; 181 + leap;
   212 + leap; 243 + leap; 273 + leap; 304 + leap; 334 + leap; 365 + leap].

Fixpoint monthOf (starts : list Z) (d : Z) (k : Z) : Z :=
  match starts with
  | _ :: ((hi :: _) as t) => if d <? hi then k else monthOf t d (k + 1)
  | _ => k
  end.

Definition MonthFromTime (t : Z) : Z :=
  monthOf (monthStart (InLeapYear t)) (DayWithinYear t) 0.

Definition DateFromTime (t : Z) : Z :=
  DayWithinYear t
  - nth (Z.to_nat (MonthFromTime t)) (monthStart (InLeapYear t)) 0 + 1.

Definition MakeDay (year month date : Z) : Z :=
  let ym := year + month / 12 in
  let mn := month mod 12 in
  let leap := if DaysInYear ym =? 365 then 0 else 1 in
  DayFromYear ym + nth (Z.to_nat mn) (monthStart leap) 0 + date - 1.

(** [TimeClip]: time values beyond 8.64e15 ms are not dates. *)
Definition TimeClip (t : Z) : option Z :=
  if Z.abs t <=? 8640000000000000 then Some t else None.

(** [Date.UTC(y, m, d)] on integers; years 0 to 99 mean 1900 to 1999. *)
Definition UTC (y mo d : Z) : option Z :=
  let yr := if (0 <=? y) && (y <=? 99) then 1900 + y else y in
  TimeClip (MakeDay yr mo d * msPerDay).

End JSDate.

(** ** The parser: scripts/supercommit/parse.js *)

Module Parse.

Import JSNumber.

(** A call either returns or throws an [Error] with a message. *)
Inductive outcome (A : Type) :=
| Ok (a : A)
| Throw (msg : string).

Arguments Ok {A} a.
Arguments Throw {A} msg.

Definition bind {A B : Type} (c : outcome A) (k : A -> outcome B) : outcome B :=
  match c with
  | Ok a => k a
  | Throw e => Throw e
  end.

Notation "x <- c ;; k" := (bind c (fun x => k))
  (at level 61, c at next level, right associativity).
Notation "' pat <- c ;; k" :=
  (bind c (fun x => match x with pat => k end))
  (at level 61, pat pattern, c at next level, right associativity).
Notation "c ;;; k" := (bind c (fun _ => k))
  (at level 61, right associativity).

Record parsed := Parsed {
  issue : jsstring;
  issueKey : jsstring;
  status : option jsstring;
  logHours : option number;
  logDate : option jsstring;
  comment : option jsstring;
  phase : option jsstring;
  ready : option bool;
  firstLine : jsstring
}.

Definition TOKEN_NAMES : list string :=
  ["STATUS"; "LOG"; "COMMENT"; "PHASE"; "DATE"; "CAT"; "READY"]%string.

(** [STATUS|LOG|COMMENT|...], as spliced into the token patterns. *)
Definition TOKEN_ALT : regex := AltLits (map js TOKEN_NAMES).

Definition colon : char := 58.

(** [/\r?\n/] *)
Definition newlineRe : regex :=
  Seq (Rep true 0 (Some 1%nat) (N.eqb 13)) (Cls (N.eqb 10)).

(** [/^\uFEFF/] *)
Definition bomRe : regex := Seq Bol (Cls (N.eqb 65279)).

(** [/^[\u200B\u200C\u200D]+/] *)
Definition zeroWidthRe : regex := Seq Bol (Rep true 1 None (in_range 8203 8205)).

(** [/^\s+/] *)
Definition leadingSpaceRe : regex := Seq Bol (Rep true 1 None isSpace).

Definition sanitizeFirstLine (message : jsstring) : jsstring :=
  let rawFirst := splitFirst newlineRe message in
  trimEnd
    (removeFirst leadingSpaceRe
       (removeFirst zeroWidthRe
          (removeFirst bomRe rawFirst))).

Definition truthy : list jsstring := map js ["y"; "yes"; "true"; "1"]%string.
Definition falsy : list jsstring := map js ["n"; "no"; "false"; "0"]%string.

Definition parseReady (val : option jsstring) : option bool :=
  match val with
  | None => None
  | Some v =>
      let s := toLowerCase (trim v) in
      if includes truthy s then Some true
      else if includes falsy s then Some false
      else None
  end.

Definition failFormat {A : Type} (msg : string) : outcome A :=
  Throw ("Super Commit format: " ++ msg)%string.

(** [(?:\s(?:TOKEN_ALT):|$)], the inside of the lookahead. *)
Definition boundaryRe : regex :=
  Alt (Seq (Cls isSpace) (Seq TOKEN_ALT (Cls (N.eqb colon)))) Eol.

(** [([^\s].*?)], the captured value. *)
Definition valueRe : regex :=
  Grp 1 (Seq (Cls notSpace) (Rep false 0 None isDot)).

(** [\s*(?=(?:\s(?:TOKEN_ALT):|$))], what must follow the value. *)
Definition valueTailRe : regex :=
  Seq (Rep true 0 None isSpace) (Look boundaryRe).

(** [(?:^|\s)NAME:\s*([^\s].*?)\s*(?=(?:\s(?:TOKEN_ALT):|$))] *)
Definition tokenRe (name : string) : regex :=
  Seq (Alt Bol (Cls isSpace))
 (Seq (Lit (js name))
 (Seq (Cls (N.eqb colon))
 (Seq (Rep true 0 None isSpace)
 (Seq valueRe valueTailRe)))).

(** The number of matches the [g] pattern of [onlyOne] finds. *)
Definition hits (line : jsstring) (name : string) : nat :=
  length (matchAll (tokenRe name) line).

(** [onlyOne], with the sanitized first line it closes over as argument. *)
Definition onlyOne (line : jsstring) (name : string) : outcome unit :=
  if (1 <? hits line name)%nat
  then failFormat ("only one " ++ name ++ " token is allowed.")%string
  else Ok tt.

(** [names.forEach(f)], stopping at the first call that throws. *)
Fixpoint forEach (f : string -> outcome unit) (names : list string) : outcome unit :=
  match names with
  | [] => Ok tt
  | n :: t => f n ;;; forEach f t
  end.

(** [m[n]] as text; an unset group reads as the empty text. *)
Definition groupText (n : nat) (h : hit) : jsstring :=
  match group n h with Some v => v | None => [] end.

(** [getToken]: the trimmed first group of the first match, or null. *)
Definition getToken (line : jsstring) (name : string) : option jsstring :=
  match exec (tokenRe name) line with
  | Some h => Some (trim (groupText 1 h))
  | None => None
  end.

(** [tidy]: the trimmed text, or null for null and for blank text. *)
Definition tidy (v : option jsstring) : option jsstring :=
  match v with
  | Some s => match trim s with [] => None | t => Some t end
  | None => None
  end.

Definition hyphen : char := 45.

(** [/^(\d{4})-(\d{2})-(\d{2})$/] *)
Definition isoDateRe : regex :=
  Seq Bol
 (Seq (Grp 1 (Rep true 4 (Some 4%nat) isDigit))
 (Seq (Cls (N.eqb hyphen))
 (Seq (Grp 2 (Rep true 2 (Some 2%nat) isDigit))
 (Seq (Cls (N.eqb hyphen))
 (Seq (Grp 3 (Rep true 2 (Some 2%nat) isDigit))
      Eol))))).

(** [/^\d{4}-\d{2}-\d{2}$/] *)
Definition datePatternRe : regex :=
  Seq Bol
 (Seq (Rep true 4 (Some 4%nat) isDigit)
 (Seq (Cls (N.eqb hyphen))
 (Seq (Rep true 2 (Some 2%nat) isDigit)
 (Seq (Cls (N.eqb hyphen))
 (Seq (Rep true 2 (Some 2%nat) isDigit)
      Eol))))).

(** [isValidISODate]: the text has the form yyyy-mm-dd and the date built
    from its three numbers has that year, month and day. *)
Definition isValidISODate (s : jsstring) : bool :=
  match exec isoDateRe s with
  | None => false
  | Some h =>
      let y := digitsVal (groupText 1 h) in
      let mo := digitsVal (groupText 2 h) in
      let d := digitsVal (groupText 3 h) in
      match JSDate.UTC y (mo - 1) d with
      | None => false
      | Some dt =>
          (JSDate.YearFromTime dt =? y)%Z
          && (JSDate.MonthFromTime dt =? mo - 1)%Z
          && (JSDate.DateFromTime dt =? d)%Z
      end
  end.

(** [/^([A-Z][A-Z0-9]{1,9}-\d+)\b/] *)
Definition issueKeyRe : regex :=
  Seq Bol
 (Seq (Grp 1 (Seq (Cls isUpper)
             (Seq (Rep true 1 (Some 9%nat) isUpperOrDigit)
             (Seq (Cls (N.eqb hyphen))
                  (Rep true 1 None isDigit)))))
      WordB).

(** [h] under the [i] flag. *)
Definition isH (c : char) : bool := (c =? 104) || (c =? 72).
(** [m] under the [i] flag. *)
Definition isM (c : char) : bool := (c =? 109) || (c =? 77).

(** [/^(\d+(?:\.\d+)?)h$/i] *)
Definition hoursRe : regex :=
  Seq Bol
 (Seq (Grp 1 (Seq (Rep true 1 None isDigit)
                  (Opt (Seq (Cls (N.eqb 46)) (Rep true 1 None isDigit)))))
 (Seq (Cls isH) Eol)).

(** [/^(\d+):(\d{1,2})$/] *)
Definition hourMinuteRe : regex :=
  Seq Bol
 (Seq (Grp 1 (Rep true 1 None isDigit))
 (Seq (Cls (N.eqb colon))
 (Seq (Grp 2 (Rep true 1 (Some 2%nat) isDigit))
      Eol))).

(** [/^(\d+)m$/i] *)
Definition minutesRe : regex :=
  Seq Bol (Seq (Grp 1 (Rep true 1 None isDigit)) (Seq (Cls isM) Eol)).

Definition sixty : number := ofZ 60.
Definition zero : number := ofZ 0.

(** The three duration forms of the LOG value, tried in order. *)
Definition parseLogTime (timePart : jsstring) : outcome number :=
  match exec hoursRe timePart with
  | Some h => Ok (parseFloat (groupText 1 h))
  | None =>
      match exec hourMinuteRe timePart with
      | Some h =>
          let hh := parseInt (groupText 1 h) in
          let mins := parseInt (groupText 2 h) in
          if SFleb sixty mins
          then failFormat "LOG minutes must be < 60 for h:mm."
          else Ok (add hh (div mins sixty))
      | None =>
          match exec minutesRe timePart with
          | Some h => Ok (div (parseInt (groupText 1 h)) sixty)
          | None => failFormat "LOG must be 2h@YYYY-MM-DD, 1.5h, 1:30, or 90m."
          end
      end
  end.

(** The two checks applied to a date, be it the LOG date or the DATE token:
    first the pattern, then the calendar. *)
Definition checkDate (d : jsstring) : outcome jsstring :=
  if negb (test datePatternRe d)
  then failFormat "date must be yyyy-mm-dd."
  else if negb (isValidISODate d)
  then Throw "LOG date must be a valid calendar date (yyyy-mm-dd)."
  else Ok d.

(** The optional [@date] split of the LOG value. *)
Definition splitLog (rawLog : jsstring) : jsstring * option jsstring :=
  match indexOf 64 rawLog with
  | Some atIdx => (sliceTo atIdx rawLog, Some (trim (sliceFrom (S atIdx) rawLog)))
  | None => (rawLog, None)
  end.

(** A string or null as a condition: null and the empty string are falsy. *)
Definition truthyText (v : option jsstring) : option jsstring :=
  match v with
  | Some (c :: t) => Some (c :: t)
  | _ => None
  end.

(** The LOG section of [parseCommitMessage]: hours and date from the LOG
    value, with the DATE token as the fallback date. *)
Definition logSection (rawLog dateToken : option jsstring)
  : outcome (option number * option jsstring) :=
  match truthyText rawLog with
  | Some rawLog =>
      let '(timePart, datePart) := splitLog rawLog in
      logHours <- parseLogTime timePart ;;
      (if negb (gt logHours zero)
       then failFormat "LOG hours must be a positive number."
       else Ok tt) ;;;
      match truthyText datePart with
      | Some datePart =>
          logDate <- checkDate datePart ;; Ok (Some logHours, Some logDate)
      | None =>
          match truthyText dateToken with
          | Some dateToken =>
              logDate <- checkDate dateToken ;; Ok (Some logHours, Some logDate)
          | None => Ok (Some logHours, None)
          end
      end
  | None =>
      match truthyText dateToken with
      | Some dateToken =>
          logDate <- checkDate dateToken ;; Ok (None, Some logDate)
      | None => Ok (None, None)
      end
  end.

(** [if (!phase && catAlias) phase = catAlias] *)
Definition resolvePhase (phase catAlias : option jsstring) : option jsstring :=
  match truthyText phase, truthyText catAlias with
  | None, Some c => Some c
  | _, _ => phase
  end.

(** [if (status !== null && !status.trim()) failFormat(...)] *)
Definition statusGuard (status : option jsstring) : outcome unit :=
  match status with
  | Some s => match trim s with
              | [] => failFormat "STATUS value cannot be empty."
              | _ :: _ => Ok tt
              end
  | None => Ok tt
  end.

(** [parseCommitMessage] on a string; a message that is not a string throws
    the same error as a blank one. *)
Definition parseCommitMessage (message : jsstring) : outcome parsed :=
  match trim message with
  | [] => Throw "Super Commit format: commit message is empty."
  | _ :: _ =>
  let firstLine := sanitizeFirstLine message in
  match exec issueKeyRe firstLine with
  | None => failFormat "missing or invalid JIRA issue key at start (e.g., ABC-123)."
  | Some keyMatch =>
  let issue := groupText 1 keyMatch in
  let issueKey := issue in
  forEach (onlyOne firstLine) TOKEN_NAMES ;;;
  let status := tidy (getToken firstLine "STATUS") in
  let comment := tidy (getToken firstLine "COMMENT") in
  let phase := resolvePhase (tidy (getToken firstLine "PHASE"))
                            (tidy (getToken firstLine "CAT")) in
  let dateToken := tidy (getToken firstLine "DATE") in
  let readyToken := tidy (getToken firstLine "READY") in
  let ready := parseReady readyToken in
  let rawLog := tidy (getToken firstLine "LOG") in
  '(logHours, logDate) <- logSection rawLog dateToken ;;
  statusGuard status ;;;
  Ok (Parsed issue issueKey status logHours logDate comment phase ready firstLine)
  end
  end.

(** *** Vocabulary of the token grammar *)

(** The text [t] starts at a token boundary: it is the end of the line, or a
    white space followed by a reserved name and a colon. *)
Definition boundary (t : jsstring) : Prop :=
  t = [] \/
  exists c n u, isSpace c = true /\ In n TOKEN_NAMES /\ t = c :: js n ++ colon :: u.

(** A value may end before [post]: white space, then a boundary. *)
Definition valueEnds (post : jsstring) : Prop :=
  exists w t, post = w ++ t /\ forallb isSpace w = true /\ boundary t.


(** The message of a format error. *)
Definition formatError (msg : string) : string :=
  ("Super Commit format: " ++ msg)%string.

Definition calendarError : string :=
  "LOG date must be a valid calendar date (yyyy-mm-dd)."%string.

(** No reserved name has more than one match in the line. *)
Definition unique (line : jsstring) : bool :=
  forallb (fun n => (hits line n <=? 1)%nat) TOKEN_NAMES.

(** The message gets past the checks made before any token is read: it is
    not blank, its first line starts with an issue key, and no reserved name
    has two matches. *)
Definition passesChecks (message : jsstring) : Prop :=
  trim message <> []
  /\ exec issueKeyRe (sanitizeFirstLine message) <> None
  /\ unique (sanitizeFirstLine message) = true.

(** Whether a message is that of a format error. *)
Definition isFormatError (msg : string) : bool :=
  String.prefix "Super Commit format: " msg.

End Parse.

(** ** Rearranging the tokens of a message *)

Module Rearrange.

(** All ways to insert [a] into [l]. *)
Fixpoint insertions {A : Type} (a : A) (l : list A) : list (list A) :=
  match l with
  | [] => [[a]]
  | x :: t => (a :: l) :: map (cons x) (insertions a t)
  end.

(** All orders of [l]. *)
Fixpoint permutations {A : Type} (l : list A) : list (list A) :=
  match l with
  | [] => [[]]
  | a :: t => flat_map (insertions a) (permutations t)
  end.

(** A commit line: the issue key, then the tokens, separated by spaces. *)
Definition commitLine (key : jsstring) (tokens : list jsstring) : jsstring :=
  key ++ concat (map (fun t => 32 :: t) tokens).

End Rearrange.

(** ** The sanitizer read as list functions

    What the four patterns of [sanitizeFirstLine] do, written without
    patterns; the properties below show that the two readings agree. *)

Module Direct.

Import Parse.

(** The text starts with a line break: a line feed, or a carriage return and
    a line feed. *)
Definition startsNewline (s : jsstring) : bool :=
  match s with
  | c :: t =>
      (c =? 10)
      || ((c =? 13) && (match t with d :: _ => d =? 10 | [] => false end))
  | [] => false
  end.

(** The text before the first line break. *)
Fixpoint firstLineText (s : jsstring) : jsstring :=
  match s with
  | [] => []
  | c :: t => if startsNewline s then [] else c :: firstLineText t
  end.

(** Without one byte order mark at the start. *)
Definition dropBOM (s : jsstring) : jsstring :=
  match s with
  | c :: t => if c =? 65279 then t else s
  | [] => []
  end.

(** Without the leading run of code units of a class. *)
Fixpoint dropRun (p : char -> bool) (s : jsstring) : jsstring :=
  match s with
  | c :: t => if p c then dropRun p t else s
  | [] => []
  end.

Definition isZeroWidth (c : char) : bool := in_range 8203 8205 c.

(** *** Vocabulary of the issue key *)

(** [key] is an issue key and [rest] may follow it: an upper-case letter,
    one to nine upper-case letters or digits, a hyphen and digits, not
    followed by a letter, a digit or an underscore. *)
Definition keyShape (key rest : jsstring) : Prop :=
  exists u mid ds,
    key = u :: mid ++ hyphen :: ds
    /\ isUpper u = true
    /\ forallb isUpperOrDigit mid = true
    /\ (1 <= length mid <= 9)%nat
    /\ ds <> [] /\ forallb isDigit ds = true
    /\ match rest with [] => True | c :: _ => isWordChar c = false end.

(** The error for a line without an issue key. *)
Definition keyError : string :=
  formatError "missing or invalid JIRA issue key at start (e.g., ABC-123).".

(** The error for a blank message. *)
Definition emptyError : string :=
  "Super Commit format: commit message is empty."%string.

(** The error for a second token of a name. *)
Definition duplicateError (name : string) : string :=
  formatError ("only one " ++ name ++ " token is allowed.").

(** Every message [parseCommitMessage] has for an error, but the one of the
    guard on an empty STATUS. *)
Definition parseErrors : list string :=
  [emptyError; keyError] ++ map duplicateError TOKEN_NAMES
  ++ [formatError "LOG minutes must be < 60 for h:mm.";
      formatError "LOG must be 2h@YYYY-MM-DD, 1.5h, 1:30, or 90m.";
      formatError "LOG hours must be a positive number.";
      formatError "date must be yyyy-mm-dd.";
      calendarError].

End Direct.

(** ** Vocabulary of dates and durations *)

Module Gregorian.

Import Parse.

(** The leap years of the Gregorian calendar. *)
Definition isLeap (y : Z) : bool :=
  (((y mod 4 =? 0) && negb (y mod 100 =? 0)) || (y mod 400 =? 0))%Z.

(** The number of days of month [mo] of year [y]. *)
Definition daysInMonth (y mo : Z) : Z :=
  (if mo =? 2 then (if isLeap y then 29 else 28)
   else if (mo =? 4) || (mo =? 6) || (mo =? 9) || (mo =? 11) then 30
   else 31)%Z.

(** Year, month and day name a day of the calendar, in a year from 100 on. *)
Definition calendarDate (y mo d : Z) : Prop :=
  (100 <= y /\ 1 <= mo <= 12 /\ 1 <= d <= daysInMonth y mo)%Z.

(** [s] reads yyyy-mm-dd, with [y], [mo] and [d] its three runs of digits. *)
Definition isoDateText (s y mo d : jsstring) : Prop :=
  s = y ++ hyphen :: mo ++ hyphen :: d
  /\ length y = 4%nat /\ length mo = 2%nat /\ length d = 2%nat
  /\ forallb isDigit y = true /\ forallb isDigit mo = true
  /\ forallb isDigit d = true.

End Gregorian.

Module LogGrammar.

Import Parse.

(** [t] is a duration in one of the three forms of LOG: hours with an
    optional decimal part, hours and one or two digits of minutes, or
    minutes. *)
Definition durationText (t : jsstring) : Prop :=
  (exists (ds : jsstring) (c : char),
      t = ds ++ [c] /\ ds <> [] /\ forallb isDigit ds = true
      /\ (isH c = true \/ isM c = true))
  \/ (exists (ds fs : jsstring) (c : char),
         t = ds ++ 46 :: fs ++ [c]
         /\ ds <> [] /\ forallb isDigit ds = true
         /\ fs <> [] /\ forallb isDigit fs = true /\ isH c = true)
  \/ (exists hs ms : jsstring,
         t = hs ++ colon :: ms
         /\ hs <> [] /\ forallb isDigit hs = true
         /\ ms <> [] /\ forallb isDigit ms = true /\ (length ms <= 2)%nat).

(** The LOG value [raw] has no date of its own: it has no [@], or nothing
    but white space after its first [@]. *)
Definition noInlineDate (raw : jsstring) : Prop :=
  ~ In 64 raw \/ exists t d, raw = t ++ 64 :: d /\ ~ In 64 t /\ trim d = [].

End LogGrammar.

(** ** Seconds for Tempo: scripts/supercommit/logTempo.js *)

Module LogTempo.

Import JSNumber.
Local Open Scope Z_scope.

Definition mul (a b : number) : number := SFmul prec emax a b.

(** [Number.isFinite] *)
Definition isFinite (x : number) : bool :=
  match x with
  | S754_zero _ | S754_finite _ _ _ => true
  | _ => false
  end.

(** [Math.round]: the nearest integer, a tie going up; zeros, infinities and
    NaN are kept, and what rounds to zero keeps its sign. *)
Definition round (x : number) : number :=
  match x with
  | S754_finite s mx e =>
      let mz := cond_Zopp s (Z.pos mx) in
      let z := if 0 <=? e then mz * 2 ^ e
               else (2 * mz + 2 ^ (- e)) / 2 ^ (1 - e) in
      if z =? 0 then S754_zero s else ofZ z
  | _ => x
  end.

(** [toSeconds] on a Number; [None] stands for the error "Invalid log
    hours: ..." *)
Definition toSeconds (hoursLike : number) : option number :=
  let n := hoursLike in
  if negb (isFinite n) || SFleb n (ofZ 0) then None
  else Some (round (mul n (ofZ 3600))).

(** The start of [logTempo] on the hours it is given: the guard, then
    [toSeconds]. *)
Definition timeSpentSeconds (hours : number) : Parse.outcome (option number) :=
  if negb (gt hours Parse.zero) then Parse.Throw "Tempo logHours missing."
  else Parse.Ok (toSeconds hours).

(** Whether two Numbers are the same datum. *)
Definition sameNumber (a b : number) : bool :=
  match a, b with
  | S754_zero s, S754_zero s' => Bool.eqb s s'
  | S754_infinity s, S754_infinity s' => Bool.eqb s s'
  | S754_nan, S754_nan => true
  | S754_finite s m e, S754_finite s' m' e' =>
      Bool.eqb s s' && Pos.eqb m m' && Z.eqb e e'
  | _, _ => false
  end.

(** [toSeconds hours] is the whole number [secs]. *)
Definition secondsAre (hours : number) (secs : Z) : bool :=
  match toSeconds hours with
  | Some s => sameNumber s (ofZ secs)
  | None => false
  end.

(** The integers from [lo], [n] of them. *)
Definition zrange (lo n : Z) : list Z :=
  map (fun i => lo + Z.of_nat i) (seq 0 (Z.to_nat n)).

End LogTempo.

(** ** Base urls: scripts/supercommit/updateJira.js *)

Module UpdateJira.

Definition isSlash (c : char) : bool := c =? 47.

(** [/\/+$/] *)
Definition slashEndRe : regex := Seq (Rep true 1 None isSlash) Eol.

(** [cleanBase(url)] on a string: [url.trim().replace(/\/+$/, "")]. *)
Definition cleanBase (url : jsstring) : jsstring :=
  removeFirst slashEndRe (trim url).

End UpdateJira.

(** ** The start of main and the Tempo category: scripts/supercommit/index.js *)

Module Index.

Import Parse.

(** A letter under the [i] flag: the lower-case letter [l] or its capital. *)
Definition sameLetter (l c : char) : bool := (c =? l) || (c =? l - 32).

(** [/^Merge\b/i] *)
Definition mergeRe : regex :=
  Seq Bol
 (Seq (Cls (sameLetter 109))
 (Seq (Cls (sameLetter 101))
 (Seq (Cls (sameLetter 114))
 (Seq (Cls (sameLetter 103))
 (Seq (Cls (sameLetter 101))
      WordB))))).

(** [firstLineOf(msg)] on a string. *)
Definition firstLineOf (msg : jsstring) : jsstring :=
  trim (splitFirst newlineRe msg).

(** How [main] goes on after reading the commit message: it returns at
    once, or works on an issue with what was parsed. *)
Inductive step :=
| Skipped
| Proceeds (issueKey : jsstring) (parsed : Parse.parsed).

(** [a || b] on strings. *)
Definition orElse (a b : jsstring) : jsstring :=
  match a with [] => b | _ :: _ => a end.

(** The start of [main], up to the check of the issue key. *)
Definition mainHead (commitMessage : jsstring) : outcome step :=
  let firstLine := firstLineOf commitMessage in
  match firstLine with
  | [] => Throw "Empty COMMIT_MESSAGE."
  | _ :: _ =>
      if test mergeRe firstLine then Ok Skipped
      else
        parsed <- parseCommitMessage firstLine ;;
        let issueKey := orElse (Parse.issueKey parsed) (orElse (issue parsed) []) in
        match issueKey with
        | [] => Throw "Commit must start with ISSUE-KEY (e.g., PEB-4)."
        | _ :: _ => Ok (Proceeds issueKey parsed)
        end
  end.

(** *** The same without a pattern *)

(** The line starts with the word "merge", in any letter case. *)
Definition startsMerge (line : jsstring) : bool :=
  match line with
  | a :: b :: c :: d :: e :: rest =>
      sameLetter 109 a && sameLetter 101 b && sameLetter 114 c
      && sameLetter 103 d && sameLetter 101 e
      && negb (is_word (hd_error rest))
  | _ => false
  end.

(** *** The Tempo category *)

(** [s.split(sep)] for a one-character separator. *)
Fixpoint splitOn (sep : char) (s : jsstring) : list jsstring :=
  match s with
  | [] => [[]]
  | c :: t =>
      if c =? sep then [] :: splitOn sep t
      else match splitOn sep t with
           | w :: ws => (c :: w) :: ws
           | [] => [[c]]
           end
  end.

(** A string as a condition. *)
Definition nonEmpty (s : jsstring) : bool :=
  match s with [] => false | _ :: _ => true end.

(** [env.tempoAllowedValues] from the text of TEMPO_CATEGORY_ALLOWED. *)
Definition tempoAllowedValues (raw : jsstring) : list jsstring :=
  filter nonEmpty (map trim (splitOn 44 raw)).

Section Choose.

(** The callee [normalizeCategoryName], whatever it returns. *)
Variable normalizeCategoryName : jsstring -> jsstring.

(** The allowed values and the fallback of the environment. *)
Variable allowed : list jsstring.
Variable tempoCategoryValue : jsstring.

Definition chooseValidCategory (candidateRaw : jsstring) : jsstring :=
  let normalized := normalizeCategoryName candidateRaw in
  if negb (nonEmpty normalized) then []
  else if (length allowed =? 0)%nat then normalized
  else if includes allowed normalized then normalized
  else if nonEmpty tempoCategoryValue && includes allowed tempoCategoryValue
       then tempoCategoryValue
       else match allowed with
            | a :: _ => if nonEmpty a then a else []
            | [] => []
            end.

End Choose.

End Index.

(** ** Requests and their retries: logTempo.js and updateJira.js *)

Module Fetch.

Import JSNumber.
Local Open Scope Z_scope.

(** What a request comes to: the promise of [fetch] is rejected, or there is
    a response, of which the code reads the status, the Retry-After header
    (already converted by [Number]; [None] when the header is missing) and
    the text of the body. *)
Inductive fetched :=
| Rejected
| Response (status : Z) (retryAfter : option number) (body : jsstring).

(** [res.ok] *)
Definition ok (status : Z) : bool := (200 <=? status) && (status <=? 299).

(** [res.status === 429 || res.status >= 500] *)
Definition busy (status : Z) : bool := (status =? 429) || (500 <=? status).

(** The response says that the server is busy. *)
Definition busyResponse (f : fetched) : bool :=
  match f with
  | Rejected => false
  | Response status _ _ => busy status
  end.

(** [Number(res.headers.get("retry-after"))]: a missing header is [null],
    which converts to 0. *)
Definition headerNumber (retryAfter : option number) : number :=
  match retryAfter with
  | Some x => x
  | None => ofZ 0
  end.

(** A Number as a condition: zeros and NaN are falsy. *)
Definition truthyNumber (x : number) : bool :=
  match x with
  | S754_zero _ | S754_nan => false
  | _ => true
  end.

End Fetch.

Module TempoWorklog.

Import JSNumber Fetch LogTempo Index.
Local Open Scope Z_scope.

Definition maxRetries : Z := 3.

(** [500 * Math.pow(2, attempt - 1)] *)
Definition backoff (attempt : Z) : number := ofZ (500 * 2 ^ (attempt - 1)).

Definition word (w : string) : regex :=
  fold_right (fun c r => Seq (Cls (sameLetter c)) r) Eps (js w).

(** [/already\s+exists|duplicate/i] *)
Definition duplicateRe : regex :=
  Alt (Seq (word "already") (Seq (Rep true 1 None isSpace) (word "exists")))
      (word "duplicate").

(** How a call of [logTempoWorklog] ends once its arguments are checked. *)
Inductive ending :=
| Created                                  (* the JSON of the response *)
| Conflict                                 (* { conflict: true } *)
| Duplicate                                (* { duplicate: true } *)
| NoValue                                  (* the loop is left: undefined *)
| BadRequest (body : jsstring)             (* thrown, noRetry *)
| StatusError (status : Z) (body : jsstring)  (* thrown, noRetry *)
| NetworkError (cause : fetched).          (* thrown after the last attempt *)

(** The retry loop: [net attempt] is what the request of that attempt comes
    to; the result is the list of the waits, the number of requests made
    and the ending.  The warnings, and the request for advice after a 400
    that mentions the category, do not change any of them and are left
    out. *)
Fixpoint attempts (fuel : nat) (attempt : Z) (net : Z -> fetched)
  : list number * Z * ending :=
  match fuel with
  | O => ([], 0, NoValue)
  | S fuel' =>
      if negb (attempt <=? maxRetries) then ([], 0, NoValue)
      else
        let continue (wait : number) :=
          let '(waits, requests, e) := attempts fuel' (attempt + 1) net in
          (wait :: waits, 1 + requests, e) in
        let caught (cause : fetched) :=
          if attempt <? maxRetries then continue (backoff attempt)
          else ([], 1, NetworkError cause) in
        match net attempt with
        | Rejected => caught Rejected
        | Response status retryAfter body =>
            if ok status then ([], 1, Created)
            else if status =? 409 then ([], 1, Conflict)
            else if status =? 400 then
              if test duplicateRe body then ([], 1, Duplicate)
              else ([], 1, BadRequest body)
            else if busy status then
              let n := headerNumber retryAfter in
              continue (if truthyNumber n then n else backoff attempt)
            else if (400 <=? status) && (status <? 500)
                 then ([], 1, StatusError status body)
                 else caught (Response status retryAfter body)
        end
  end.

Definition logTempoWorklog (net : Z -> fetched) : list number * Z * ending :=
  attempts 4 1 net.

(** *** Vocabulary *)

(** The attempt ends in a wait and another attempt, when there is one. *)
Definition retried (f : fetched) : bool :=
  match f with
  | Rejected => true
  | Response status _ _ =>
      negb (ok status) && negb (status =? 409) && negb (status =? 400)
      && (busy status || negb ((400 <=? status) && (status <? 500)))
  end.

(** The wait after an attempt that is retried: the Retry-After header of a
    busy response when that is a Number other than zero and NaN, and
    otherwise 500 ms doubled with each attempt. *)
Definition waitAfter (attempt : Z) (f : fetched) : number :=
  match f with
  | Rejected => backoff attempt
  | Response status retryAfter _ =>
      if busy status && truthyNumber (headerNumber retryAfter)
      then headerNumber retryAfter
      else backoff attempt
  end.

End TempoWorklog.

Module JiraFetch.

Import JSNumber Fetch LogTempo.
Local Open Scope Z_scope.

Definition maxRetries : Z := 2.

(** The wait before the next attempt. *)
Definition waitMs (attempt : Z) (retryAfter : option number) : number :=
  let ra := headerNumber retryAfter in
  if isFinite ra then mul ra (ofZ 1000) else ofZ (400 * (attempt + 1)).

(** The loop of [jiraFetch]: the waits, the number of the last attempt and
    what the call comes to: [Some] of what that attempt came to (a rejected
    request is an error of the call), or [None] when the loop is left
    without a [return]. *)
Fixpoint attempts (fuel : nat) (attempt : Z) (net : Z -> fetched)
  : list number * Z * option fetched :=
  match fuel with
  | O => ([], attempt, None)
  | S fuel' =>
      if negb (attempt <=? maxRetries) then ([], attempt, None)
      else
        match net attempt with
        | Rejected => ([], attempt, Some Rejected)
        | Response status retryAfter body =>
            if ok status then ([], attempt, Some (net attempt))
            else if busy status && (attempt <? maxRetries) then
              let '(waits, last, res) := attempts fuel' (attempt + 1) net in
              (waitMs attempt retryAfter :: waits, last, res)
            else ([], attempt, Some (net attempt))
        end
  end.

Definition jiraFetch (net : Z -> fetched) : list number * Z * option fetched :=
  attempts 4 0 net.

End JiraFetch.

Import JSNumber Parse Rearrange.
Import Direct.
Import Gregorian LogGrammar LogTempo UpdateJira Index.
Import Fetch.

(** ** Tactics for the months of a year *)

Ltac split_months M :=
  let H := fresh in
  assert (H : (M = 1 \/ M = 2 \/ M = 3 \/ M = 4 \/ M = 5 \/ M = 6 \/ M = 7
               \/ M = 8 \/ M = 9 \/ M = 10 \/ M = 11 \/ M = 12)%Z) by lia;
  repeat (destruct H as [H|H]; [subst M|]); [..|subst M].

Ltac eval_start :=
  repeat match goal with
         | H : context [@nth Z (Z.to_nat ((?a - 1) mod 12)%Z) ?l 0%Z] |- _ =>
             let v := eval vm_compute in
                        (@nth Z (Z.to_nat ((a - 1) mod 12)%Z) l 0%Z) in
             change (@nth Z (Z.to_nat ((a - 1) mod 12)%Z) l 0%Z) with v in H
         | |- context [@nth Z (Z.to_nat ((?a - 1) mod 12)%Z) ?l 0%Z] =>
             let v := eval vm_compute in
                        (@nth Z (Z.to_nat ((a - 1) mod 12)%Z) l 0%Z) in
             change (@nth Z (Z.to_nat ((a - 1) mod 12)%Z) l 0%Z) with v
         end.

Ltac eval_nth :=
  repeat match goal with
         | |- context [@nth Z ?k ?l 0%Z] =>
             let v := eval vm_compute in (@nth Z k l 0%Z) in
             change (@nth Z k l 0%Z) with v
         end.

Ltac split_ltb :=
  repeat match goal with
         | H : context [if (?a <? ?b)%Z then _ else _] |- _ =>
             destruct (Z.ltb_spec a b); cbv iota in H
         | |- context [if (?a <? ?b)%Z then _ else _] =>
             destruct (Z.ltb_spec a b); cbv iota
         end.

(** ** Tactics for the cases of the retries *)

Ltac retries_close Hb3 :=
  intros;
  repeat match goal with
         | H : _ /\ _ |- _ => destruct H
         | H : exists _, _ |- _ => destruct H
         end;
  first [ lia | congruence | reflexivity | solve [eauto]
        | match goal with
          | Hc : forall c, _ <> TempoWorklog.NetworkError c,
            H : _ = TempoWorklog.NetworkError _ |- _ =>
              exfalso; exact (Hc _ H)
          end
        | match goal with
          | H : busyResponse _ = true |- _ => apply Hb3 in H; congruence
          end
        | match goal with
          | Hk : (?k < _)%nat |- _ =>
              cbn [length] in Hk;
              destruct k as [|[|[|k]]]; cbn in *; try lia; assumption
          end
        | match goal with
          | Hk : (1 <= ?k)%Z |- _ =>
              cbn [length] in *;
              assert (k = 1 \/ k = 2 \/ k = 3)%Z as [-> | [-> | ->]] by lia;
              first [assumption | lia | reflexivity]
          end ].

Ltac decided_close :=
  eexists; split; [reflexivity|]; split; [discriminate|];
  split; [discriminate|];
  let s' := fresh "s" in
  let ra' := fresh "ra" in
  let b' := fresh "b" in
  let E := fresh "E" in
  intros s' ra' b' E; injection E as <- <- <-;
  repeat apply conj; intros; subst; try congruence; try lia;
  try match goal with H : test _ _ = _ |- _ => rewrite H end;
  try reflexivity.

(** * Properties *)

(** ** Trimming *)

Section Trim.

Lemma trimStart_head (s : jsstring) (c : char) (t : jsstring) :
  trimStart s = c :: t -> isSpace c = false.
Proof.
  induction s as [|x s IH]; simpl; [discriminate|].
  destruct (isSpace x) eqn:E; [exact IH|].
  intros H; injection H as -> _; exact E.
Qed.

Lemma trimStart_fixed (c : char) (t : jsstring) :
  isSpace c = false -> trimStart (c :: t) = c :: t.
Proof. intros H; simpl; now rewrite H. Qed.

Lemma trimStart_idem (s : jsstring) : trimStart (trimStart s) = trimStart s.
Proof.
  destruct (trimStart s) as [|c t] eqn:E; [reflexivity|].
  apply trimStart_fixed, (trimStart_head _ _ _ E).
Qed.

Lemma trimStart_snoc (s : jsstring) (c : char) :
  isSpace c = false -> trimStart (s ++ [c]) = trimStart s ++ [c].
Proof.
  intros H; induction s as [|x s IH]; simpl.
  - now rewrite H.
  - destruct (isSpace x); [exact IH|reflexivity].
Qed.

Lemma trimEnd_cons (c : char) (t : jsstring) :
  isSpace c = false -> trimEnd (c :: t) = c :: trimEnd t.
Proof.
  intros H; unfold trimEnd; simpl.
  rewrite (trimStart_snoc _ _ H), rev_app_distr; reflexivity.
Qed.

Lemma trimEnd_idem (s : jsstring) : trimEnd (trimEnd s) = trimEnd s.
Proof.
  unfold trimEnd; now rewrite rev_involutive, trimStart_idem.
Qed.

Lemma trim_head (s : jsstring) (c : char) (t : jsstring) :
  trim s = c :: t -> isSpace c = false.
Proof.
  unfold trim; destruct (trimStart s) as [|x u] eqn:E.
  - discriminate.
  - pose proof (trimStart_head _ _ _ E) as Hx.
    rewrite (trimEnd_cons _ _ Hx); intros H; injection H as <- _; exact Hx.
Qed.

(** Trimming twice is trimming once. *)
Lemma trim_idem (s : jsstring) : trim (trim s) = trim s.
Proof.
  destruct (trim s) as [|c t] eqn:E; [reflexivity|].
  pose proof (trim_head _ _ _ E) as Hc.
  unfold trim in E |- *.
  rewrite (trimStart_fixed _ _ Hc), <- E; apply trimEnd_idem.
Qed.

(** A text that starts with a non-space keeps its first code unit. *)
Lemma trim_cons (c : char) (t : jsstring) :
  isSpace c = false -> trim (c :: t) = c :: trimEnd t.
Proof.
  intros H; unfold trim; rewrite (trimStart_fixed _ _ H); now apply trimEnd_cons.
Qed.

Lemma tidy_Some (v : option jsstring) (t : jsstring) :
  tidy v = Some t -> t <> [] /\ trim t = t.
Proof.
  destruct v as [s|]; simpl; [|discriminate].
  destruct (trim s) as [|c u] eqn:E; [discriminate|].
  intros H; injection H as <-; split; [discriminate|].
  rewrite <- E; apply trim_idem.
Qed.

Lemma statusGuard_tidy (v : option jsstring) : statusGuard (tidy v) = Ok tt.
Proof.
  unfold statusGuard; destruct (tidy v) as [s|] eqn:E; [|reflexivity].
  destruct (tidy_Some _ _ E) as [Hne Ht]; rewrite Ht.
  destruct s; [contradiction|reflexivity].
Qed.

End Trim.

(** ** The matcher *)

Section Matcher.

Lemma hd_flat_map_in {A B : Type} (f : A -> list B) (l : list A) (x : B) :
  hd_error (flat_map f l) = Some x ->
  exists y, In y l /\ hd_error (f y) = Some x.
Proof.
  induction l as [|a l IH]; simpl; [discriminate|].
  destruct (f a) as [|b t] eqn:E; simpl.
  - intros H; destruct (IH H) as (y & Hy & Hx); eauto.
  - intros H; exists a; split; [now left|now rewrite E].
Qed.

Lemma flat_map_nil_iff {A B : Type} (f : A -> list B) (l : list A) :
  flat_map f l = [] <-> forall y, In y l -> f y = [].
Proof.
  induction l as [|a l IH]; simpl.
  - split; [intros _ y []|reflexivity].
  - split.
    + intros H; apply app_eq_nil in H as [Ha Hl].
      intros y [<-|Hy]; [exact Ha|now apply IH].
    + intros H; rewrite (H a (or_introl eq_refl)); simpl.
      apply IH; intros y Hy; apply H; now right.
Qed.

Lemma hd_error_in {A : Type} (l : list A) (x : A) :
  hd_error l = Some x -> In x l.
Proof. destruct l; simpl; [discriminate|intros [= ->]; now left]. Qed.

Lemma reps_caps (p : char -> bool) (l : jsstring) :
  forall lo hi pv cs x, In x (reps p lo hi pv l cs) -> caps x = cs.
Proof.
  induction l as [|c t IHl]; intros lo hi pv cs x Hx; simpl in Hx;
    apply in_app_iff in Hx as [Hx|Hx].
  - destruct lo; [destruct Hx as [<-|[]]; reflexivity|destruct Hx].
  - destruct hi as [[|?]|]; destruct Hx.
  - destruct lo; [destruct Hx as [<-|[]]; reflexivity|destruct Hx].
  - destruct hi as [[|h]|]; try destruct Hx;
      (destruct (p c); [eapply IHl; eassumption|destruct Hx]).
Qed.

(** Patterns without groups leave the captures alone. *)
Lemma no_group_caps (r : regex) :
  no_group r = true ->
  forall s s', In s' (m r s) -> caps s' = caps s.
Proof.
  induction r as [|p|a IHa b IHb|a IHa b IHb|g lo hi p|r IHr|n r IHr|r IHr| | |];
    simpl; intros Hg s s' Hin.
  - destruct Hin as [<-|[]]; reflexivity.
  - destruct (rest s) as [|c t]; [destruct Hin|].
    destruct (p c); [|destruct Hin].
    destruct Hin as [<-|[]]; reflexivity.
  - apply andb_true_iff in Hg as [Ha Hb].
    apply in_flat_map in Hin as (s1 & H1 & H2).
    rewrite (IHb Hb _ _ H2); now apply IHa.
  - apply andb_true_iff in Hg as [Ha Hb].
    apply in_app_iff in Hin as [H|H]; [now apply IHa|now apply IHb].
  - destruct g; [apply in_rev in Hin|]; now apply reps_caps in Hin.
  - apply in_app_iff in Hin as [H|[<-|[]]]; [now apply IHr|reflexivity].
  - discriminate.
  - destruct (m r s) as [|x t] eqn:E; [destruct Hin|].
    destruct Hin as [<-|[]]; simpl.
    apply IHr; [exact Hg|rewrite E; now left].
  - destruct (prev s); [destruct Hin|destruct Hin as [<-|[]]; reflexivity].
  - destruct (rest s); [destruct Hin as [<-|[]]; reflexivity|destruct Hin].
  - destruct (xorb _ _); [destruct Hin as [<-|[]]; reflexivity|destruct Hin].
Qed.

End Matcher.

Section MatcherShapes.

Lemma lastp_snoc (pv : option char) (w : jsstring) (c : char) :
  lastp pv (w ++ [c]) = Some c.
Proof. unfold lastp; now rewrite fold_left_app. Qed.

Lemma lastp_None (w : jsstring) : lastp None w = None -> w = [].
Proof.
  destruct w as [|c t] using rev_ind; [reflexivity|].
  now rewrite lastp_snoc.
Qed.

(** What a literal matches. *)
Lemma m_Lit_in (w : jsstring) (s x : mstate) :
  In x (m (Lit w) s) <->
  rest s = w ++ rest x /\ x = MState (lastp (prev s) w) (rest x) (caps s).
Proof.
  revert s; induction w as [|c w IH]; intros s; simpl.
  - split.
    + intros [<-|[]]; destruct s; auto.
    + intros [H ->]; left; destruct s; simpl in *; now subst.
  - rewrite in_flat_map; split.
    + intros (s1 & H1 & H2).
      destruct (rest s) as [|d t] eqn:E; [destruct H1|].
      destruct (N.eqb_spec c d) as [->|]; [|destruct H1].
      destruct H1 as [<-|[]]; apply IH in H2 as [H2 H3]; simpl in *.
      split; [now rewrite H2|exact H3].
    + intros [H1 H2]; rewrite H1.
      exists (advance c (w ++ rest x) s); rewrite N.eqb_refl; split; [now left|].
      apply IH; split; [reflexivity|exact H2].
Qed.

(** What a star over a class reaches. *)
Lemma reps_in (p : char -> bool) (l : jsstring) :
  forall pv cs x,
  In x (reps p 0 None pv l cs) <->
  exists w, l = w ++ rest x /\ forallb p w = true
            /\ x = MState (lastp pv w) (rest x) cs.
Proof.
  induction l as [|c t IH]; intros pv cs x; simpl.
  - split.
    + intros [<-|[]]; exists []; auto.
    + intros (w & H & _ & ->); left.
      symmetry in H; apply app_eq_nil in H as [-> ->]; reflexivity.
  - split.
    + intros [<-|H]; [exists []; auto|].
      destruct (p c) eqn:E; [|destruct H].
      apply IH in H as (w & H1 & H2 & H3).
      exists (c :: w); simpl; rewrite E, H2; repeat split; [now f_equal|exact H3].
    + intros (w & H1 & H2 & H3); destruct w as [|d w]; simpl in *.
      * left; rewrite H3; simpl; now rewrite <- H1.
      * injection H1 as <- H1; apply andb_true_iff in H2 as [Hc Hw].
        right; rewrite Hc; apply IH; exists w; auto.
Qed.

(** A lazy star followed by [f]: the first answer comes from the shortest
    repetition after which [f] succeeds. *)
Lemma lazy_first {B : Type} (p : char -> bool) (f : mstate -> list B) (l : jsstring) :
  forall pv cs x,
  hd_error (flat_map f (reps p 0 None pv l cs)) = Some x ->
  exists w t,
    l = w ++ t /\ forallb p w = true
    /\ hd_error (f (MState (lastp pv w) t cs)) = Some x
    /\ forall w1 w2, w = w1 ++ w2 -> w2 <> [] ->
                     f (MState (lastp pv w1) (w2 ++ t) cs) = [].
Proof.
  induction l as [|c t IH]; intros pv cs x; simpl.
  - rewrite app_nil_r; intros H; exists [], []; repeat split; auto.
    intros w1 w2 H1; symmetry in H1; apply app_eq_nil in H1 as [_ ->]; congruence.
  - destruct (f (MState pv (c :: t) cs)) as [|b bs] eqn:E; simpl.
    + destruct (p c) eqn:Ec; [|discriminate].
      intros H; apply IH in H as (w & u & H1 & H2 & H3 & H4).
      exists (c :: w), u; simpl; rewrite Ec, H2; repeat split; [now f_equal|exact H3|].
      intros w1 w2 Hw Hne; destruct w1 as [|d w1]; simpl in *.
      * subst w2; simpl; rewrite <- H1; exact E.
      * injection Hw as <- Hw; now apply H4.
    + intros [= <-]; exists [], (c :: t); simpl; rewrite E; repeat split; auto.
      intros w1 w2 H1; symmetry in H1; apply app_eq_nil in H1 as [_ ->]; congruence.
Qed.

(** Where a search ends up. *)
Lemma search_Some (r : regex) (l : jsstring) :
  forall i pv h,
  search r i pv l = Some h ->
  exists pre l',
    l = pre ++ l' /\ h_start h = (i + length pre)%nat
    /\ hd_error (m r (MState (lastp pv pre) l' [])) = Some (h_end h).
Proof.
  induction l as [|c t IH]; intros i pv h; simpl.
  - destruct (m r (MState pv [] [])) as [|x xs] eqn:E; [discriminate|].
    intros [= <-]; exists [], []; simpl; rewrite E; auto.
  - destruct (m r (MState pv (c :: t) [])) as [|x xs] eqn:E.
    + intros H; apply IH in H as (pre & l' & H1 & H2 & H3).
      exists (c :: pre), l'; simpl; repeat split; [now f_equal|lia|exact H3].
    + intros [= <-]; exists [], (c :: t); simpl; rewrite E; auto.
Qed.

End MatcherShapes.

(** ** The token pattern *)

Section TokenPattern.

Lemma m_Cls_in (p : char -> bool) (s x : mstate) :
  In x (m (Cls p) s) <->
  exists c t, rest s = c :: t /\ p c = true /\ x = advance c t s.
Proof.
  simpl; destruct (rest s) as [|c t].
  - split; [intros []|intros (c & t & H & _); discriminate].
  - destruct (p c) eqn:E; split.
    + intros [<-|[]]; eauto.
    + intros (d & u & [= <- <-] & _ & ->); now left.
    + intros [].
    + intros (d & u & [= <- <-] & H & _); congruence.
Qed.

Lemma m_Look_nil (r : regex) (s : mstate) :
  m (Look r) s = [] <-> m r s = [].
Proof.
  simpl; destruct (m r s); split; auto; discriminate.
Qed.

Lemma m_AltLits_in (ws : list jsstring) (s x : mstate) :
  ws <> [] ->
  (In x (m (AltLits ws) s) <-> exists w, In w ws /\ In x (m (Lit w) s)).
Proof.
  induction ws as [|w ws IH]; [congruence|intros _].
  destruct ws as [|w' ws].
  - simpl AltLits; split.
    + intros H; exists w; split; [now left|exact H].
    + intros (w0 & [<-|[]] & H); exact H.
  - change (AltLits (w :: w' :: ws)) with (Alt (Lit w) (AltLits (w' :: ws))).
    change (m (Alt (Lit w) (AltLits (w' :: ws))) s)
      with (m (Lit w) s ++ m (AltLits (w' :: ws)) s).
    rewrite in_app_iff, IH by discriminate; split.
    + intros [H|(w0 & H1 & H2)]; [exists w; split; [now left|exact H]|].
      exists w0; split; [now right|exact H2].
    + intros (w0 & [<-|H1] & H2); [now left|right; eauto].
Qed.

Lemma TOKEN_ALT_in (s x : mstate) :
  In x (m TOKEN_ALT s) <->
  exists n, In n TOKEN_NAMES /\ rest s = js n ++ rest x
            /\ x = MState (lastp (prev s) (js n)) (rest x) (caps s).
Proof.
  unfold TOKEN_ALT; rewrite m_AltLits_in by discriminate; split.
  - intros (w & Hw & Hx); apply in_map_iff in Hw as (n & <- & Hn).
    apply m_Lit_in in Hx; eauto.
  - intros (n & Hn & H1 & H2); exists (js n); split; [now apply in_map|].
    apply m_Lit_in; auto.
Qed.

(** The lookahead succeeds exactly at a boundary. *)
Lemma boundaryRe_spec (s : mstate) :
  m boundaryRe s <> [] <-> boundary (rest s).
Proof.
  unfold boundaryRe, boundary.
  change (m (Alt ?a Eol) s) with (m a s ++ m Eol s).
  split.
  - intros H.
    destruct (m (Seq (Cls isSpace) (Seq TOKEN_ALT (Cls (N.eqb colon)))) s)
      as [|x xs] eqn:E.
    + left; simpl in H; destruct (rest s); [reflexivity|congruence].
    + right.
      assert (Hx : In x (m (Seq (Cls isSpace) (Seq TOKEN_ALT (Cls (N.eqb colon)))) s))
        by (rewrite E; now left).
      change (m (Seq ?a ?b) s) with (flat_map (m b) (m a s)) in Hx.
      apply in_flat_map in Hx as (s1 & H1 & H2).
      change (m (Seq ?a ?b) s1) with (flat_map (m b) (m a s1)) in H2.
      apply in_flat_map in H2 as (s2 & H2 & H3).
      apply TOKEN_ALT_in in H2 as (n & Hn & H2 & _).
      apply m_Cls_in in H1 as (c & t & Hs & Hc & ->).
      apply m_Cls_in in H3 as (d & u & Hd & Hcol & _).
      apply N.eqb_eq in Hcol as <-; simpl in H2.
      exists c, n, u; rewrite Hs, H2, Hd; auto.
  - intros [H|(c & n & u & Hc & Hn & H)] Hnil;
      apply app_eq_nil in Hnil as [H1 H2].
    + simpl in H2; rewrite H in H2; discriminate.
    + change (m (Seq ?a ?b) s) with (flat_map (m b) (m a s)) in H1.
      rewrite flat_map_nil_iff in H1.
      assert (Ha : In (advance c (js n ++ colon :: u) s) (m (Cls isSpace) s))
        by (apply m_Cls_in; eauto).
      specialize (H1 _ Ha).
      change (m (Seq ?a ?b) ?z) with (flat_map (m b) (m a z)) in H1.
      rewrite flat_map_nil_iff in H1.
      assert (Hin : In (MState (lastp (Some c) (js n)) (colon :: u) (caps s))
                       (m TOKEN_ALT (advance c (js n ++ colon :: u) s)))
        by (apply TOKEN_ALT_in; exists n; auto).
      specialize (H1 _ Hin).
      assert (Hc2 : In (advance colon u (MState (lastp (Some c) (js n)) (colon :: u) (caps s)))
                       (m (Cls (N.eqb colon))
                          (MState (lastp (Some c) (js n)) (colon :: u) (caps s)))).
      { apply m_Cls_in; exists colon, u; repeat split; apply N.eqb_refl. }
      rewrite H1 in Hc2; destruct Hc2.
Qed.

Lemma valueTailRe_caps (s x : mstate) :
  In x (m valueTailRe s) -> caps x = caps s.
Proof. apply no_group_caps; reflexivity. Qed.

(** After the value: the rest of the pattern succeeds exactly when the value
    may end there. *)
Lemma valueTailRe_spec (s : mstate) :
  m valueTailRe s <> [] <-> valueEnds (rest s).
Proof.
  unfold valueTailRe, valueEnds.
  change (m (Seq ?a ?b) s) with (flat_map (m b) (m a s)).
  split.
  - intros H.
    destruct (flat_map _ _) as [|x xs] eqn:E; [congruence|].
    assert (Hx : In x (flat_map (m (Look boundaryRe))
                         (m (Rep true 0 None isSpace) s))) by (rewrite E; now left).
    apply in_flat_map in Hx as (y & Hy & Hx).
    simpl in Hy; apply in_rev, reps_in in Hy as (w & H1 & H2 & _).
    exists w, (rest y); repeat split; auto.
    apply boundaryRe_spec; intros Hnil.
    apply <- m_Look_nil in Hnil; rewrite Hnil in Hx; destruct Hx.
  - intros (w & t & H1 & H2 & H3) Hnil.
    rewrite flat_map_nil_iff in Hnil.
    specialize (Hnil (MState (lastp (prev s) w) t (caps s))).
    assert (Hin : In (MState (lastp (prev s) w) t (caps s))
                     (m (Rep true 0 None isSpace) s)).
    { simpl; apply in_rev; rewrite rev_involutive; apply reps_in.
      exists w; auto. }
    specialize (Hnil Hin); apply -> m_Look_nil in Hnil.
    apply (proj2 (boundaryRe_spec (MState (lastp (prev s) w) t (caps s)))) in H3.
    contradiction.
Qed.

End TokenPattern.

Section TokenShape.

Lemma flat_map_map_comp {A B C : Type} (f : B -> list C) (g : A -> B) (l : list A) :
  flat_map f (map g l) = flat_map (fun z => f (g z)) l.
Proof. induction l as [|a l IH]; simpl; [reflexivity|now rewrite IH]. Qed.

Lemma flat_map_one {A B : Type} (f : A -> list B) (a : A) :
  flat_map f [a] = f a.
Proof. simpl; apply app_nil_r. Qed.

Lemma firstn_consumed {A : Type} (u t : list A) :
  firstn (length (u ++ t) - length t) (u ++ t) = u.
Proof.
  rewrite length_app, Nat.add_sub, firstn_app, Nat.sub_diag, firstn_all.
  simpl; apply app_nil_r.
Qed.

(** The shape of the first match of the token pattern at a position: the
    name and colon, white space, a value that starts with a non-space and
    stops at the first place where it may end. *)
Lemma token_match_shape (name : string) (s0 x : mstate) :
  hd_error (m (tokenRe name) s0) = Some x ->
  exists lead gap c body post,
    rest s0 = lead ++ js name ++ colon :: gap ++ (c :: body) ++ post
    /\ ((lead = [] /\ prev s0 = None) \/ (exists d, lead = [d] /\ isSpace d = true))
    /\ forallb isSpace gap = true
    /\ isSpace c = false
    /\ forallb isDot body = true
    /\ valueEnds post
    /\ (forall w1 w2, body = w1 ++ w2 -> w2 <> [] -> ~ valueEnds (w2 ++ post))
    /\ lookup 1 (caps x) = Some (c :: body).
Proof.
  unfold tokenRe; intros H.
  change (m (Seq ?a ?b) s0) with (flat_map (m b) (m a s0)) in H.
  apply hd_flat_map_in in H as (s1 & H1 & H).
  change (m (Seq ?a ?b) s1) with (flat_map (m b) (m a s1)) in H.
  apply hd_flat_map_in in H as (s2 & H2 & H).
  change (m (Seq ?a ?b) s2) with (flat_map (m b) (m a s2)) in H.
  apply hd_flat_map_in in H as (s3 & H3 & H).
  change (m (Seq ?a ?b) s3) with (flat_map (m b) (m a s3)) in H.
  apply hd_flat_map_in in H as (s4 & H4 & H).
  change (m (Seq ?a ?b) s4) with (flat_map (m b) (m a s4)) in H.
  apply m_Lit_in in H2 as [H2 E2].
  apply m_Cls_in in H3 as (k & u3 & H3 & Hk & E3).
  apply N.eqb_eq in Hk; subst k.
  simpl in H4; apply in_rev, reps_in in H4 as (gap & H4 & Hgap & E4).
  unfold valueRe in H.
  change (m (Grp 1 ?r) s4) with (map (set_cap 1 s4) (m r s4)) in H.
  change (m (Seq ?a ?b) s4) with (flat_map (m b) (m a s4)) in H.
  rewrite flat_map_map_comp in H.
  destruct (m (Cls notSpace) s4) as [|y ys] eqn:Ey; [discriminate|].
  assert (Hy : In y (m (Cls notSpace) s4)) by (rewrite Ey; now left).
  apply m_Cls_in in Hy as (c & t & Hs4 & Hc & ->).
  assert (ys = []) as ->.
  { simpl in Ey; rewrite Hs4, Hc in Ey; now injection Ey. }
  rewrite flat_map_one in H.
  change (m (Rep false 0 None isDot) (advance c t s4))
    with (reps isDot 0 None (Some c) t (caps s4)) in H.
  apply lazy_first in H as (body & post & Ht & Hbody & Hhd & Hmin).
  assert (Hcap : set_cap 1 s4 (MState (lastp (Some c) body) post (caps s4))
                 = MState (lastp (Some c) body) post ((1%nat, c :: body) :: caps s4)).
  { unfold set_cap, consumed; simpl; rewrite Hs4, Ht.
    change (c :: body ++ post) with ((c :: body) ++ post).
    now rewrite firstn_consumed. }
  rewrite Hcap in Hhd.
  exists (firstn (length (rest s0) - length (rest s1)) (rest s0)), gap, c, body, post.
  assert (Hlead : rest s0 = firstn (length (rest s0) - length (rest s1)) (rest s0) ++ rest s1
                  /\ ((firstn (length (rest s0) - length (rest s1)) (rest s0) = []
                       /\ prev s0 = None)
                      \/ exists d, firstn (length (rest s0) - length (rest s1)) (rest s0) = [d]
                                   /\ isSpace d = true)).
  { change (m (Alt ?a ?b) s0) with (m a s0 ++ m b s0) in H1.
    apply in_app_iff in H1 as [H1|H1].
    - simpl in H1; destruct (prev s0) eqn:Ep; [destruct H1|].
      destruct H1 as [<-|[]]; rewrite Nat.sub_diag; simpl; auto.
    - apply m_Cls_in in H1 as (d & u & Hd & Hsp & ->); simpl; rewrite Hd.
      change (d :: u) with ([d] ++ u); rewrite firstn_consumed; split; eauto. }
  destruct Hlead as [Hl0 Hl1].
  repeat split.
  - etransitivity; [exact Hl0|]; f_equal.
    assert (Hu : rest s3 = u3) by (rewrite E3; reflexivity).
    rewrite H2, H3, <- Hu, H4, Hs4, Ht; reflexivity.
  - exact Hl1.
  - exact Hgap.
  - unfold notSpace in Hc; now destruct (isSpace c).
  - exact Hbody.
  - apply (proj1 (valueTailRe_spec
               (MState (lastp (Some c) body) post ((1%nat, c :: body) :: caps s4)))).
    intros Hnil; rewrite Hnil in Hhd; discriminate.
  - intros w1 w2 Hw Hne Hends.
    specialize (Hmin w1 w2 Hw Hne).
    apply (proj2 (valueTailRe_spec
               (set_cap 1 s4 (MState (lastp (Some c) w1) (w2 ++ post) (caps s4))))) in Hends.
    contradiction.
  - apply hd_error_in, valueTailRe_caps in Hhd; rewrite Hhd; reflexivity.
Qed.

End TokenShape.

Section GetToken.

Lemma trimEnd_snoc (s : jsstring) (x : char) :
  isSpace x = false -> trimEnd (s ++ [x]) = s ++ [x].
Proof.
  intros H; unfold trimEnd; rewrite rev_app_distr; simpl; rewrite H; simpl.
  now rewrite rev_involutive.
Qed.

Lemma valueEnds_space (x : char) (post : jsstring) :
  isSpace x = true -> valueEnds post -> valueEnds (x :: post).
Proof.
  intros Hx (w & t & -> & Hw & Hb); exists (x :: w), t; simpl.
  rewrite Hx, Hw; auto.
Qed.

(** What [getToken] returns, in terms of the line. *)
Lemma getToken_shape (line : jsstring) (name : string) (v : jsstring) :
  getToken line name = Some v ->
  exists pre gap post,
    line = pre ++ js name ++ colon :: gap ++ v ++ post
    /\ (pre = [] \/ exists p d, pre = p ++ [d] /\ isSpace d = true)
    /\ forallb isSpace gap = true
    /\ (exists c body, v = c :: body /\ isSpace c = false
                       /\ forallb isDot body = true)
    /\ valueEnds post
    /\ (forall v1 v2, v = v1 ++ v2 -> v1 <> [] -> v2 <> [] ->
                      ~ valueEnds (v2 ++ post))
    /\ trim v = v.
Proof.
  unfold getToken, exec.
  destruct (search (tokenRe name) 0 None line) as [h|] eqn:E; [|discriminate].
  intros [= <-].
  apply search_Some in E as (pre0 & l' & Hline & _ & Hhd).
  apply token_match_shape in Hhd
    as (lead & gap & c & body & post & Hl & Hlead & Hgap & Hc & Hbody & Hends
        & Hmin & Hcap).
  simpl in Hl, Hlead.
  assert (Hg : groupText 1 h = c :: body)
    by (unfold groupText, group; now rewrite Hcap).
  assert (Htrim : trim (c :: body) = c :: body).
  { rewrite (trim_cons _ _ Hc); f_equal.
    destruct body as [|y body'] using rev_ind; [reflexivity|].
    destruct (isSpace y) eqn:Ey; [|now apply trimEnd_snoc].
    exfalso; apply (Hmin body' [y] eq_refl); [discriminate|].
    now apply valueEnds_space. }
  rewrite Hg, Htrim.
  exists (pre0 ++ lead), gap, post; repeat split.
  - rewrite Hline, Hl, <- app_assoc; reflexivity.
  - destruct Hlead as [[-> Hp]|(d & -> & Hd)].
    + apply lastp_None in Hp; subst pre0; now left.
    + right; eauto.
  - exact Hgap.
  - eauto.
  - exact Hends.
  - intros v1 v2 Hv H1 H2.
    destruct v1 as [|c1 w1]; [congruence|]; injection Hv as <- Hv.
    now apply (Hmin w1 v2).
  - exact Htrim.
Qed.

(** A token value is never blank, so [tidy] keeps it as it is. *)
Lemma tidy_getToken (line : jsstring) (name : string) :
  tidy (getToken line name) = getToken line name.
Proof.
  destruct (getToken line name) as [v|] eqn:E; [|reflexivity].
  apply getToken_shape in E
    as (pre & gap & post & _ & _ & _ & (c & body & -> & _) & _ & _ & Ht).
  simpl; now rewrite Ht.
Qed.

End GetToken.

(** ** Where the token pattern matches *)

Section TokenComplete.














End TokenComplete.

(** ** The stages of [parseCommitMessage] *)

Section Stages.

Lemma forEach_unique (line : jsstring) (names : list string) :
  forallb (fun n => (hits line n <=? 1)%nat) names = true ->
  forEach (onlyOne line) names = Ok tt.
Proof.
  induction names as [|n t IH]; simpl; [reflexivity|].
  intros H; apply andb_true_iff in H as [Hn Ht].
  unfold onlyOne at 1.
  apply Nat.leb_le in Hn.
  destruct (Nat.ltb_spec 1 (hits line n)); [lia|simpl; auto].
Qed.

(** The first name with two matches is the one reported. *)
Lemma forEach_duplicate (line : jsstring) (before after : list string) (n : string) :
  forallb (fun b => (hits line b <=? 1)%nat) before = true ->
  (1 < hits line n)%nat ->
  forEach (onlyOne line) (before ++ n :: after)
  = Throw (formatError ("only one " ++ n ++ " token is allowed.")).
Proof.
  intros Hb Hn; induction before as [|b t IH]; simpl.
  - unfold onlyOne.
    destruct (Nat.ltb_spec 1 (hits line n)); [reflexivity|lia].
  - simpl in Hb; apply andb_true_iff in Hb as [Hb Ht].
    unfold onlyOne at 1; apply Nat.leb_le in Hb.
    destruct (Nat.ltb_spec 1 (hits line b)); [lia|simpl; auto].
Qed.

(** Past the first checks, the result is assembled from the token values and
    the LOG section; nothing else can throw. *)
Lemma parse_after_checks (message : jsstring) :
  passesChecks message ->
  let line := sanitizeFirstLine message in
  exists keyMatch,
    exec issueKeyRe line = Some keyMatch /\
    parseCommitMessage message =
    ('(hours, date) <- logSection (getToken line "LOG") (getToken line "DATE") ;;
     Ok (Parsed (groupText 1 keyMatch) (groupText 1 keyMatch)
                (getToken line "STATUS") hours date
                (getToken line "COMMENT")
                (resolvePhase (getToken line "PHASE") (getToken line "CAT"))
                (parseReady (getToken line "READY"))
                line)).
Proof.
  intros (Hne & Hkey & Huniq); cbv zeta; unfold parseCommitMessage.
  destruct (trim message) as [|c t]; [congruence|].
  destruct (exec issueKeyRe (sanitizeFirstLine message)) as [k|]; [|congruence].
  exists k; split; [reflexivity|].
  rewrite (forEach_unique _ _ Huniq), !tidy_getToken; simpl.
  destruct (logSection _ _) as [[hours date]|e]; simpl; [|reflexivity].
  rewrite <- (tidy_getToken _ "STATUS"), statusGuard_tidy; simpl.
  now rewrite tidy_getToken.
Qed.

(** A successful parse went past the first checks. *)
Lemma parse_Ok_checks (message : jsstring) (r : parsed) :
  parseCommitMessage message = Ok r -> passesChecks message.
Proof.
  unfold parseCommitMessage, passesChecks.
  destruct (trim message) as [|c t]; [discriminate|].
  destruct (exec issueKeyRe _) as [k|]; [|discriminate].
  intros H; repeat split; try discriminate.
  unfold unique.
  destruct (forallb _ TOKEN_NAMES) eqn:E; [reflexivity|].
  exfalso; revert H.
  assert (Hf : forall names,
             forallb (fun n => (hits (sanitizeFirstLine message) n <=? 1)%nat) names = false ->
             exists e, forEach (onlyOne (sanitizeFirstLine message)) names = Throw e).
  { induction names as [|n u IH]; simpl; [discriminate|].
    unfold onlyOne at 1.
    destruct (Nat.leb_spec (hits (sanitizeFirstLine message) n) 1) as [Hle|Hgt].
    - destruct (Nat.ltb_spec 1 (hits (sanitizeFirstLine message) n)); [lia|].
      simpl; exact IH.
    - destruct (Nat.ltb_spec 1 (hits (sanitizeFirstLine message) n)); [|lia].
      intros _; eexists; reflexivity. }
  destruct (Hf _ E) as [e ->]; discriminate.
Qed.

(** The fields of a successful parse. *)
Lemma parse_Ok_fields (message : jsstring) (r : parsed) :
  parseCommitMessage message = Ok r ->
  let line := sanitizeFirstLine message in
  logSection (getToken line "LOG") (getToken line "DATE")
    = Ok (logHours r, logDate r)
  /\ status r = getToken line "STATUS"
  /\ comment r = getToken line "COMMENT"
  /\ phase r = resolvePhase (getToken line "PHASE") (getToken line "CAT")
  /\ ready r = parseReady (getToken line "READY")
  /\ firstLine r = line.
Proof.
  intros H; cbv zeta.
  destruct (parse_after_checks _ (parse_Ok_checks _ _ H)) as (k & _ & E).
  rewrite E in H.
  destruct (logSection _ _) as [[hours date]|e]; simpl in H; [|discriminate].
  injection H as <-; simpl; auto 10.
Qed.

End Stages.

(** ** The LOG section *)

Section LogSection.

Lemma indexOf_absent (c : char) (s : jsstring) :
  ~ In c s -> indexOf c s = None.
Proof.
  induction s as [|x t IH]; simpl; [reflexivity|].
  intros H; destruct (N.eqb_spec x c) as [->|_]; [exfalso; apply H; now left|].
  rewrite IH; [reflexivity|intros Hin; apply H; now right].
Qed.

Lemma indexOf_first (c : char) (t d : jsstring) :
  ~ In c t -> indexOf c (t ++ c :: d) = Some (length t).
Proof.
  induction t as [|x t IH]; simpl; intros H.
  - now rewrite N.eqb_refl.
  - destruct (N.eqb_spec x c) as [->|_]; [exfalso; apply H; now left|].
    rewrite IH; [reflexivity|intros Hin; apply H; now right].
Qed.

(** A LOG value with an [@]: the time before the first one, the trimmed date
    after it. *)
Lemma splitLog_at (t d : jsstring) :
  ~ In 64 t -> splitLog (t ++ 64 :: d) = (t, Some (trim d)).
Proof.
  intros H; unfold splitLog, sliceTo, sliceFrom.
  rewrite (indexOf_first _ _ _ H); clear H.
  induction t as [|x t IH]; simpl; [reflexivity|].
  injection IH as IH1 IH2; now rewrite IH1, IH2.
Qed.

Lemma splitLog_plain (raw : jsstring) :
  ~ In 64 raw -> splitLog raw = (raw, None).
Proof. intros H; unfold splitLog; now rewrite (indexOf_absent _ _ H). Qed.

(** With a valid duration and a date after the [@], only that date is
    checked; the DATE token plays no part. *)
Lemma logSection_inline (t d : jsstring) (hours : number) (dateToken : option jsstring) :
  ~ In 64 t ->
  parseLogTime t = Ok hours ->
  gt hours zero = true ->
  trim d <> [] ->
  logSection (Some (t ++ 64 :: d)) dateToken
  = (logDate <- checkDate (trim d) ;; Ok (Some hours, Some logDate)).
Proof.
  intros Hat Ht Hpos Hd; unfold logSection.
  assert (Htr : truthyText (Some (t ++ 64 :: d)) = Some (t ++ 64 :: d))
    by (destruct t; reflexivity).
  rewrite Htr, (splitLog_at _ _ Hat), Ht; simpl; rewrite Hpos; simpl.
  destruct (trim d); [congruence|reflexivity].
Qed.

(** Without a LOG value, the DATE token is checked and gives the date. *)
Lemma logSection_date_only (d : jsstring) :
  d <> [] ->
  logSection None (Some d)
  = (logDate <- checkDate d ;; Ok (None, Some logDate)).
Proof. intros H; unfold logSection; simpl; destruct d; [congruence|reflexivity]. Qed.

Lemma checkDate_cases (d : jsstring) :
  (test datePatternRe d = false ->
   checkDate d = Throw (formatError "date must be yyyy-mm-dd."))
  /\ (test datePatternRe d = true -> isValidISODate d = false ->
      checkDate d = Throw calendarError)
  /\ (test datePatternRe d = true -> isValidISODate d = true ->
      checkDate d = Ok d).
Proof.
  unfold checkDate; repeat split.
  - now intros ->.
  - now intros -> ->.
  - now intros -> ->.
Qed.

End LogSection.

(** ** The duration patterns *)

Section Durations.

(** What a bounded repetition over a class reaches. *)
Lemma reps_in_bounded (p : char -> bool) (l : jsstring) :
  forall lo hi pv cs x,
  In x (reps p lo hi pv l cs) <->
  exists w, l = w ++ rest x /\ forallb p w = true
            /\ (lo <= length w)%nat
            /\ (forall h, hi = Some h -> (length w <= h)%nat)
            /\ x = MState (lastp pv w) (rest x) cs.
Proof.
  induction l as [|c t IH]; intros lo hi pv cs x.
  - simpl; split.
    + intros H; apply in_app_iff in H as [H|H].
      * destruct lo; [|destruct H]. destruct H as [<-|[]].
        exists []; simpl; repeat split; auto; intros; lia.
      * destruct hi as [[|?]|]; destruct H.
    + intros (w & H & _ & Hlo & _ & ->).
      symmetry in H; apply app_eq_nil in H as [-> ->]; simpl in *.
      apply in_app_iff; left; destruct lo; [now left|lia].
  - simpl; rewrite in_app_iff; split.
    + intros [H|H].
      * destruct lo; [|destruct H]. destruct H as [<-|[]].
        exists []; simpl; repeat split; auto; intros; lia.
      * assert (Hhi : hi <> Some 0%nat) by (intros ->; destruct H).
        assert (H' : In x (if p c then reps p (Nat.pred lo) (option_map Nat.pred hi)
                                         (Some c) t cs else []))
          by (destruct hi as [[|?]|]; [destruct H|exact H|exact H]).
        destruct (p c) eqn:E; [|destruct H'].
        apply IH in H' as (w & H1 & H2 & H3 & H4 & H5).
        exists (c :: w); simpl; rewrite E, H2; repeat split.
        -- now f_equal.
        -- lia.
        -- intros h ->; specialize (H4 (Nat.pred h) eq_refl).
           destruct h; [congruence|simpl in H4; lia].
        -- exact H5.
    + intros (w & H1 & H2 & H3 & H4 & H5); destruct w as [|d w]; simpl in *.
      * left; destruct lo; [|lia]; left; rewrite H5; simpl; now rewrite <- H1.
      * right; injection H1 as <- H1; apply andb_true_iff in H2 as [Hc Hw].
        assert (Hr : In x (reps p (Nat.pred lo) (option_map Nat.pred hi) (Some c) t cs)).
        { apply IH; exists w; repeat split; auto; [lia|].
          intros h Hh; destruct hi as [h0|]; [|discriminate].
          injection Hh as <-; specialize (H4 h0 eq_refl); lia. }
        rewrite Hc; destruct hi as [[|h0]|]; auto.
        specialize (H4 0%nat eq_refl); lia.
Qed.

(** The matcher only moves forward. *)
Lemma m_suffix (r : regex) :
  forall s x, In x (m r s) -> exists w, rest s = w ++ rest x.
Proof.
  induction r as [|p|a IHa b IHb|a IHa b IHb|g lo hi p|r IHr|n r IHr|r IHr| | |];
    intros s x Hin.
  - destruct Hin as [<-|[]]; now exists [].
  - apply m_Cls_in in Hin as (c & t & H & _ & ->); exists [c]; exact H.
  - apply in_flat_map in Hin as (s1 & H1 & H2).
    destruct (IHa _ _ H1) as [w1 E1]; destruct (IHb _ _ H2) as [w2 E2].
    exists (w1 ++ w2); now rewrite E1, E2, app_assoc.
  - apply in_app_iff in Hin as [H|H]; eauto.
  - simpl in Hin.
    assert (H : In x (reps p lo hi (prev s) (rest s) (caps s)))
      by (destruct g; [now apply in_rev|exact Hin]).
    apply reps_in_bounded in H as (w & H & _); eauto.
  - apply in_app_iff in Hin as [H|[<-|[]]]; [eauto|now exists []].
  - simpl in Hin; apply in_map_iff in Hin as (y & <- & Hy); simpl; eauto.
  - simpl in Hin; destruct (m r s); [destruct Hin|].
    destruct Hin as [<-|[]]; now exists [].
  - simpl in Hin; destruct (prev s); [destruct Hin|].
    destruct Hin as [<-|[]]; now exists [].
  - simpl in Hin; destruct (rest s) eqn:E; [|destruct Hin].
    destruct Hin as [<-|[]]; exists []; now rewrite E.
  - simpl in Hin; destruct (xorb _ _); [|destruct Hin].
    destruct Hin as [<-|[]]; now exists [].
Qed.

(** A pattern anchored at the start matches at the start or not at all. *)
Lemma exec_anchored (r : regex) (s : jsstring) :
  exec (Seq Bol r) s
  = match m r (MState None s []) with
    | x :: _ => Some (Hit 0 x)
    | [] => None
    end.
Proof.
  assert (Hlater : forall l i c, search (Seq Bol r) i (Some c) l = None).
  { induction l as [|d t IH]; intros i c; simpl; [reflexivity|apply IH]. }
  unfold exec; destruct s as [|c t]; simpl; rewrite app_nil_r.
  - destruct (m r _); reflexivity.
  - destruct (m r _); [apply Hlater|reflexivity].
Qed.

Lemma set_cap_lookup (n : nat) (s y : mstate) (w : jsstring) :
  rest s = w ++ rest y ->
  rest (set_cap n s y) = rest y
  /\ lookup n (caps (set_cap n s y)) = Some w.
Proof.
  intros H; unfold set_cap, consumed; simpl; rewrite Nat.eqb_refl, H.
  now rewrite firstn_consumed.
Qed.

(** A group, one code unit of a class, the end: the group is all of the text
    but its last code unit. *)
Lemma group_then_last (body : regex) (p : char -> bool) (s x : mstate) :
  no_group body = true ->
  In x (m (Seq (Grp 1 body) (Seq (Cls p) Eol)) s) ->
  exists w c y,
    rest s = w ++ [c] /\ p c = true
    /\ In y (m body s) /\ rest y = [c]
    /\ lookup 1 (caps x) = Some w.
Proof.
  intros Hg Hin.
  change (m (Seq ?a ?b) s) with (flat_map (m b) (m a s)) in Hin.
  apply in_flat_map in Hin as (s1 & H1 & H2).
  change (m (Grp 1 body) s) with (map (set_cap 1 s) (m body s)) in H1.
  apply in_map_iff in H1 as (y & <- & Hy).
  destruct (m_suffix _ _ _ Hy) as [w Hw].
  destruct (set_cap_lookup 1 s y w Hw) as [Hr Hl].
  change (m (Seq ?a ?b) ?z) with (flat_map (m b) (m a z)) in H2.
  apply in_flat_map in H2 as (s2 & H2 & H3).
  apply m_Cls_in in H2 as (c & t & Hc & Hp & ->).
  simpl in H3; destruct t; [|destruct H3]; destruct H3 as [<-|[]].
  rewrite Hr in Hc.
  exists w, c, y; simpl; repeat split; auto.
  now rewrite Hw, Hc.
Qed.

End Durations.

Section DurationForms.

Lemma isDigit_range (c : char) : isDigit c = true -> 48 <= c <= 57.
Proof.
  unfold isDigit, in_range; intros H; apply andb_true_iff in H as [H1 H2].
  apply N.leb_le in H1, H2; lia.
Qed.

Ltac no_eq c :=
  repeat match goal with
         | |- context [N.eqb c ?k] =>
             replace (N.eqb c k) with false by (symmetry; apply N.eqb_neq; lia)
         end.

Lemma isDigit_not_space (c : char) : isDigit c = true -> isSpace c = false.
Proof.
  intros H; apply isDigit_range in H.
  unfold isSpace, isWhiteSpace, isLineTerminator, in_range; no_eq c.
  replace (8192 <=? c) with false by (symmetry; apply N.leb_gt; lia).
  reflexivity.
Qed.

Lemma isDigit_not_H (c : char) : isDigit c = true -> isH c = false.
Proof. intros H; apply isDigit_range in H; unfold isH; no_eq c; reflexivity. Qed.

Lemma isM_cases (c : char) : isM c = true -> c = 109 \/ c = 77.
Proof.
  unfold isM; intros H; apply orb_true_iff in H as [H|H]; apply N.eqb_eq in H; auto.
Qed.

Lemma isH_cases (c : char) : isH c = true -> c = 104 \/ c = 72.
Proof.
  unfold isH; intros H; apply orb_true_iff in H as [H|H]; apply N.eqb_eq in H; auto.
Qed.

Lemma takeDigits_all (ds r : jsstring) :
  forallb isDigit ds = true ->
  (match r with [] => True | c :: _ => isDigit c = false end) ->
  takeDigits (ds ++ r) = (ds, r).
Proof.
  intros Hd Hr; induction ds as [|d ds IH]; cbn [app takeDigits forallb] in *.
  - destruct r as [|c t]; [reflexivity|].
    cbn [takeDigits]; now rewrite Hr.
  - apply andb_true_iff in Hd as [H1 H2]; now rewrite H1, (IH H2).
Qed.

Lemma trimStart_digits (ds r : jsstring) :
  ds <> [] -> forallb isDigit ds = true -> trimStart (ds ++ r) = ds ++ r.
Proof.
  destruct ds as [|d ds]; [congruence|]; cbn [app trimStart forallb]; intros _ H.
  apply andb_true_iff in H as [H _]; now rewrite (isDigit_not_space _ H).
Qed.

(** [parseInt] of a run of digits is the Number for its value. *)
Lemma parseInt_digits (ds : jsstring) :
  ds <> [] -> forallb isDigit ds = true ->
  parseInt ds = ofZ (digitsVal ds).
Proof.
  intros Hne Hd; unfold parseInt.
  pose proof (trimStart_digits ds [] Hne Hd) as E1.
  pose proof (takeDigits_all ds [] Hd I) as E2.
  rewrite app_nil_r in E1, E2; rewrite E1, E2; simpl.
  destruct ds; [congruence|reflexivity].
Qed.

(** [parseFloat] of digits is the Number for their value. *)
Lemma parseFloat_digits (ds : jsstring) :
  ds <> [] -> forallb isDigit ds = true ->
  parseFloat ds = ofRatio (digitsVal ds) 1.
Proof.
  intros Hne Hd; unfold parseFloat.
  pose proof (trimStart_digits ds [] Hne Hd) as E1.
  pose proof (takeDigits_all ds [] Hd I) as E2.
  rewrite app_nil_r in E1, E2; rewrite E1, E2; simpl.
  rewrite app_nil_r; destruct ds; [congruence|reflexivity].
Qed.

(** [parseFloat] of digits, a point and digits is the Number nearest to the
    decimal fraction. *)
Lemma parseFloat_decimal (ds fs : jsstring) :
  ds <> [] -> forallb isDigit ds = true -> forallb isDigit fs = true ->
  parseFloat (ds ++ 46 :: fs)
  = ofRatio (digitsVal (ds ++ fs)) (10 ^ Z.of_nat (length fs)).
Proof.
  intros Hne Hd Hf; unfold parseFloat.
  rewrite (trimStart_digits _ _ Hne Hd), (takeDigits_all ds (46 :: fs) Hd)
    by reflexivity.
  rewrite N.eqb_refl.
  pose proof (takeDigits_all fs [] Hf I) as E2.
  rewrite app_nil_r in E2; rewrite E2; simpl fst.
  destruct ds; [congruence|reflexivity].
Qed.

End DurationForms.

Section DurationMatches.

Lemma nonempty_in {A : Type} (l : list A) (x : A) : In x l -> l <> [].
Proof. intros H ->; destruct H. Qed.

Lemma group_then_last_nonempty (body : regex) (p : char -> bool)
      (s y : mstate) (c : char) :
  In y (m body s) -> rest y = [c] -> p c = true ->
  m (Seq (Grp 1 body) (Seq (Cls p) Eol)) s <> [].
Proof.
  intros Hy Hr Hp.
  apply (nonempty_in _ (advance c [] (set_cap 1 s y))).
  change (m (Seq ?a ?b) s) with (flat_map (m b) (m a s)).
  apply in_flat_map; exists (set_cap 1 s y); split.
  - change (m (Grp 1 body) s) with (map (set_cap 1 s) (m body s)).
    now apply in_map.
  - change (m (Seq ?a ?b) ?z) with (flat_map (m b) (m a z)).
    apply in_flat_map; exists (advance c [] (set_cap 1 s y)); split.
    + apply m_Cls_in; exists c, []; auto.
    + simpl; now left.
Qed.

(** An anchored pattern "group, one code unit of a class, end" on a text
    that the group's body can read up to its last code unit. *)
Lemma exec_group_then_last (body : regex) (p : char -> bool)
      (t : jsstring) (c : char) :
  no_group body = true -> p c = true ->
  (exists y, In y (m body (MState None (t ++ [c]) [])) /\ rest y = [c]) ->
  exists h,
    exec (Seq Bol (Seq (Grp 1 body) (Seq (Cls p) Eol))) (t ++ [c]) = Some h
    /\ groupText 1 h = t.
Proof.
  intros Hg Hp (y & Hy & Hr); rewrite exec_anchored.
  pose proof (group_then_last_nonempty body p _ y c Hy Hr Hp) as Hne.
  destruct (m (Seq (Grp 1 body) (Seq (Cls p) Eol)) _) as [|x xs] eqn:E;
    [congruence|].
  exists (Hit 0 x); split; [reflexivity|].
  assert (Hx : In x (m (Seq (Grp 1 body) (Seq (Cls p) Eol))
                       (MState None (t ++ [c]) []))) by (rewrite E; now left).
  apply (group_then_last _ _ _ _ Hg) in Hx as (w & c' & _ & Hw & _ & _ & _ & Hl).
  simpl in Hw; apply app_inj_tail in Hw as [-> _].
  unfold groupText, group; simpl; now rewrite Hl.
Qed.

(** The same pattern fails on a text that does not end in the class. *)
Lemma exec_group_then_last_none (body : regex) (p : char -> bool) (s : jsstring) :
  no_group body = true ->
  (forall w c, s = w ++ [c] -> p c = false) ->
  exec (Seq Bol (Seq (Grp 1 body) (Seq (Cls p) Eol))) s = None.
Proof.
  intros Hg Hlast; rewrite exec_anchored.
  destruct (m (Seq (Grp 1 body) (Seq (Cls p) Eol)) _) as [|x xs] eqn:E;
    [reflexivity|].
  assert (Hx : In x (m (Seq (Grp 1 body) (Seq (Cls p) Eol))
                       (MState None s []))) by (rewrite E; now left).
  apply (group_then_last _ _ _ _ Hg) in Hx as (w & c & _ & Hw & Hp & _).
  simpl in Hw; rewrite (Hlast _ _ Hw) in Hp; discriminate.
Qed.

(** [\d+] can read a run of digits. *)
Lemma digits_rep (ds r : jsstring) (pv : option char) (cs : list (nat * jsstring))
      (hi : option nat) :
  ds <> [] -> forallb isDigit ds = true ->
  (forall h, hi = Some h -> (length ds <= h)%nat) ->
  In (MState (lastp pv ds) r cs)
     (m (Rep true 1 hi isDigit) (MState pv (ds ++ r) cs)).
Proof.
  intros Hne Hd Hhi; simpl; apply in_rev; rewrite rev_involutive.
  apply reps_in_bounded; exists ds; simpl; repeat split; auto.
  destruct ds; [congruence|simpl; lia].
Qed.

Lemma last_digit (ms w : jsstring) (c : char) :
  ms <> [] -> forallb isDigit ms = true ->
  forall hs, hs ++ ms = w ++ [c] -> isDigit c = true.
Proof.
  intros Hne Hd hs H.
  destruct ms as [|x ms'] using rev_ind; [congruence|].
  rewrite app_assoc in H; apply app_inj_tail in H as [_ <-].
  rewrite forallb_app in Hd; apply andb_true_iff in Hd as [_ Hx].
  simpl in Hx; now destruct (isDigit x).
Qed.

End DurationMatches.

Section HourMinute.

Lemma rep_digits_in (lo : nat) (hi : option nat) (s y : mstate) :
  In y (m (Rep true lo hi isDigit) s) ->
  exists w, rest s = w ++ rest y /\ forallb isDigit w = true
            /\ (lo <= length w)%nat
            /\ (forall h, hi = Some h -> (length w <= h)%nat)
            /\ caps y = caps s.
Proof.
  simpl; intros H; apply in_rev, reps_in_bounded in H
    as (w & H1 & H2 & H3 & H4 & H5).
  exists w; repeat split; auto; rewrite H5; reflexivity.
Qed.

(** What the pattern of [h:mm] matches. *)
Lemma hourMinute_shape (s x : mstate) :
  In x (m (Seq (Grp 1 (Rep true 1 None isDigit))
          (Seq (Cls (N.eqb colon))
          (Seq (Grp 2 (Rep true 1 (Some 2%nat) isDigit)) Eol))) s) ->
  exists w1 w2,
    rest s = w1 ++ colon :: w2
    /\ forallb isDigit w1 = true /\ forallb isDigit w2 = true
    /\ w2 <> []
    /\ lookup 1 (caps x) = Some w1 /\ lookup 2 (caps x) = Some w2.
Proof.
  intros Hin.
  change (m (Seq ?a ?b) s) with (flat_map (m b) (m a s)) in Hin.
  apply in_flat_map in Hin as (s1 & H1 & Hin).
  change (m (Grp 1 ?r) s) with (map (set_cap 1 s) (m r s)) in H1.
  apply in_map_iff in H1 as (y1 & <- & Hy1).
  apply rep_digits_in in Hy1 as (w1 & Hw1 & Hd1 & _ & _ & Hc1).
  destruct (set_cap_lookup 1 s y1 w1 Hw1) as [Hr1 Hl1].
  change (m (Seq ?a ?b) ?z) with (flat_map (m b) (m a z)) in Hin.
  apply in_flat_map in Hin as (s2 & H2 & Hin).
  apply m_Cls_in in H2 as (c & t & Hc & Hcol & ->).
  apply N.eqb_eq in Hcol; subst c.
  change (m (Seq ?a ?b) ?z) with (flat_map (m b) (m a z)) in Hin.
  apply in_flat_map in Hin as (s3 & H3 & Hin).
  change (m (Grp 2 ?r) ?z) with (map (set_cap 2 z) (m r z)) in H3.
  apply in_map_iff in H3 as (y2 & <- & Hy2).
  apply rep_digits_in in Hy2 as (w2 & Hw2 & Hd2 & Hlen & _ & Hc2).
  destruct (set_cap_lookup 2 _ y2 w2 Hw2) as [Hr2 Hl2].
  simpl in Hin.
  destruct (rest y2) eqn:E2; [|destruct Hin].
  destruct Hin as [<-|[]].
  simpl in Hw2; rewrite app_nil_r in Hw2; subst t.
  exists w1, w2; repeat split; auto.
  - rewrite Hw1, <- Hr1, Hc; reflexivity.
  - intros ->; simpl in Hlen; lia.
  - unfold set_cap at 1; cbn [caps lookup Nat.eqb]; rewrite Hc2; exact Hl1.
Qed.

Lemma hourMinute_nonempty (hs ms : jsstring) :
  hs <> [] -> forallb isDigit hs = true ->
  ms <> [] -> forallb isDigit ms = true -> (length ms <= 2)%nat ->
  m (Seq (Grp 1 (Rep true 1 None isDigit))
    (Seq (Cls (N.eqb colon))
    (Seq (Grp 2 (Rep true 1 (Some 2%nat) isDigit)) Eol)))
    (MState None (hs ++ colon :: ms) []) <> [].
Proof.
  intros Hh Hdh Hm Hdm Hlen.
  set (s0 := MState None (hs ++ colon :: ms) []).
  set (y1 := MState (lastp None hs) (colon :: ms) []).
  set (s2 := advance colon ms (set_cap 1 s0 y1)).
  set (y2 := MState (lastp (Some colon) ms) [] (caps s2)).
  apply (nonempty_in _ (set_cap 2 s2 y2)).
  change (m (Seq ?a ?b) s0) with (flat_map (m b) (m a s0)).
  apply in_flat_map; exists (set_cap 1 s0 y1); split.
  { change (m (Grp 1 ?r) s0) with (map (set_cap 1 s0) (m r s0)).
    apply in_map; apply digits_rep; auto; discriminate. }
  change (m (Seq ?a ?b) ?z) with (flat_map (m b) (m a z)).
  apply in_flat_map; exists s2; split.
  { apply m_Cls_in; exists colon, ms; repeat split; apply N.eqb_refl. }
  change (m (Seq ?a ?b) ?z) with (flat_map (m b) (m a z)).
  apply in_flat_map; exists (set_cap 2 s2 y2); split.
  { change (m (Grp 2 ?r) s2) with (map (set_cap 2 s2) (m r s2)).
    apply in_map.
    pose proof (digits_rep ms [] (Some colon) (caps s2) (Some 2%nat) Hm Hdm) as H.
    rewrite app_nil_r in H; apply H; intros h [= <-]; exact Hlen. }
  simpl; now left.
Qed.

Lemma split_at_colon (w1 w2 hs ms : jsstring) :
  forallb isDigit w1 = true -> forallb isDigit hs = true ->
  hs ++ colon :: ms = w1 ++ colon :: w2 -> w1 = hs /\ w2 = ms.
Proof.
  revert hs; induction w1 as [|a w1 IH]; intros hs Hw Hh H.
  - destruct hs as [|b hs]; simpl in H; [now injection H|].
    injection H as -> _; simpl in Hh; discriminate.
  - destruct hs as [|b hs]; simpl in H.
    + injection H as <- _; simpl in Hw; discriminate.
    + injection H as -> H; simpl in Hw, Hh.
      apply andb_true_iff in Hw as [_ Hw]; apply andb_true_iff in Hh as [_ Hh].
      destruct (IH hs Hw Hh H) as [-> ->]; auto.
Qed.

(** The pattern of [h:mm] on digits, a colon and one or two digits. *)
Lemma exec_hourMinute (hs ms : jsstring) :
  hs <> [] -> forallb isDigit hs = true ->
  ms <> [] -> forallb isDigit ms = true -> (length ms <= 2)%nat ->
  exists h, exec hourMinuteRe (hs ++ colon :: ms) = Some h
            /\ groupText 1 h = hs /\ groupText 2 h = ms.
Proof.
  intros Hh Hdh Hm Hdm Hlen; unfold hourMinuteRe; rewrite exec_anchored.
  pose proof (hourMinute_nonempty hs ms Hh Hdh Hm Hdm Hlen) as Hne.
  destruct (m _ _) as [|x xs] eqn:E; [congruence|].
  exists (Hit 0 x); split; [reflexivity|].
  assert (Hx : In x (x :: xs)) by now left.
  rewrite <- E in Hx; apply hourMinute_shape in Hx
    as (w1 & w2 & Hs & Hd1 & Hd2 & _ & Hl1 & Hl2).
  simpl in Hs; destruct (split_at_colon _ _ _ _ Hd1 Hdh Hs) as [-> ->].
  unfold groupText, group; simpl; now rewrite Hl1, Hl2.
Qed.

(** The pattern of [h:mm] fails on a text that does not end in a digit. *)
Lemma exec_hourMinute_none (s : jsstring) :
  (forall w c, s = w ++ [c] -> isDigit c = false) ->
  exec hourMinuteRe s = None.
Proof.
  intros Hlast; unfold hourMinuteRe; rewrite exec_anchored.
  destruct (m _ _) as [|x xs] eqn:E; [reflexivity|].
  assert (Hx : In x (x :: xs)) by now left.
  rewrite <- E in Hx; apply hourMinute_shape in Hx
    as (w1 & w2 & Hs & _ & Hd2 & Hne & _).
  simpl in Hs.
  destruct w2 as [|d w2'] using rev_ind; [congruence|].
  rewrite forallb_app in Hd2; apply andb_true_iff in Hd2 as [_ Hd].
  simpl in Hd; rewrite (Hlast (w1 ++ colon :: w2') d) in Hd; [discriminate|].
  now rewrite Hs, <- app_assoc.
Qed.

End HourMinute.

Section DurationValues.

Lemma exec_hours_int (ds : jsstring) (c : char) :
  ds <> [] -> forallb isDigit ds = true -> isH c = true ->
  exists h, exec hoursRe (ds ++ [c]) = Some h /\ groupText 1 h = ds.
Proof.
  intros Hne Hd Hc; unfold hoursRe.
  apply exec_group_then_last; [reflexivity|exact Hc|].
  exists (MState (lastp None ds) [c] []); split; [|reflexivity].
  change (m (Seq ?a ?b) ?z) with (flat_map (m b) (m a z)).
  apply in_flat_map; exists (MState (lastp None ds) [c] []); split.
  - apply digits_rep; auto; discriminate.
  - change (m (Opt ?r) ?z) with (m r z ++ [z]).
    apply in_app_iff; right; now left.
Qed.

Lemma exec_hours_decimal (ds fs : jsstring) (c : char) :
  ds <> [] -> forallb isDigit ds = true ->
  fs <> [] -> forallb isDigit fs = true -> isH c = true ->
  exists h, exec hoursRe ((ds ++ 46 :: fs) ++ [c]) = Some h
            /\ groupText 1 h = ds ++ 46 :: fs.
Proof.
  intros Hne Hd Hnf Hf Hc; unfold hoursRe.
  apply exec_group_then_last; [reflexivity|exact Hc|].
  exists (MState (lastp (Some 46) fs) [c] []); split; [|reflexivity].
  change (m (Seq ?a ?b) ?z) with (flat_map (m b) (m a z)).
  apply in_flat_map; exists (MState (lastp None ds) (46 :: fs ++ [c]) []); split.
  - rewrite <- app_assoc; simpl app.
    apply digits_rep; auto; discriminate.
  - change (m (Opt ?r) ?z) with (m r z ++ [z]).
    apply in_app_iff; left.
    change (m (Seq ?a ?b) ?z) with (flat_map (m b) (m a z)).
    apply in_flat_map.
    exists (advance 46 (fs ++ [c]) (MState (lastp None ds) (46 :: fs ++ [c]) [])).
    split.
    + apply m_Cls_in; exists 46, (fs ++ [c]); auto.
    + apply (digits_rep fs [c] (Some 46) [] None); auto; discriminate.
Qed.

Lemma digitVal_range (c : char) :
  isDigit c = true -> (0 <= digitVal c <= 9)%Z.
Proof. intros H; apply isDigit_range in H; unfold digitVal; lia. Qed.

Lemma minutes_below_100 (ms : jsstring) :
  forallb isDigit ms = true -> (length ms <= 2)%nat ->
  (0 <= digitsVal ms < 100)%Z.
Proof.
  intros Hd Hlen.
  destruct ms as [|a [|b [|x ms]]]; simpl in Hlen; try lia.
  - unfold digitsVal; simpl; lia.
  - cbn [forallb] in Hd; apply andb_true_iff in Hd as [Ha _].
    apply digitVal_range in Ha; unfold digitsVal; cbn [fold_left]; lia.
  - cbn [forallb] in Hd; apply andb_true_iff in Hd as [Ha Hd].
    apply andb_true_iff in Hd as [Hb _].
    apply digitVal_range in Ha, Hb; unfold digitsVal; cbn [fold_left]; lia.
Qed.

(** On whole minutes below 100, [mins >= 60] on Numbers is the comparison of
    the integers. *)
Lemma sixty_leb (n : Z) :
  (0 <= n < 100)%Z -> SFleb sixty (ofZ n) = (60 <=? n)%Z.
Proof.
  intros Hn.
  assert (Hall : forallb (fun k => Bool.eqb (SFleb sixty (ofZ (Z.of_nat k)))
                                            (60 <=? Z.of_nat k)%Z)
                         (seq 0 100) = true) by (vm_compute; reflexivity).
  rewrite forallb_forall in Hall.
  specialize (Hall (Z.to_nat n)); rewrite Z2Nat.id in Hall by lia.
  apply eqb_prop, Hall, in_seq; lia.
Qed.

End DurationValues.

(** ** The repeated search of [matchAll] always comes to an end *)

Section MatchAllFuel.

Lemma search_rest (r : regex) (l : jsstring) (i : nat) (pv : option char) (h : hit) :
  search r i pv l = Some h ->
  exists w, skipn (h_start h - i) l = w ++ rest (h_end h)
            /\ (length (skipn (h_start h - i) l) <= length l)%nat.
Proof.
  intros H; apply search_Some in H as (pre & l' & -> & Hs & Hhd).
  apply hd_error_in, m_suffix in Hhd as [w Hw]; simpl in Hw.
  replace (h_start h - i)%nat with (length pre) by lia.
  rewrite skipn_app, skipn_all, Nat.sub_diag; simpl.
  exists w; split; [exact Hw|rewrite length_app; lia].
Qed.

(** More fuel than the text is long changes nothing: every round of the
    search leaves less text. *)
Lemma matchAllFrom_fuel (r : regex) :
  forall fuel fuel' i pv l,
    (length l < fuel)%nat -> (length l < fuel')%nat ->
    matchAllFrom fuel r i pv l = matchAllFrom fuel' r i pv l.
Proof.
  induction fuel as [|fuel IH]; intros fuel' i pv l H1 H2; [lia|].
  destruct fuel' as [|fuel']; [lia|]; simpl.
  destruct (search r i pv l) as [h|] eqn:E; [|reflexivity].
  f_equal.
  destruct (search_rest _ _ _ _ _ E) as (w & Hw & Hlen).
  rewrite Hw in Hlen |- *; rewrite length_app in Hlen |- *.
  destruct (length w + length (rest (h_end h)) - length (rest (h_end h)))%nat
    eqn:En.
  - destruct (rest (h_end h)) as [|c t] eqn:Er; [reflexivity|].
    simpl in Hlen; apply IH; lia.
  - apply IH; lia.
Qed.

(** [matchAll] is the search with any fuel beyond the length of the text. *)
Lemma matchAll_fuel (r : regex) (s : jsstring) (fuel : nat) :
  (length s < fuel)%nat -> matchAll r s = matchAllFrom fuel r 0 None s.
Proof. intros H; unfold matchAll; apply matchAllFrom_fuel; lia. Qed.

End MatchAllFuel.

(** ** The calendar *)

Section Calendar.

Lemma yearDown_spec (fuel : nat) :
  forall y t,
    (t < JSDate.TimeFromYear (y + 1))%Z ->
    (JSDate.TimeFromYear (y - Z.of_nat fuel + 1) <= t)%Z ->
    (JSDate.TimeFromYear (JSDate.yearDown fuel y t) <= t
     < JSDate.TimeFromYear (JSDate.yearDown fuel y t + 1))%Z.
Proof.
  induction fuel as [|f IH]; intros y t Hhi Hlo.
  - simpl in Hlo; replace (y - 0 + 1)%Z with (y + 1)%Z in Hlo by lia; lia.
  - cbn [JSDate.yearDown].
    destruct (Z.leb_spec (JSDate.TimeFromYear y) t) as [Hle|Hgt]; [lia|].
    apply IH.
    + replace (y - 1 + 1)%Z with y by lia; exact Hgt.
    + replace (y - 1 - Z.of_nat f + 1)%Z with (y - Z.of_nat (S f) + 1)%Z by lia.
      exact Hlo.
Qed.

(** [YearFromTime t] is the year that contains [t]: the search starts high
    enough and is given enough steps. *)
Lemma YearFromTime_spec (t : Z) :
  (JSDate.TimeFromYear (JSDate.YearFromTime t) <= t
   < JSDate.TimeFromYear (JSDate.YearFromTime t + 1))%Z.
Proof.
  unfold JSDate.YearFromTime.
  set (d := JSDate.Day t).
  assert (Hd : (JSDate.msPerDay * d <= t < JSDate.msPerDay * (d + 1))%Z).
  { unfold d, JSDate.Day, JSDate.msPerDay.
    pose proof (Z.div_mod t 86400000 ltac:(lia)).
    pose proof (Z.mod_pos_bound t 86400000 ltac:(lia)); lia. }
  clearbody d.
  apply yearDown_spec; unfold JSDate.TimeFromYear.
  - assert (d < JSDate.DayFromYear
                  ((if (0 <=? d)%Z then 1970 + d / 365 + 1 else 1970 + d / 366 + 1)
                   + 1))%Z.
    { unfold JSDate.DayFromYear; destruct (Z.leb_spec 0 d); cbv iota;
        clear Hd; Z.div_mod_to_equations; lia. }
    unfold JSDate.msPerDay in *; nia.
  - assert (JSDate.DayFromYear
              ((if (0 <=? d)%Z then 1970 + d / 365 + 1 else 1970 + d / 366 + 1)
               - Z.of_nat (Z.to_nat (Z.abs d / 100000) + 3) + 1) <= d)%Z.
    { rewrite Nat2Z.inj_add, Z2Nat.id by (apply Z.div_pos; lia).
      unfold JSDate.DayFromYear; destruct (Z.leb_spec 0 d); cbv iota.
      - rewrite Z.abs_eq by lia; clear Hd; Z.div_mod_to_equations; lia.
      - rewrite Z.abs_neq by lia; clear Hd; Z.div_mod_to_equations; lia. }
    unfold JSDate.msPerDay in *; nia.
Qed.

(** Dates the code accepts and dates it rejects; years below 100 are among
    the latter, since [Date.UTC] reads them as 1900 to 1999. *)
Lemma isValidISODate_examples :
  map (fun d => isValidISODate (js d))
      ["2025-10-13"; "2024-02-29"; "2000-02-29"; "9999-12-31"; "0100-01-01";
       "2025-02-30"; "2023-02-29"; "1900-02-29"; "2025-00-10"; "2025-13-01";
       "2025-04-31"; "2025-01-00"; "0099-01-01"; "2025-1-01"; "2025/01/01"]%string
  = [true; true; true; true; true;
     false; false; false; false; false;
     false; false; false; false; false].
Proof. vm_compute; reflexivity. Qed.

End Calendar.

(** ** Further facts used by the claims *)

Section ClaimHelpers.

Lemma getToken_nonempty (line : jsstring) (name : string) (v : jsstring) :
  getToken line name = Some v -> v <> [].
Proof.
  intros H; apply getToken_shape in H
    as (pre & gap & post & _ & _ & _ & (c & body & -> & _) & _).
  discriminate.
Qed.

Lemma truthyText_getToken (line : jsstring) (name : string) :
  truthyText (getToken line name) = getToken line name.
Proof.
  destruct (getToken line name) as [v|] eqn:E; [|reflexivity].
  apply getToken_nonempty in E; destruct v; [congruence|reflexivity].
Qed.

Lemma logSection_ignores_date (t d : jsstring) (dateToken dateToken' : option jsstring) :
  ~ In 64 t -> trim d <> [] ->
  logSection (Some (t ++ 64 :: d)) dateToken
  = logSection (Some (t ++ 64 :: d)) dateToken'.
Proof.
  intros Hat Hd; unfold logSection.
  assert (Htr : truthyText (Some (t ++ 64 :: d)) = Some (t ++ 64 :: d))
    by (destruct t; reflexivity).
  rewrite Htr, (splitLog_at _ _ Hat).
  destruct (parseLogTime t) as [h|e]; simpl; [|reflexivity].
  destruct (negb (gt h zero)); simpl; [reflexivity|].
  destruct (trim d); [congruence|reflexivity].
Qed.

(** After the first checks, an error can only come from the LOG section:
    STATUS, COMMENT, PHASE, CAT and READY never raise one. *)
Lemma parse_Throw_from_log (message : jsstring) (e : string) :
  passesChecks message ->
  parseCommitMessage message = Throw e ->
  logSection (getToken (sanitizeFirstLine message) "LOG")
             (getToken (sanitizeFirstLine message) "DATE") = Throw e.
Proof.
  intros Hchk H; destruct (parse_after_checks _ Hchk) as (k & _ & E).
  rewrite E in H.
  destruct (logSection _ _) as [[h d]|e']; simpl in H; [discriminate|].
  now injection H as ->.
Qed.

Lemma includes_In (l : list jsstring) (s : jsstring) :
  includes l s = true <-> In s l.
Proof.
  unfold includes; rewrite existsb_exists; split.
  - intros (x & Hx & E); unfold JSString.eqb in E.
    destruct (list_eq_dec N.eq_dec s x) as [->|]; [exact Hx|discriminate].
  - intros H; exists s; split; [exact H|].
    unfold JSString.eqb; destruct (list_eq_dec N.eq_dec s s); congruence.
Qed.

(** What [parseReady] makes of a value. *)
Lemma parseReady_cases (v : jsstring) :
  (In (toLowerCase (trim v)) truthy -> parseReady (Some v) = Some true)
  /\ (In (toLowerCase (trim v)) falsy -> parseReady (Some v) = Some false)
  /\ (~ In (toLowerCase (trim v)) truthy -> ~ In (toLowerCase (trim v)) falsy ->
      parseReady (Some v) = None).
Proof.
  unfold parseReady; repeat split.
  - intros H; apply includes_In in H; now rewrite H.
  - intros H.
    assert (Ht : includes truthy (toLowerCase (trim v)) = false).
    { destruct H as [<-|[<-|[<-|[<-|[]]]]]; reflexivity. }
    apply includes_In in H; now rewrite Ht, H.
  - intros H1 H2.
    destruct (includes truthy _) eqn:E1; [apply includes_In in E1; contradiction|].
    destruct (includes falsy _) eqn:E2; [apply includes_In in E2; contradiction|].
    reflexivity.
Qed.

Lemma insertions_In {A : Type} (a : A) (p1 p2 : list A) :
  In (p1 ++ a :: p2) (insertions a (p1 ++ p2)).
Proof.
  induction p1 as [|x p1 IH]; simpl.
  - destruct p2; now left.
  - right; apply in_map, IH.
Qed.

(** Every order of a list is listed by [permutations]. *)
Lemma permutations_complete {A : Type} (l : list A) :
  forall p, Permutation l p -> In p (permutations l).
Proof.
  induction l as [|a l IH]; intros p Hp; simpl.
  - apply Permutation_nil in Hp; subst; now left.
  - assert (Hin : In a p) by (eapply Permutation_in; [exact Hp|now left]).
    apply in_split in Hin as (p1 & p2 & ->).
    apply Permutation_cons_app_inv in Hp.
    apply in_flat_map; exists (p1 ++ p2); split; [now apply IH|].
    apply insertions_In.
Qed.

End ClaimHelpers.

(** ** The days of the calendar *)

Section CalendarArith.
Local Open Scope Z_scope.

Lemma DaysInYear_leap (y : Z) :
  JSDate.DaysInYear y = if isLeap y then 366 else 365.
Proof.
  unfold JSDate.DaysInYear, isLeap.
  destruct (y mod 4 =? 0) eqn:E4, (y mod 100 =? 0) eqn:E100,
           (y mod 400 =? 0) eqn:E400; simpl; try reflexivity.
  all: exfalso;
    repeat match goal with
           | H : (_ =? _) = true |- _ => apply Z.eqb_eq in H
           | H : (_ =? _) = false |- _ => apply Z.eqb_neq in H
           end;
    revert E4 E100 E400; Z.div_mod_to_equations; lia.
Qed.

Lemma div_step (y a k : Z) :
  0 < k -> (a - 1) mod k = 0 ->
  (y + 1 - a) / k = (y - a) / k + (if y mod k =? 0 then 1 else 0).
Proof.
  intros Hk Ha.
  apply Z.mod_divide in Ha; [|lia]; destruct Ha as [p Hp].
  destruct (Z.eqb_spec (y mod k) 0) as [H|H].
  - apply Z.mod_divide in H; [|lia]; destruct H as [q ->].
    replace (q * k + 1 - a) with ((q - p) * k + 0) by nia.
    replace (q * k - a) with ((q - p - 1) * k + (k - 1)) by nia.
    rewrite !Z.div_add_l by lia.
    rewrite Z.div_0_l by lia.
    rewrite (Z.div_small (k - 1)) by lia; lia.
  - pose proof (Z.div_mod y k ltac:(lia)) as Hy.
    pose proof (Z.mod_pos_bound y k Hk) as Hb.
    replace (y + 1 - a) with ((y / k - p) * k + (y mod k)) by nia.
    replace (y - a) with ((y / k - p) * k + (y mod k - 1)) by nia.
    rewrite !Z.div_add_l by lia.
    rewrite (Z.div_small (y mod k)), (Z.div_small (y mod k - 1)) by lia; lia.
Qed.

Lemma DayFromYear_succ (y : Z) :
  JSDate.DayFromYear (y + 1) = JSDate.DayFromYear y + JSDate.DaysInYear y.
Proof.
  unfold JSDate.DayFromYear.
  rewrite (div_step y 1969 4), (div_step y 1901 100), (div_step y 1601 400)
    by (reflexivity || lia).
  rewrite DaysInYear_leap; unfold isLeap.
  destruct (Z.eqb_spec (y mod 4) 0) as [H4|H4],
           (Z.eqb_spec (y mod 100) 0) as [H1|H1],
           (Z.eqb_spec (y mod 400) 0) as [H0|H0]; cbv [andb orb negb]; try lia;
    exfalso; revert H4 H1 H0; clear; intros; Z.div_mod_to_equations; lia.
Qed.

Lemma DayFromYear_lt (a b : Z) :
  a < b -> JSDate.DayFromYear a < JSDate.DayFromYear b.
Proof.
  unfold JSDate.DayFromYear; intros H; Z.div_mod_to_equations; lia.
Qed.

Lemma YearFromTime_unique (y t : Z) :
  JSDate.TimeFromYear y <= t < JSDate.TimeFromYear (y + 1) ->
  JSDate.YearFromTime t = y.
Proof.
  intros [H1 H2]; destruct (YearFromTime_spec t) as [H3 H4].
  unfold JSDate.TimeFromYear, JSDate.msPerDay in *.
  destruct (Z.lt_trichotomy (JSDate.YearFromTime t) y) as [H|[H|H]]; [|exact H|].
  - assert (JSDate.DayFromYear (JSDate.YearFromTime t + 1) <= JSDate.DayFromYear y).
    { destruct (Z.eq_dec (JSDate.YearFromTime t + 1) y) as [->|]; [lia|].
      apply Z.lt_le_incl, DayFromYear_lt; lia. }
    lia.
  - assert (JSDate.DayFromYear (y + 1) <= JSDate.DayFromYear (JSDate.YearFromTime t)).
    { destruct (Z.eq_dec (y + 1) (JSDate.YearFromTime t)) as [->|]; [lia|].
      apply Z.lt_le_incl, DayFromYear_lt; lia. }
    lia.
Qed.


Lemma monthOf_range (leap d : Z) :
  d < 365 + leap ->
  0 <= JSDate.monthOf (JSDate.monthStart leap) d 0 <= 11.
Proof.
  intros Hd; unfold JSDate.monthStart; cbn [JSDate.monthOf].
  repeat match goal with
         | |- context [if (?a <? ?b) then _ else _] =>
             destruct (Z.ltb_spec a b); cbv iota
         end; cbn; lia.
Qed.

Lemma DayWithinYear_range (t : Z) :
  0 <= JSDate.DayWithinYear t < 365 + JSDate.InLeapYear t.
Proof.
  unfold JSDate.DayWithinYear, JSDate.InLeapYear.
  destruct (YearFromTime_spec t) as [H1 H2].
  unfold JSDate.TimeFromYear in H1, H2.
  rewrite DayFromYear_succ in H2.
  assert (Hd : JSDate.msPerDay * JSDate.Day t <= t
               < JSDate.msPerDay * (JSDate.Day t + 1)).
  { unfold JSDate.Day, JSDate.msPerDay.
    pose proof (Z.div_mod t 86400000 ltac:(lia)).
    pose proof (Z.mod_pos_bound t 86400000 ltac:(lia)); lia. }
  unfold JSDate.msPerDay in *.
  assert (Hy : JSDate.DaysInYear (JSDate.YearFromTime t) = 365
               \/ JSDate.DaysInYear (JSDate.YearFromTime t) = 366).
  { rewrite DaysInYear_leap; destruct (isLeap _); auto. }
  destruct Hy as [Hy|Hy]; rewrite Hy in *; cbn; lia.
Qed.

Lemma Day_of_days (d : Z) : JSDate.Day (d * JSDate.msPerDay) = d.
Proof. unfold JSDate.Day, JSDate.msPerDay; apply Z.div_mul; lia. Qed.


Lemma date_in_year (Y dwy : Z) :
  0 <= dwy < JSDate.DaysInYear Y ->
  JSDate.YearFromTime ((JSDate.DayFromYear Y + dwy) * JSDate.msPerDay) = Y
  /\ JSDate.DayWithinYear ((JSDate.DayFromYear Y + dwy) * JSDate.msPerDay) = dwy
  /\ JSDate.InLeapYear ((JSDate.DayFromYear Y + dwy) * JSDate.msPerDay)
     = (if JSDate.DaysInYear Y =? 365 then 0 else 1).
Proof.
  intros H.
  assert (Hy : JSDate.YearFromTime ((JSDate.DayFromYear Y + dwy) * JSDate.msPerDay) = Y).
  { apply YearFromTime_unique; unfold JSDate.TimeFromYear.
    rewrite DayFromYear_succ; unfold JSDate.msPerDay; lia. }
  unfold JSDate.DayWithinYear, JSDate.InLeapYear.
  rewrite Hy, Day_of_days; repeat split; lia.
Qed.

(** The first day of a month within its year. *)
Lemma monthStart_nonneg (leap : Z) (k : nat) :
  0 <= leap -> 0 <= nth k (JSDate.monthStart leap) 0.
Proof.
  intros H; unfold JSDate.monthStart.
  do 13 (destruct k as [|k]; [cbn [nth]; lia|]); destruct k; cbn [nth]; lia.
Qed.

(** The check of [isValidISODate] on the three numbers of a date text. *)
Lemma date_round_trip (Y M D : Z) :
  0 <= Y <= 9999 -> 0 <= M <= 99 -> 0 <= D <= 99 ->
  match JSDate.UTC Y (M - 1) D with
  | None => false
  | Some dt =>
      (JSDate.YearFromTime dt =? Y)
      && (JSDate.MonthFromTime dt =? M - 1)
      && (JSDate.DateFromTime dt =? D)
  end = true
  <-> calendarDate Y M D.
Proof.
  intros HY HM HD; unfold calendarDate, JSDate.UTC, JSDate.TimeClip, JSDate.MakeDay.
  set (yr := if (0 <=? Y) && (Y <=? 99) then 1900 + Y else Y).
  set (ym := yr + (M - 1) / 12).
  set (leap := if JSDate.DaysInYear ym =? 365 then 0 else 1).
  set (start := nth (Z.to_nat ((M - 1) mod 12)) (JSDate.monthStart leap) 0).
  assert (Hleap : 0 <= leap <= 1) by (unfold leap; destruct (_ =? _); lia).
  assert (Hstart : 0 <= start) by (apply monthStart_nonneg; lia).
  assert (Hstart' : start <= 366).
  { unfold start, JSDate.monthStart.
    generalize (Z.to_nat ((M - 1) mod 12)); intros k.
    do 13 (destruct k as [|k]; [cbn [nth]; lia|]); destruct k; cbn [nth]; lia. }
  assert (Hyr : 100 <= yr <= 9999).
  { unfold yr; destruct (Z.leb_spec 0 Y), (Z.leb_spec Y 99); cbv [andb]; lia. }
  assert (Hym : 99 <= ym <= 10008).
  { unfold ym; revert Hyr; generalize yr; intros y0 Hy0.
    revert HM Hy0; clear; intros; Z.div_mod_to_equations; lia. }
  assert (Hclip : (Z.abs ((JSDate.DayFromYear ym + start + D - 1) * JSDate.msPerDay)
                   <=? 8640000000000000) = true).
  { apply Z.leb_le; unfold JSDate.DayFromYear, JSDate.msPerDay.
    revert Hym Hstart Hstart' HD; generalize ym start; clear; intros.
    Z.div_mod_to_equations; lia. }
  rewrite Hclip; split.
  - intros H; apply andb_true_iff in H as [H Hd]; apply andb_true_iff in H as [Hy Hm].
    apply Z.eqb_eq in Hy, Hm, Hd.
    set (t := (JSDate.DayFromYear ym + start + D - 1) * JSDate.msPerDay) in *.
    assert (HM' : 1 <= M <= 12).
    { pose proof (DayWithinYear_range t) as Hr.
      pose proof (monthOf_range (JSDate.InLeapYear t) (JSDate.DayWithinYear t)
                    (proj2 Hr)) as Hk.
      unfold JSDate.MonthFromTime in Hm; lia. }
    assert (Eym : ym = yr).
    { unfold ym; rewrite Z.div_small; lia. }
    pose proof (YearFromTime_spec t) as [Hlo Hhi]; rewrite Hy in Hlo, Hhi.
    unfold JSDate.TimeFromYear, t, JSDate.msPerDay in Hlo, Hhi.
    assert (HY' : 100 <= Y).
    { destruct (Z.le_gt_cases 100 Y) as [|Hs]; [assumption|exfalso].
      assert (E : yr = 1900 + Y)
        by (unfold yr; destruct (Z.leb_spec 0 Y), (Z.leb_spec Y 99); cbv [andb]; lia).
      pose proof (DayFromYear_lt (Y + 1) ym ltac:(lia)); lia. }
    assert (Eyr : yr = Y)
      by (unfold yr; destruct (Z.leb_spec 0 Y), (Z.leb_spec Y 99); cbv [andb]; lia).
    rewrite Eyr in Eym; clearbody ym; subst ym.
    rewrite DayFromYear_succ in Hhi.
    assert (Hw : 0 <= start + D - 1 < JSDate.DaysInYear Y) by lia.
    destruct (date_in_year Y (start + D - 1) Hw) as (_ & Hdwy & Hil).
    replace (JSDate.DayFromYear Y + (start + D - 1))
      with (JSDate.DayFromYear Y + start + D - 1) in Hdwy, Hil by lia.
    fold t in Hdwy, Hil.
    unfold JSDate.MonthFromTime in Hm; rewrite Hdwy, Hil in Hm; fold leap in Hm.
    split; [exact HY'|]; split; [exact HM'|].
    assert (El : leap = if isLeap Y then 1 else 0)
      by (unfold leap; rewrite DaysInYear_leap; now destruct (isLeap Y)).
    unfold daysInMonth; rewrite DaysInYear_leap in Hw.
    unfold start in Hm, Hw; revert Hm Hw El HM' HD; generalize leap.
    clear; intros leap Hm Hw El HM' HD.
    destruct (isLeap Y); subst leap;
      split_months M; eval_start;
      cbn [JSDate.monthOf JSDate.monthStart] in Hm; cbv iota in Hw;
      cbv [Z.eqb Pos.eqb orb]; split_ltb; lia.
  - intros (HY' & HM' & HD').
    assert (Eyr : yr = Y)
      by (unfold yr; destruct (Z.leb_spec 0 Y), (Z.leb_spec Y 99); cbv [andb]; lia).
    assert (Eym : ym = Y) by (unfold ym; rewrite Z.div_small; lia).
    clearbody ym; subst ym.
    assert (El : leap = if isLeap Y then 1 else 0)
      by (unfold leap; rewrite DaysInYear_leap; now destruct (isLeap Y)).
    assert (Hw : 0 <= start + D - 1 < JSDate.DaysInYear Y).
    { unfold daysInMonth in HD'; rewrite DaysInYear_leap.
      unfold start; revert El HM' HD'; generalize leap.
      clear; intros leap El HM' HD'.
      destruct (isLeap Y); subst leap;
        split_months M; eval_start;
        cbv [Z.eqb Pos.eqb orb] in HD'; cbv iota; lia. }
    destruct (date_in_year Y (start + D - 1) Hw) as (Hy & Hdwy & Hil).
    replace (JSDate.DayFromYear Y + (start + D - 1))
      with (JSDate.DayFromYear Y + start + D - 1) in Hy, Hdwy, Hil by lia.
    unfold JSDate.DateFromTime, JSDate.MonthFromTime.
    rewrite Hy, Hdwy, Hil, Z.eqb_refl; fold leap.
    unfold daysInMonth in HD'.
    unfold start; revert El HM' HD'; generalize leap.
    clear; intros leap El HM' HD'.
    destruct (isLeap Y); subst leap;
      split_months M; eval_start;
      cbv [Z.eqb Pos.eqb orb] in HD'; cbn [JSDate.monthOf JSDate.monthStart];
      split_ltb; try lia;
      eval_nth; apply andb_true_iff; split; apply Z.eqb_eq; lia.
Qed.

End CalendarArith.

(** ** The texts of dates *)

Section IsoDate.

Lemma isoDate_shape (s x : mstate) :
  In x (m (Seq (Grp 1 (Rep true 4 (Some 4%nat) isDigit))
          (Seq (Cls (N.eqb hyphen))
          (Seq (Grp 2 (Rep true 2 (Some 2%nat) isDigit))
          (Seq (Cls (N.eqb hyphen))
          (Seq (Grp 3 (Rep true 2 (Some 2%nat) isDigit)) Eol))))) s) ->
  exists y mo d,
    isoDateText (rest s) y mo d
    /\ lookup 1 (caps x) = Some y /\ lookup 2 (caps x) = Some mo
    /\ lookup 3 (caps x) = Some d.
Proof.
  intros Hin.
  change (m (Seq ?a ?b) s) with (flat_map (m b) (m a s)) in Hin.
  apply in_flat_map in Hin as (s1 & H1 & Hin).
  change (m (Grp 1 ?r) s) with (map (set_cap 1 s) (m r s)) in H1.
  apply in_map_iff in H1 as (y1 & <- & Hy1).
  apply rep_digits_in in Hy1 as (w1 & Hw1 & Hd1 & Hlo1 & Hhi1 & Hc1).
  specialize (Hhi1 _ eq_refl).
  destruct (set_cap_lookup 1 s y1 w1 Hw1) as [Hr1 Hl1].
  change (m (Seq ?a ?b) ?z) with (flat_map (m b) (m a z)) in Hin.
  apply in_flat_map in Hin as (s2 & H2 & Hin).
  apply m_Cls_in in H2 as (c & t & Hc & Hcol & ->).
  apply N.eqb_eq in Hcol; subst c.
  change (m (Seq ?a ?b) ?z) with (flat_map (m b) (m a z)) in Hin.
  apply in_flat_map in Hin as (s3 & H3 & Hin).
  change (m (Grp 2 ?r) ?z) with (map (set_cap 2 z) (m r z)) in H3.
  apply in_map_iff in H3 as (y2 & <- & Hy2).
  apply rep_digits_in in Hy2 as (w2 & Hw2 & Hd2 & Hlo2 & Hhi2 & Hc2).
  specialize (Hhi2 _ eq_refl).
  destruct (set_cap_lookup 2 _ y2 w2 Hw2) as [Hr2 Hl2].
  change (m (Seq ?a ?b) ?z) with (flat_map (m b) (m a z)) in Hin.
  apply in_flat_map in Hin as (s4 & H4 & Hin).
  apply m_Cls_in in H4 as (c & t' & Hc' & Hcol & ->).
  apply N.eqb_eq in Hcol; subst c.
  change (m (Seq ?a ?b) ?z) with (flat_map (m b) (m a z)) in Hin.
  apply in_flat_map in Hin as (s5 & H5 & Hin).
  change (m (Grp 3 ?r) ?z) with (map (set_cap 3 z) (m r z)) in H5.
  apply in_map_iff in H5 as (y3 & <- & Hy3).
  apply rep_digits_in in Hy3 as (w3 & Hw3 & Hd3 & Hlo3 & Hhi3 & Hc3).
  specialize (Hhi3 _ eq_refl).
  destruct (set_cap_lookup 3 _ y3 w3 Hw3) as [Hr3 Hl3].
  simpl in Hin.
  destruct (rest y3) eqn:E3; [|destruct Hin].
  destruct Hin as [<-|[]].
  simpl in Hw3; rewrite app_nil_r in Hw3; subst t'.
  simpl in Hw2; rewrite Hr2 in Hc'; rewrite Hc' in Hw2; subst t.
  rewrite Hr1 in Hc; rewrite Hc in Hw1.
  exists w1, w2, w3; repeat split; auto; try lia.
  - unfold set_cap at 1; cbn [caps lookup Nat.eqb]; rewrite Hc3.
    cbn [advance caps]; unfold set_cap at 1; cbn [caps lookup Nat.eqb].
    rewrite Hc2; exact Hl1.
  - unfold set_cap at 1; cbn [caps lookup Nat.eqb]; rewrite Hc3.
    cbn [advance caps]; exact Hl2.
Qed.

Lemma isoDate_nonempty (s y mo d : jsstring) :
  isoDateText s y mo d ->
  m (Seq (Grp 1 (Rep true 4 (Some 4%nat) isDigit))
    (Seq (Cls (N.eqb hyphen))
    (Seq (Grp 2 (Rep true 2 (Some 2%nat) isDigit))
    (Seq (Cls (N.eqb hyphen))
    (Seq (Grp 3 (Rep true 2 (Some 2%nat) isDigit)) Eol)))))
    (MState None s []) <> [].
Proof.
  intros (-> & Hly & Hlm & Hld & Hy & Hm & Hd).
  set (s0 := MState None (y ++ hyphen :: mo ++ hyphen :: d) []).
  set (y1 := MState (lastp None y) (hyphen :: mo ++ hyphen :: d) []).
  set (s2 := advance hyphen (mo ++ hyphen :: d) (set_cap 1 s0 y1)).
  set (y2 := MState (lastp (Some hyphen) mo) (hyphen :: d) (caps s2)).
  set (s4 := advance hyphen d (set_cap 2 s2 y2)).
  set (y3 := MState (lastp (Some hyphen) d) [] (caps s4)).
  assert (Hrep : forall w r pv cs n,
             length w = n -> forallb isDigit w = true ->
             In (MState (lastp pv w) r cs)
                (m (Rep true n (Some n) isDigit) (MState pv (w ++ r) cs))).
  { intros w r pv cs n Hn Hw; simpl; apply in_rev; rewrite rev_involutive.
    apply reps_in_bounded; exists w; simpl; repeat split; auto; [lia|].
    intros h [= <-]; lia. }
  apply (nonempty_in _ (set_cap 3 s4 y3)).
  change (m (Seq ?a ?b) s0) with (flat_map (m b) (m a s0)).
  apply in_flat_map; exists (set_cap 1 s0 y1); split.
  { change (m (Grp 1 ?r) s0) with (map (set_cap 1 s0) (m r s0)).
    apply in_map, Hrep; auto. }
  change (m (Seq ?a ?b) ?z) with (flat_map (m b) (m a z)).
  apply in_flat_map; exists s2; split.
  { apply m_Cls_in; exists hyphen, (mo ++ hyphen :: d); repeat split. }
  change (m (Seq ?a ?b) ?z) with (flat_map (m b) (m a z)).
  apply in_flat_map; exists (set_cap 2 s2 y2); split.
  { change (m (Grp 2 ?r) s2) with (map (set_cap 2 s2) (m r s2)).
    apply in_map, (Hrep mo (hyphen :: d) (Some hyphen) (caps s2)); auto. }
  change (m (Seq ?a ?b) ?z) with (flat_map (m b) (m a z)).
  apply in_flat_map; exists s4; split.
  { apply m_Cls_in; exists hyphen, d; repeat split. }
  change (m (Seq ?a ?b) ?z) with (flat_map (m b) (m a z)).
  apply in_flat_map; exists (set_cap 3 s4 y3); split.
  { change (m (Grp 3 ?r) s4) with (map (set_cap 3 s4) (m r s4)).
    apply in_map.
    pose proof (Hrep d [] (Some hyphen) (caps s4) 2%nat Hld Hd) as H.
    rewrite app_nil_r in H; exact H. }
  simpl; now left.
Qed.

Lemma isoDateText_unique (s y mo d y' mo' d' : jsstring) :
  isoDateText s y mo d -> isoDateText s y' mo' d' ->
  y = y' /\ mo = mo' /\ d = d'.
Proof.
  intros (-> & Hy & Hm & Hd & _) (E & Hy' & Hm' & Hd' & _).
  assert (Ey : y = y').
  { apply (f_equal (firstn 4)) in E.
    rewrite <- Hy in E at 1; rewrite <- Hy' in E.
    now rewrite !firstn_app, !firstn_all, !Nat.sub_diag, !firstn_O, !app_nil_r in E. }
  subst y'; apply app_inv_head in E; injection E as E.
  assert (Em : mo = mo').
  { apply (f_equal (firstn 2)) in E.
    rewrite <- Hm in E at 1; rewrite <- Hm' in E.
    now rewrite !firstn_app, !firstn_all, !Nat.sub_diag, !firstn_O, !app_nil_r in E. }
  subst mo'; apply app_inv_head in E; injection E as E; auto.
Qed.

(** [isoDateRe] matches the texts yyyy-mm-dd, and its groups are the three
    runs of digits. *)
Lemma exec_isoDate_Some (s : jsstring) (h : hit) :
  exec isoDateRe s = Some h ->
  exists y mo d,
    isoDateText s y mo d
    /\ groupText 1 h = y /\ groupText 2 h = mo /\ groupText 3 h = d.
Proof.
  unfold isoDateRe; rewrite exec_anchored.
  destruct (m _ _) as [|x xs] eqn:E; [discriminate|].
  intros [= <-].
  assert (Hx : In x (x :: xs)) by now left.
  rewrite <- E in Hx; apply isoDate_shape in Hx as (y & mo & d & Ht & H1 & H2 & H3).
  exists y, mo, d; unfold groupText, group; simpl; now rewrite H1, H2, H3.
Qed.

Lemma exec_isoDate_text (s y mo d : jsstring) :
  isoDateText s y mo d ->
  exists h, exec isoDateRe s = Some h
            /\ groupText 1 h = y /\ groupText 2 h = mo /\ groupText 3 h = d.
Proof.
  intros Ht; pose proof (isoDate_nonempty _ _ _ _ Ht) as Hne.
  destruct (exec isoDateRe s) as [h|] eqn:E.
  - exists h; split; [reflexivity|].
    apply exec_isoDate_Some in E as (y' & mo' & d' & Ht' & H1 & H2 & H3).
    destruct (isoDateText_unique _ _ _ _ _ _ _ Ht Ht') as (-> & -> & ->); auto.
  - exfalso; unfold isoDateRe in E; rewrite exec_anchored in E.
    destruct (m _ _); [congruence|discriminate].
Qed.

Lemma digits4_bound (w : jsstring) :
  forallb isDigit w = true -> length w = 4%nat -> (0 <= digitsVal w <= 9999)%Z.
Proof.
  intros Hd Hl.
  destruct w as [|a [|b [|c [|e [|? ?]]]]]; try discriminate.
  cbn [forallb] in Hd.
  repeat (apply andb_true_iff in Hd as [?H Hd]).
  repeat match goal with H : isDigit _ = true |- _ => apply digitVal_range in H end.
  unfold digitsVal; cbn [fold_left]; lia.
Qed.

Lemma digits2_bound (w : jsstring) :
  forallb isDigit w = true -> length w = 2%nat -> (0 <= digitsVal w <= 99)%Z.
Proof.
  intros Hd Hl; pose proof (minutes_below_100 w Hd ltac:(lia)); lia.
Qed.

(** [isValidISODate] accepts the texts yyyy-mm-dd that name a day of the
    Gregorian calendar in a year from 0100 on. *)
Lemma isValidISODate_calendar (s : jsstring) :
  isValidISODate s = true
  <-> exists y mo d,
        isoDateText s y mo d
        /\ calendarDate (digitsVal y) (digitsVal mo) (digitsVal d).
Proof.
  unfold isValidISODate; split.
  - destruct (exec isoDateRe s) as [h|] eqn:E; [|discriminate].
    apply exec_isoDate_Some in E as (y & mo & d & Ht & -> & -> & ->).
    intros H; exists y, mo, d; split; [exact Ht|].
    destruct Ht as (_ & Hly & Hlm & Hld & Hy & Hm & Hd).
    apply date_round_trip; auto using digits4_bound, digits2_bound.
  - intros (y & mo & d & Ht & Hc).
    destruct (exec_isoDate_text _ _ _ _ Ht) as (h & -> & -> & -> & ->).
    destruct Ht as (_ & Hly & Hlm & Hld & Hy & Hm & Hd).
    apply date_round_trip; auto using digits4_bound, digits2_bound.
Qed.

End IsoDate.

Section DatePattern.

Lemma datePattern_shape (s x : mstate) :
  In x (m (Seq (Rep true 4 (Some 4%nat) isDigit)
          (Seq (Cls (N.eqb hyphen))
          (Seq (Rep true 2 (Some 2%nat) isDigit)
          (Seq (Cls (N.eqb hyphen))
          (Seq (Rep true 2 (Some 2%nat) isDigit) Eol))))) s) ->
  exists y mo d, isoDateText (rest s) y mo d.
Proof.
  intros Hin.
  change (m (Seq ?a ?b) s) with (flat_map (m b) (m a s)) in Hin.
  apply in_flat_map in Hin as (s1 & H1 & Hin).
  apply rep_digits_in in H1 as (w1 & Hw1 & Hd1 & Hlo1 & Hhi1 & _).
  specialize (Hhi1 _ eq_refl).
  change (m (Seq ?a ?b) ?z) with (flat_map (m b) (m a z)) in Hin.
  apply in_flat_map in Hin as (s2 & H2 & Hin).
  apply m_Cls_in in H2 as (c & t & Hc & Hcol & ->).
  apply N.eqb_eq in Hcol; subst c.
  change (m (Seq ?a ?b) ?z) with (flat_map (m b) (m a z)) in Hin.
  apply in_flat_map in Hin as (s3 & H3 & Hin).
  apply rep_digits_in in H3 as (w2 & Hw2 & Hd2 & Hlo2 & Hhi2 & _).
  specialize (Hhi2 _ eq_refl).
  change (m (Seq ?a ?b) ?z) with (flat_map (m b) (m a z)) in Hin.
  apply in_flat_map in Hin as (s4 & H4 & Hin).
  apply m_Cls_in in H4 as (c & t' & Hc' & Hcol & ->).
  apply N.eqb_eq in Hcol; subst c.
  change (m (Seq ?a ?b) ?z) with (flat_map (m b) (m a z)) in Hin.
  apply in_flat_map in Hin as (s5 & H5 & Hin).
  apply rep_digits_in in H5 as (w3 & Hw3 & Hd3 & Hlo3 & Hhi3 & _).
  specialize (Hhi3 _ eq_refl).
  simpl in Hin; destruct (rest s5) eqn:E5; [|destruct Hin].
  simpl in Hw3, Hw2; rewrite app_nil_r in Hw3; subst t'.
  rewrite Hc' in Hw2; subst t; rewrite Hc in Hw1.
  exists w1, w2, w3; repeat split; auto; lia.
Qed.

Lemma datePattern_nonempty (s y mo d : jsstring) :
  isoDateText s y mo d ->
  m (Seq (Rep true 4 (Some 4%nat) isDigit)
    (Seq (Cls (N.eqb hyphen))
    (Seq (Rep true 2 (Some 2%nat) isDigit)
    (Seq (Cls (N.eqb hyphen))
    (Seq (Rep true 2 (Some 2%nat) isDigit) Eol)))))
    (MState None s []) <> [].
Proof.
  intros (-> & Hly & Hlm & Hld & Hy & Hm & Hd).
  assert (Hrep : forall w r pv cs n,
             length w = n -> forallb isDigit w = true ->
             In (MState (lastp pv w) r cs)
                (m (Rep true n (Some n) isDigit) (MState pv (w ++ r) cs))).
  { intros w r pv cs n Hn Hw; simpl; apply in_rev; rewrite rev_involutive.
    apply reps_in_bounded; exists w; simpl; repeat split; auto; [lia|].
    intros h [= <-]; lia. }
  apply (nonempty_in _ (MState (lastp (Some hyphen) d) [] [])).
  change (m (Seq ?a ?b) ?z) with (flat_map (m b) (m a z)).
  apply in_flat_map; eexists; split; [apply Hrep; auto|].
  change (m (Seq ?a ?b) ?z) with (flat_map (m b) (m a z)).
  apply in_flat_map; eexists; split.
  { apply m_Cls_in; exists hyphen, (mo ++ hyphen :: d); repeat split. }
  change (m (Seq ?a ?b) ?z) with (flat_map (m b) (m a z)).
  apply in_flat_map; eexists; split.
  { apply (Hrep mo (hyphen :: d)); auto. }
  change (m (Seq ?a ?b) ?z) with (flat_map (m b) (m a z)).
  apply in_flat_map; eexists; split.
  { apply m_Cls_in; exists hyphen, d; repeat split. }
  change (m (Seq ?a ?b) ?z) with (flat_map (m b) (m a z)).
  apply in_flat_map; eexists; split.
  { pose proof (Hrep d [] (Some hyphen) [] 2%nat Hld Hd) as H.
    rewrite app_nil_r in H; exact H. }
  simpl; now left.
Qed.

(** The pattern of dates accepts the texts yyyy-mm-dd. *)
Lemma test_datePattern (s : jsstring) :
  test datePatternRe s = true <-> exists y mo d, isoDateText s y mo d.
Proof.
  unfold test, datePatternRe; rewrite exec_anchored; split.
  - destruct (m _ _) as [|x xs] eqn:E; [discriminate|]; intros _.
    assert (Hx : In x (x :: xs)) by now left.
    rewrite <- E in Hx; now apply datePattern_shape in Hx.
  - intros (y & mo & d & Ht); apply datePattern_nonempty in Ht.
    destruct (m _ _); [congruence|reflexivity].
Qed.

End DatePattern.

(** ** The checks of a date *)

Section DateChecks.

(** The two checks of a date, by the text and the calendar. *)
Lemma checkDate_calendar (d : jsstring) :
  ((~ exists y mo dd, isoDateText d y mo dd) ->
   checkDate d = Throw (formatError "date must be yyyy-mm-dd."))
  /\ (forall y mo dd,
        isoDateText d y mo dd ->
        ~ calendarDate (digitsVal y) (digitsVal mo) (digitsVal dd) ->
        checkDate d = Throw calendarError)
  /\ (forall y mo dd,
        isoDateText d y mo dd ->
        calendarDate (digitsVal y) (digitsVal mo) (digitsVal dd) ->
        checkDate d = Ok d).
Proof.
  destruct (checkDate_cases d) as (H1 & H2 & H3).
  split; [|split].
  - intros Hno; apply H1.
    destruct (test datePatternRe d) eqn:E; [|reflexivity].
    apply test_datePattern in E; contradiction.
  - intros y mo dd Ht Hc; apply H2.
    + apply test_datePattern; eauto.
    + destruct (isValidISODate d) eqn:E; [|reflexivity].
      apply isValidISODate_calendar in E as (y' & mo' & dd' & Ht' & Hc').
      destruct (isoDateText_unique _ _ _ _ _ _ _ Ht Ht') as (-> & -> & ->).
      contradiction.
  - intros y mo dd Ht Hc; apply H3.
    + apply test_datePattern; eauto.
    + apply isValidISODate_calendar; eauto.
Qed.

(** Past the first checks, the parse is what the LOG section makes it. *)
Lemma parse_of_section (message : jsstring) :
  passesChecks message ->
  let line := sanitizeFirstLine message in
  (forall e, logSection (getToken line "LOG") (getToken line "DATE") = Throw e ->
             parseCommitMessage message = Throw e)
  /\ (forall h d,
        logSection (getToken line "LOG") (getToken line "DATE") = Ok (h, d) ->
        exists r, parseCommitMessage message = Ok r
                  /\ logDate r = d /\ logHours r = h).
Proof.
  intros Hchk; cbv zeta.
  destruct (parse_after_checks _ Hchk) as (k & _ & E); rewrite E.
  split.
  - intros e ->; reflexivity.
  - intros h d ->; simpl; eexists; split; [reflexivity|auto].
Qed.

(** A parse that comes down to the checks of the date [d]. *)
Lemma parse_checked_date (message d : jsstring) (hours : option number) :
  passesChecks message ->
  logSection (getToken (sanitizeFirstLine message) "LOG")
             (getToken (sanitizeFirstLine message) "DATE")
  = (logDate <- checkDate d ;; Ok (hours, Some logDate)) ->
  ((~ exists y mo dd, isoDateText d y mo dd) ->
   parseCommitMessage message = Throw (formatError "date must be yyyy-mm-dd."))
  /\ (forall y mo dd,
        isoDateText d y mo dd ->
        ~ calendarDate (digitsVal y) (digitsVal mo) (digitsVal dd) ->
        parseCommitMessage message = Throw calendarError)
  /\ (forall y mo dd,
        isoDateText d y mo dd ->
        calendarDate (digitsVal y) (digitsVal mo) (digitsVal dd) ->
        exists r, parseCommitMessage message = Ok r
                  /\ logDate r = Some d /\ logHours r = hours).
Proof.
  intros Hchk E.
  destruct (parse_of_section _ Hchk) as (Hthrow & Hok); cbv zeta in *.
  destruct (checkDate_calendar d) as (H1 & H2 & H3).
  split; [|split].
  - intros Hno; apply Hthrow; rewrite E, (H1 Hno); reflexivity.
  - intros y mo dd Ht Hc; apply Hthrow; rewrite E, (H2 _ _ _ Ht Hc); reflexivity.
  - intros y mo dd Ht Hc; apply Hok; rewrite E, (H3 _ _ _ Ht Hc); reflexivity.
Qed.

Lemma truthyText_app_at (t d : jsstring) :
  truthyText (Some (t ++ 64 :: d)) = Some (t ++ 64 :: d).
Proof. destruct t; reflexivity. Qed.

(** The duration is read first: its errors are those of the LOG section,
    whatever follows the [@]. *)
Lemma logSection_time_error (t d : jsstring) (dateToken : option jsstring) (e : string) :
  ~ In 64 t -> parseLogTime t = Throw e ->
  logSection (Some (t ++ 64 :: d)) dateToken = Throw e.
Proof.
  intros Hat Ht; unfold logSection.
  rewrite truthyText_app_at, (splitLog_at _ _ Hat), Ht; reflexivity.
Qed.

Lemma logSection_not_positive (t d : jsstring) (dateToken : option jsstring)
      (hours : number) :
  ~ In 64 t -> parseLogTime t = Ok hours -> gt hours zero = false ->
  logSection (Some (t ++ 64 :: d)) dateToken
  = Throw (formatError "LOG hours must be a positive number.").
Proof.
  intros Hat Ht Hpos; unfold logSection.
  rewrite truthyText_app_at, (splitLog_at _ _ Hat), Ht; simpl; rewrite Hpos.
  reflexivity.
Qed.

(** Nothing but white space after the [@]: the LOG value has no date, and
    the DATE token is looked at. *)
Lemma logSection_blank_date (t d : jsstring) (dateToken : option jsstring)
      (hours : number) :
  ~ In 64 t -> parseLogTime t = Ok hours -> gt hours zero = true ->
  trim d = [] ->
  logSection (Some (t ++ 64 :: d)) dateToken
  = match truthyText dateToken with
    | Some dateToken =>
        logDate <- checkDate dateToken ;; Ok (Some hours, Some logDate)
    | None => Ok (Some hours, None)
    end.
Proof.
  intros Hat Ht Hpos Hd; unfold logSection.
  rewrite truthyText_app_at, (splitLog_at _ _ Hat), Ht; simpl; rewrite Hpos, Hd.
  reflexivity.
Qed.

Lemma logSection_no_at (raw : jsstring) (dateToken : option jsstring)
      (hours : number) :
  raw <> [] -> ~ In 64 raw -> parseLogTime raw = Ok hours -> gt hours zero = true ->
  logSection (Some raw) dateToken
  = match truthyText dateToken with
    | Some dateToken =>
        logDate <- checkDate dateToken ;; Ok (Some hours, Some logDate)
    | None => Ok (Some hours, None)
    end.
Proof.
  intros Hne Hat Ht Hpos; unfold logSection.
  assert (Htr : truthyText (Some raw) = Some raw) 
    by (destruct raw; [exfalso; apply Hne; reflexivity|reflexivity]).
  rewrite Htr, (splitLog_plain _ Hat), Ht; simpl; rewrite Hpos.
  reflexivity.
Qed.

(** The first [@] of a text. *)
Lemma first_at (raw : jsstring) :
  In 64 raw -> exists t d, raw = t ++ 64 :: d /\ ~ In 64 t.
Proof.
  induction raw as [|c raw IH]; [intros []|].
  destruct (N.eq_dec c 64) as [->|Hc].
  - intros _; exists [], raw; split; [reflexivity|intros []].
  - intros [H|H]; [congruence|].
    destruct (IH H) as (t & d & -> & Ht).
    exists (c :: t), d; split; [reflexivity|].
    intros [E|E]; [congruence|contradiction].
Qed.

(** A LOG value has no date of its own exactly when the code finds none. *)
Lemma noInlineDate_spec (raw : jsstring) :
  noInlineDate raw <-> truthyText (snd (splitLog raw)) = None.
Proof.
  unfold noInlineDate; split.
  - intros [H|(t & d & -> & Ht & Hd)].
    + rewrite (splitLog_plain _ H); reflexivity.
    + rewrite (splitLog_at _ _ Ht); simpl; rewrite Hd; reflexivity.
  - intros H.
    destruct (in_dec N.eq_dec 64 raw) as [Hin|Hno]; [|now left].
    right; destruct (first_at _ Hin) as (t & d & -> & Ht).
    exists t, d; repeat split; [exact Ht|].
    rewrite (splitLog_at _ _ Ht) in H; simpl in H.
    destruct (trim d); [reflexivity|discriminate].
Qed.

(** A successful parse has no date exactly when there is no DATE token and
    the LOG value, if there is one, has no date of its own. *)
Lemma parse_no_date (message : jsstring) (r : parsed) :
  parseCommitMessage message = Ok r ->
  (logDate r = None
   <-> getToken (sanitizeFirstLine message) "DATE" = None
       /\ forall raw, getToken (sanitizeFirstLine message) "LOG" = Some raw ->
                      noInlineDate raw).
Proof.
  intros Hok.
  destruct (parse_Ok_fields _ _ Hok) as (Hsec & _); cbv zeta in Hsec.
  assert (Hd : forall d (hs : option number),
             (logDate <- checkDate d ;; Ok (hs, Some logDate))
             = Ok (logHours r, logDate r) ->
             logDate r <> None).
  { intros d hs H.
    destruct (checkDate d); simpl in H; [|discriminate].
    injection H as _ <-; discriminate. }
  unfold logSection in Hsec; rewrite !truthyText_getToken in Hsec.
  destruct (getToken (sanitizeFirstLine message) "LOG") as [raw|] eqn:El.
  - pose proof (noInlineDate_spec raw) as Hspec.
    destruct (splitLog raw) as [timePart datePart]; simpl snd in Hspec.
    destruct (parseLogTime timePart) as [h|e]; simpl in Hsec; [|discriminate].
    destruct (negb (gt h zero)); simpl in Hsec; [discriminate|].
    destruct (truthyText datePart) as [dp|].
    + apply Hd in Hsec; split; [contradiction|].
      intros (_ & H); specialize (H raw eq_refl).
      apply Hspec in H; discriminate.
    + destruct (getToken (sanitizeFirstLine message) "DATE") as [dt|].
      * apply Hd in Hsec; split; [contradiction|intros (H & _); discriminate].
      * injection Hsec as _ <-; split; [|reflexivity].
        intros _; split; [reflexivity|].
        intros raw' [= <-]; apply Hspec; reflexivity.
  - destruct (getToken (sanitizeFirstLine message) "DATE") as [dt|].
    + apply Hd in Hsec; split; [contradiction|intros (H & _); discriminate].
    + injection Hsec as _ <-; split; [|reflexivity].
      intros _; split; [reflexivity|discriminate].
Qed.

End DateChecks.

(** * The claims *)

(** ** C1: where a token value ends *)




(** ** C2: a token with nothing after its colon *)

(** C2, what the code does.  In [ABC-1 STATUS: LOG:1h] the STATUS token has
    only white space between its colon and the LOG token.  The pattern skips
    that white space and captures from the [L] of [LOG:] to the end of the
    line, so [status] is the text [LOG:1h] instead of null; the LOG token is
    still read, and no error is raised.  In the same way the first token of
    [ABC-1 STATUS: STATUS:Done] takes the second one as its value, and the
    line counts a single STATUS match.  With nothing but the end of the line
    after the colon the token is absent. *)
Theorem C2_empty_value_takes_next_token :
  (exists r, parseCommitMessage (js "ABC-1 STATUS: LOG:1h") = Ok r
             /\ status r = Some (js "LOG:1h")
             /\ logHours r = Some (ofZ 1))
  /\ (exists r, parseCommitMessage (js "ABC-1 STATUS: STATUS:Done") = Ok r
                /\ status r = Some (js "STATUS:Done")
                /\ hits (firstLine r) "STATUS" = 1%nat)
  /\ (exists r, parseCommitMessage (js "ABC-1 LOG:1h STATUS:") = Ok r
                /\ status r = None
                /\ logHours r = Some (ofZ 1)).
Proof.
  repeat apply conj;
    try (eexists; (split; [vm_compute; reflexivity|]);
         split; vm_compute; reflexivity).
Qed.

(** ** C3: the date after [@] *)

(** C3, counterexample.  The LOG value [1h@] contains an [@] and the text
    after it is not of the form yyyy-mm-dd, yet the message parses, with no
    date; and in [0h@2025-02-30] the date has the right form and is not a
    calendar date, yet the error is the format error about the hours. *)
Lemma C3_counterexample :
  getToken (sanitizeFirstLine (js "ABC-1 LOG:1h@")) "LOG" = Some (js "1h@")
  /\ test datePatternRe (js "") = false
  /\ (exists r, parseCommitMessage (js "ABC-1 LOG:1h@") = Ok r
                /\ logDate r = None)
  /\ getToken (sanitizeFirstLine (js "ABC-1 LOG:0h@2025-02-30")) "LOG"
     = Some (js "0h@2025-02-30")
  /\ test datePatternRe (js "2025-02-30") = true
  /\ isValidISODate (js "2025-02-30") = false
  /\ parseCommitMessage (js "ABC-1 LOG:0h@2025-02-30")
     = Throw (formatError "LOG hours must be a positive number.")
  /\ formatError "LOG hours must be a positive number." <> calendarError.
Proof.
  repeat split; try (vm_compute; reflexivity).
  - eexists; split; vm_compute; reflexivity.
  - vm_compute; discriminate.
Qed.

(** C3, as the code has it.  Take a message that passes the first checks and
    whose LOG value has an [@]: the duration is the text before the first
    [@], the date text the trimmed text after it.  The duration comes
    first: when it is not a duration its error is thrown, and when it is not
    positive the format error about the hours is thrown, whatever the date
    text.  With a valid positive duration and a date text that is not
    blank: if the date text is not four digits, a hyphen, two digits, a
    hyphen and two digits, parsing throws the format error "date must be
    yyyy-mm-dd."; if it has that form and does not name a day of the
    calendar in a year from 0100 on, parsing throws the calendar error,
    which is not a format error; otherwise the parse succeeds with that
    date.  With a blank date text the LOG value has no date of its own: the
    parse succeeds without a date when there is no DATE token, and the value
    of a DATE token is checked in the same way and becomes the date.
    [LOG:1h@2025-02-30] gives the calendar error, and so does
    [LOG:1h@0001-01-01]; [LOG:1h@2025/01/01] gives the format error. *)
Theorem C3_log_date_validation :
  (forall message timePart dateText,
     passesChecks message ->
     getToken (sanitizeFirstLine message) "LOG"
       = Some (timePart ++ 64 :: dateText) ->
     ~ In 64 timePart ->
     (forall e, parseLogTime timePart = Throw e ->
                parseCommitMessage message = Throw e)
     /\ (forall hours,
           parseLogTime timePart = Ok hours -> gt hours zero = false ->
           parseCommitMessage message
           = Throw (formatError "LOG hours must be a positive number."))
     /\ (forall hours,
           parseLogTime timePart = Ok hours -> gt hours zero = true ->
           (trim dateText <> [] ->
            ((~ exists y mo d, isoDateText (trim dateText) y mo d) ->
             parseCommitMessage message
             = Throw (formatError "date must be yyyy-mm-dd."))
            /\ (forall y mo d,
                  isoDateText (trim dateText) y mo d ->
                  ~ calendarDate (digitsVal y) (digitsVal mo) (digitsVal d) ->
                  parseCommitMessage message = Throw calendarError)
            /\ (forall y mo d,
                  isoDateText (trim dateText) y mo d ->
                  calendarDate (digitsVal y) (digitsVal mo) (digitsVal d) ->
                  exists r, parseCommitMessage message = Ok r
                            /\ logDate r = Some (trim dateText)
                            /\ logHours r = Some hours))
           /\ (trim dateText = [] ->
               (getToken (sanitizeFirstLine message) "DATE" = None ->
                exists r, parseCommitMessage message = Ok r
                          /\ logDate r = None /\ logHours r = Some hours)
               /\ (forall dateToken,
                     getToken (sanitizeFirstLine message) "DATE" = Some dateToken ->
                     ((~ exists y mo d, isoDateText dateToken y mo d) ->
                      parseCommitMessage message
                      = Throw (formatError "date must be yyyy-mm-dd."))
                     /\ (forall y mo d,
                           isoDateText dateToken y mo d ->
                           ~ calendarDate (digitsVal y) (digitsVal mo) (digitsVal d) ->
                           parseCommitMessage message = Throw calendarError)
                     /\ (forall y mo d,
                           isoDateText dateToken y mo d ->
                           calendarDate (digitsVal y) (digitsVal mo) (digitsVal d) ->
                           exists r, parseCommitMessage message = Ok r
                                     /\ logDate r = Some dateToken
                                     /\ logHours r = Some hours)))))
  /\ parseCommitMessage (js "ABC-1 LOG:1h@2025-02-30") = Throw calendarError
  /\ parseCommitMessage (js "ABC-1 LOG:1h@2025/01/01")
     = Throw (formatError "date must be yyyy-mm-dd.")
  /\ parseCommitMessage (js "ABC-1 LOG:1h@0001-01-01") = Throw calendarError
  /\ isFormatError calendarError = false
  /\ isFormatError (formatError "date must be yyyy-mm-dd.") = true.
Proof.
  split; [|repeat split; vm_compute; reflexivity].
  intros message timePart dateText Hchk Hlog Hat.
  destruct (parse_of_section _ Hchk) as (Hthrow & Hok); cbv zeta in *.
  split; [|split].
  - intros e Ht; apply Hthrow; rewrite Hlog.
    now apply logSection_time_error.
  - intros hours Ht Hpos; apply Hthrow; rewrite Hlog.
    now apply (logSection_not_positive _ _ _ hours).
  - intros hours Ht Hpos; split.
    + intros Hd; apply (parse_checked_date _ _ _ Hchk).
      rewrite Hlog; now apply logSection_inline.
    + intros Hd.
      assert (E : logSection (getToken (sanitizeFirstLine message) "LOG")
                             (getToken (sanitizeFirstLine message) "DATE")
                  = match getToken (sanitizeFirstLine message) "DATE" with
                    | Some dateToken =>
                        logDate <- checkDate dateToken ;;
                        Ok (Some hours, Some logDate)
                    | None => Ok (Some hours, None)
                    end).
      { rewrite Hlog at 1.
        rewrite (logSection_blank_date _ _ _ _ Hat Ht Hpos Hd).
        now rewrite truthyText_getToken. }
      split.
      * intros Hnone; apply Hok; rewrite E, Hnone; reflexivity.
      * intros dateToken Hsome; apply (parse_checked_date _ _ _ Hchk).
        rewrite E, Hsome; reflexivity.
Qed.

Lemma C3_witness :
  parseCommitMessage (js "PAY-7 STATUS:Build LOG:45m@ 2023-02-29")
  = Throw calendarError.
Proof.
  refine (proj1 (proj2 (proj1 (proj2 (proj2 (proj1 C3_log_date_validation
            (js "PAY-7 STATUS:Build LOG:45m@ 2023-02-29")
            (js "45m") (js " 2023-02-29") _ _ _)) (ofRatio 3 4) _ _) _))
            (js "2023") (js "02") (js "29") _ _).
  - repeat split; vm_compute; discriminate.
  - vm_compute; reflexivity.
  - vm_compute; intuition discriminate.
  - vm_compute; reflexivity.
  - vm_compute; reflexivity.
  - vm_compute; discriminate.
  - repeat split; vm_compute; reflexivity.
  - vm_compute; intros (_ & _ & _ & H); exact (H eq_refl).
Defined.

(** ** C4: one token per name *)

(** C4, counterexample.  The line [ABC-1 LOG:1h LOG:2h STATUS:a STATUS:b]
    has two matches for LOG, and the error names STATUS; the line
    [OPS55 LOG:1h LOG:2h] has two matches for LOG, and the error is about the
    issue key. *)
Lemma C4_counterexample :
  hits (sanitizeFirstLine (js "ABC-1 LOG:1h LOG:2h STATUS:a STATUS:b")) "LOG" = 2%nat
  /\ parseCommitMessage (js "ABC-1 LOG:1h LOG:2h STATUS:a STATUS:b")
     = Throw (formatError "only one STATUS token is allowed.")
  /\ formatError "only one STATUS token is allowed."
     <> formatError "only one LOG token is allowed."
  /\ hits (sanitizeFirstLine (js "OPS55 LOG:1h LOG:2h")) "LOG" = 2%nat
  /\ parseCommitMessage (js "OPS55 LOG:1h LOG:2h")
     = Throw (formatError
                "missing or invalid JIRA issue key at start (e.g., ABC-123).")
  /\ formatError "missing or invalid JIRA issue key at start (e.g., ABC-123)."
     <> formatError "only one LOG token is allowed.".
Proof.
  repeat split; try (vm_compute; reflexivity); vm_compute; discriminate.
Qed.

(** C4, as the code has it.  Take a message that is not blank and whose
    first line starts with an issue key.  If some reserved name has more than
    one match, parsing throws the format error "only one NAME token is
    allowed." for the first such name in the order of [TOKEN_NAMES], whatever
    the token values are.  Two STATUS, LOG, COMMENT or PHASE tokens are
    rejected that way, also next to a malformed LOG value. *)
Theorem C4_one_token_per_name :
  (forall message before name after,
     trim message <> [] ->
     exec issueKeyRe (sanitizeFirstLine message) <> None ->
     TOKEN_NAMES = before ++ name :: after ->
     (forall b, In b before -> (hits (sanitizeFirstLine message) b <= 1)%nat) ->
     (1 < hits (sanitizeFirstLine message) name)%nat ->
     parseCommitMessage message
     = Throw (formatError ("only one " ++ name ++ " token is allowed.")))
  /\ parseCommitMessage (js "ABC-1 STATUS:In Progress STATUS:Done")
     = Throw (formatError "only one STATUS token is allowed.")
  /\ parseCommitMessage (js "ABC-1 LOG:1h@2025-10-01 LOG:2h@2025-10-02")
     = Throw (formatError "only one LOG token is allowed.")
  /\ parseCommitMessage (js "ABC-1 COMMENT:one COMMENT:two")
     = Throw (formatError "only one COMMENT token is allowed.")
  /\ parseCommitMessage (js "ABC-1 PHASE:Design PHASE:Development")
     = Throw (formatError "only one PHASE token is allowed.")
  /\ parseCommitMessage (js "ABC-1 DATE:2025-01-01 DATE:2025-01-02")
     = Throw (formatError "only one DATE token is allowed.")
  /\ parseCommitMessage (js "ABC-1 CAT:a CAT:b")
     = Throw (formatError "only one CAT token is allowed.")
  /\ parseCommitMessage (js "ABC-1 READY:y READY:n")
     = Throw (formatError "only one READY token is allowed.")
  /\ parseCommitMessage (js "ABC-1 LOG:soon@never READY:y READY:n")
     = Throw (formatError "only one READY token is allowed.").
Proof.
  split; [|repeat split; vm_compute; reflexivity].
  intros message before name after Hne Hkey Hnames Hbefore Hdup.
  unfold parseCommitMessage.
  destruct (trim message) as [|c t]; [congruence|].
  destruct (exec issueKeyRe (sanitizeFirstLine message)) as [k|]; [|congruence].
  rewrite Hnames, forEach_duplicate; [reflexivity| |exact Hdup].
  apply forallb_forall; intros b Hb; apply Nat.leb_le; now apply Hbefore.
Qed.

Lemma C4_witness :
  parseCommitMessage (js "ABC-1 LOG:1h LOG:2h")
  = Throw (formatError "only one LOG token is allowed.").
Proof.
  refine (proj1 C4_one_token_per_name (js "ABC-1 LOG:1h LOG:2h")
            ["STATUS"%string] "LOG"%string
            ["COMMENT"; "PHASE"; "DATE"; "CAT"; "READY"]%string _ _ _ _ _).
  - vm_compute; discriminate.
  - vm_compute; discriminate.
  - reflexivity.
  - intros b [<-|[]]; vm_compute; lia.
  - vm_compute; lia.
Defined.

(** ** C5: the order of the tokens *)

(** C5.  However the four tokens COMMENT:Refactor, LOG:2.5h@2025-10-01,
    STATUS:In Progress and PHASE:Development are ordered after the issue key
    PAY-101, the parse succeeds with status [In Progress], hours 2.5, date
    2025-10-01, comment [Refactor] and phase [Development]. *)
Theorem C5_token_order_independence :
  forall tokens,
    Permutation
      [js "COMMENT:Refactor"; js "LOG:2.5h@2025-10-01";
       js "STATUS:In Progress"; js "PHASE:Development"] tokens ->
    exists r,
      parseCommitMessage (commitLine (js "PAY-101") tokens) = Ok r
      /\ issue r = js "PAY-101"
      /\ status r = Some (js "In Progress")
      /\ logHours r = Some (ofRatio 5 2)
      /\ valueOf (ofRatio 5 2) = Some (5 # 2)%Q
      /\ logDate r = Some (js "2025-10-01")
      /\ comment r = Some (js "Refactor")
      /\ phase r = Some (js "Development").
Proof.
  intros tokens Hp; apply permutations_complete in Hp.
  revert tokens Hp; apply Forall_forall.
  repeat (constructor;
          [eexists; split; [vm_compute; reflexivity|];
           repeat split; vm_compute; reflexivity|]).
  constructor.
Qed.

Lemma C5_witness :
  commitLine (js "PAY-101")
    [js "PHASE:Development"; js "STATUS:In Progress";
     js "LOG:2.5h@2025-10-01"; js "COMMENT:Refactor"]
  = js "PAY-101 PHASE:Development STATUS:In Progress LOG:2.5h@2025-10-01 COMMENT:Refactor"
  /\ exists r,
       parseCommitMessage
         (js "PAY-101 PHASE:Development STATUS:In Progress LOG:2.5h@2025-10-01 COMMENT:Refactor")
       = Ok r
       /\ issue r = js "PAY-101"
       /\ status r = Some (js "In Progress")
       /\ logHours r = Some (ofRatio 5 2)
       /\ valueOf (ofRatio 5 2) = Some (5 # 2)%Q
       /\ logDate r = Some (js "2025-10-01")
       /\ comment r = Some (js "Refactor")
       /\ phase r = Some (js "Development").
Proof.
  split; [reflexivity|].
  refine (C5_token_order_independence
            [js "PHASE:Development"; js "STATUS:In Progress";
             js "LOG:2.5h@2025-10-01"; js "COMMENT:Refactor"] _).
  apply Permutation_rev.
Defined.

(** ** C6: the three forms of a duration *)

(** C6, counterexample.  [1:13] and [73m] are the same duration, 73 minutes,
    yet the two forms give different Numbers: 1 + 13/60 is rounded twice
    and 73/60 once, and the results differ in the last bit. *)
Lemma C6_counterexample :
  (60 * digitsVal (js "1") + digitsVal (js "13") = digitsVal (js "73"))%Z
  /\ parseLogTime (js "1:13") = Ok (S754_finite false 5479379546634104 (-52))
  /\ parseLogTime (js "73m") = Ok (S754_finite false 5479379546634103 (-52))
  /\ (exists r, parseCommitMessage (js "ABC-1 LOG:1:13") = Ok r
                /\ logHours r = Some (S754_finite false 5479379546634104 (-52)))
  /\ (exists r, parseCommitMessage (js "ABC-1 LOG:73m") = Ok r
                /\ logHours r = Some (S754_finite false 5479379546634103 (-52))).
Proof.
  repeat split; try (vm_compute; reflexivity);
    (eexists; split; vm_compute; reflexivity).
Qed.

(** C6, as the code has it.  [LOG:90m], [LOG:1:30] and [LOG:1.5h] all give
    1.5 hours.  The forms in general: digits, optionally a point and digits,
    then [h] or [H], give the Number nearest to that decimal; digits, a
    colon and one or two digits give hours plus minutes over 60 when the
    minutes are below 60, and the format error about minutes otherwise;
    digits then [m] or [M] give the minutes over 60.  The first pattern that
    matches decides, and on each of these forms it is the pattern of that
    form.  Equal durations in two forms need not give the same Number:
    [1:13] and [73m] do not. *)
Theorem C6_log_duration_forms :
  ((exists r, parseCommitMessage (js "ABC-1 LOG:90m") = Ok r
              /\ logHours r = Some (ofRatio 3 2))
   /\ (exists r, parseCommitMessage (js "ABC-1 LOG:1:30") = Ok r
                 /\ logHours r = Some (ofRatio 3 2))
   /\ (exists r, parseCommitMessage (js "ABC-1 LOG:1.5h") = Ok r
                 /\ logHours r = Some (ofRatio 3 2))
   /\ valueOf (ofRatio 3 2) = Some (3 # 2)%Q)
  /\ (forall ds c,
        ds <> [] -> forallb isDigit ds = true -> isH c = true ->
        parseLogTime (ds ++ [c]) = Ok (ofRatio (digitsVal ds) 1))
  /\ (forall ds fs c,
        ds <> [] -> forallb isDigit ds = true ->
        fs <> [] -> forallb isDigit fs = true -> isH c = true ->
        parseLogTime (ds ++ 46 :: fs ++ [c])
        = Ok (ofRatio (digitsVal (ds ++ fs)) (10 ^ Z.of_nat (length fs))))
  /\ (forall hs ms,
        hs <> [] -> forallb isDigit hs = true ->
        ms <> [] -> forallb isDigit ms = true -> (length ms <= 2)%nat ->
        parseLogTime (hs ++ colon :: ms)
        = if (60 <=? digitsVal ms)%Z
          then Throw (formatError "LOG minutes must be < 60 for h:mm.")
          else Ok (add (ofZ (digitsVal hs)) (div (ofZ (digitsVal ms)) (ofZ 60))))
  /\ (forall ds c,
        ds <> [] -> forallb isDigit ds = true -> isM c = true ->
        parseLogTime (ds ++ [c]) = Ok (div (ofZ (digitsVal ds)) (ofZ 60)))
  /\ (exists a b,
        parseLogTime (js "1:13") = Ok a /\ parseLogTime (js "73m") = Ok b
        /\ a <> b).
Proof.
  split; [|split; [|split; [|split; [|split]]]].
  6:{ do 2 eexists; split; [vm_compute; reflexivity|].
      split; [vm_compute; reflexivity|discriminate]. }
  - repeat split; try (eexists; split; vm_compute; reflexivity).
  - intros ds c Hne Hd Hc; unfold parseLogTime.
    destruct (exec_hours_int ds c Hne Hd Hc) as (h & -> & ->).
    now rewrite parseFloat_digits.
  - intros ds fs c Hne Hd Hnf Hf Hc.
    replace (ds ++ 46 :: fs ++ [c]) with ((ds ++ 46 :: fs) ++ [c])
      by (now rewrite <- app_assoc).
    unfold parseLogTime.
    destruct (exec_hours_decimal ds fs c Hne Hd Hnf Hf Hc) as (h & -> & ->).
    now rewrite parseFloat_decimal.
  - intros hs ms Hh Hdh Hm Hdm Hlen; unfold parseLogTime.
    assert (Hno : exec hoursRe (hs ++ colon :: ms) = None).
    { unfold hoursRe; apply exec_group_then_last_none; [reflexivity|].
      intros w c Hw; apply isDigit_not_H.
      apply (last_digit ms w c Hm Hdm (hs ++ [colon])).
      now rewrite <- app_assoc. }
    rewrite Hno.
    destruct (exec_hourMinute hs ms Hh Hdh Hm Hdm Hlen) as (h & -> & -> & ->).
    rewrite !parseInt_digits by assumption.
    rewrite (sixty_leb _ (minutes_below_100 _ Hdm Hlen)).
    reflexivity.
  - intros ds c Hne Hd Hc; unfold parseLogTime.
    assert (Hno1 : exec hoursRe (ds ++ [c]) = None).
    { unfold hoursRe; apply exec_group_then_last_none; [reflexivity|].
      intros w c' Hw; apply app_inj_tail in Hw as [_ <-].
      destruct (isM_cases _ Hc) as [-> | ->]; reflexivity. }
    assert (Hno2 : exec hourMinuteRe (ds ++ [c]) = None).
    { apply exec_hourMinute_none.
      intros w c' Hw; apply app_inj_tail in Hw as [_ <-].
      destruct (isM_cases _ Hc) as [-> | ->]; reflexivity. }
    rewrite Hno1, Hno2.
    assert (Hex : exists h, exec minutesRe (ds ++ [c]) = Some h /\ groupText 1 h = ds).
    { unfold minutesRe; apply exec_group_then_last; [reflexivity|exact Hc|].
      exists (MState (lastp None ds) [c] []); split; [|reflexivity].
      apply digits_rep; auto; discriminate. }
    destruct Hex as (h & -> & ->).
    now rewrite parseInt_digits.
Qed.

Lemma C6_witness :
  parseLogTime (js "1:75")
  = Throw (formatError "LOG minutes must be < 60 for h:mm.")
  /\ parseLogTime (js "0:45") = Ok (ofRatio 3 4)
  /\ parseLogTime (js "2.25H") = Ok (ofRatio 9 4)
  /\ parseLogTime (js "3h") = Ok (ofZ 3)
  /\ parseLogTime (js "15M") = Ok (ofRatio 1 4).
Proof.
  destruct C6_log_duration_forms as (_ & Hint & Hdec & Hhm & Hmin & _).
  split; [|split; [|split; [|split]]].
  - refine (Hhm (js "1") (js "75") _ _ _ _ _);
      try discriminate; try reflexivity; vm_compute; lia.
  - refine (Hhm (js "0") (js "45") _ _ _ _ _);
      try discriminate; try reflexivity; vm_compute; lia.
  - refine (Hdec (js "2") (js "25") 72 _ _ _ _ _);
      try discriminate; reflexivity.
  - refine (Hint (js "3") 104 _ _ _); try discriminate; reflexivity.
  - refine (Hmin (js "15") 77 _ _ _); try discriminate; reflexivity.
Defined.

(** ** C7: a DATE token without LOG *)

(** C7, counterexample.  [ABC-1 DATE:0099-12-31] has no LOG token, and its
    DATE value has the form yyyy-mm-dd and names a day of the calendar, the
    last day of the year 99; yet parsing throws the calendar error. *)
Lemma C7_counterexample :
  getToken (sanitizeFirstLine (js "ABC-1 DATE:0099-12-31")) "LOG" = None
  /\ getToken (sanitizeFirstLine (js "ABC-1 DATE:0099-12-31")) "DATE"
     = Some (js "0099-12-31")
  /\ isoDateText (js "0099-12-31") (js "0099") (js "12") (js "31")
  /\ (1 <= digitsVal (js "12") <= 12)%Z
  /\ (1 <= digitsVal (js "31")
      <= daysInMonth (digitsVal (js "0099")) (digitsVal (js "12")))%Z
  /\ parseCommitMessage (js "ABC-1 DATE:0099-12-31") = Throw calendarError.
Proof.
  split; [vm_compute; reflexivity|].
  split; [vm_compute; reflexivity|].
  split; [repeat split; vm_compute; reflexivity|].
  split; [vm_compute; split; discriminate|].
  split; [vm_compute; split; discriminate|].
  vm_compute; reflexivity.
Qed.

(** C7, as the code has it.  Take a message that passes the first checks.
    Without a LOG token, a DATE token is put through the same two checks: a
    value that is not four digits, a hyphen, two digits, a hyphen and two
    digits throws the format error; a value of that form that does not name
    a day of the calendar in a year from 0100 on throws the calendar error;
    otherwise the parse succeeds with the DATE value as [logDate] and no
    [logHours].  Without a DATE token the parse succeeds with no [logDate]
    when there is no LOG token either, and when the LOG value is a valid
    positive duration with no [@], or with nothing but white space after its
    first [@].  A successful parse has no [logDate] exactly when there is
    no DATE token and the LOG value, if any, has no date of its own. *)
Theorem C7_standalone_date :
  (forall message dateToken,
     passesChecks message ->
     getToken (sanitizeFirstLine message) "LOG" = None ->
     getToken (sanitizeFirstLine message) "DATE" = Some dateToken ->
     ((~ exists y mo d, isoDateText dateToken y mo d) ->
      parseCommitMessage message
        = Throw (formatError "date must be yyyy-mm-dd."))
     /\ (forall y mo d,
           isoDateText dateToken y mo d ->
           ~ calendarDate (digitsVal y) (digitsVal mo) (digitsVal d) ->
           parseCommitMessage message = Throw calendarError)
     /\ (forall y mo d,
           isoDateText dateToken y mo d ->
           calendarDate (digitsVal y) (digitsVal mo) (digitsVal d) ->
           exists r, parseCommitMessage message = Ok r
                     /\ logDate r = Some dateToken /\ logHours r = None))
  /\ (forall message,
        passesChecks message ->
        getToken (sanitizeFirstLine message) "DATE" = None ->
        (getToken (sanitizeFirstLine message) "LOG" = None ->
         exists r, parseCommitMessage message = Ok r
                   /\ logDate r = None /\ logHours r = None)
        /\ (forall raw hours,
              getToken (sanitizeFirstLine message) "LOG" = Some raw ->
              ~ In 64 raw ->
              parseLogTime raw = Ok hours -> gt hours zero = true ->
              exists r, parseCommitMessage message = Ok r
                        /\ logDate r = None /\ logHours r = Some hours)
        /\ (forall timePart dateText hours,
              getToken (sanitizeFirstLine message) "LOG"
                = Some (timePart ++ 64 :: dateText) ->
              ~ In 64 timePart -> trim dateText = [] ->
              parseLogTime timePart = Ok hours -> gt hours zero = true ->
              exists r, parseCommitMessage message = Ok r
                        /\ logDate r = None /\ logHours r = Some hours))
  /\ (forall message r,
        parseCommitMessage message = Ok r ->
        (logDate r = None
         <-> getToken (sanitizeFirstLine message) "DATE" = None
             /\ forall raw,
                  getToken (sanitizeFirstLine message) "LOG" = Some raw ->
                  noInlineDate raw))
  /\ (exists r, parseCommitMessage (js "ABC-1 DATE:2025-10-12") = Ok r
                /\ logDate r = Some (js "2025-10-12") /\ logHours r = None)
  /\ parseCommitMessage (js "ABC-1 DATE:2025-02-30") = Throw calendarError
  /\ parseCommitMessage (js "ABC-1 DATE:2025/10/12")
     = Throw (formatError "date must be yyyy-mm-dd.")
  /\ parseCommitMessage (js "ABC-1 DATE:0099-12-31") = Throw calendarError
  /\ (exists r, parseCommitMessage (js "ABC-1 LOG:1h@") = Ok r
                /\ logDate r = None /\ logHours r = Some (ofZ 1)).
Proof.
  split; [|split; [|split]].
  - intros message dateToken Hchk Hlog Hdate.
    apply (parse_checked_date _ _ _ Hchk).
    rewrite Hlog, Hdate.
    apply logSection_date_only, (getToken_nonempty _ _ _ Hdate).
  - intros message Hchk Hdate.
    destruct (parse_of_section _ Hchk) as (_ & Hok); cbv zeta in Hok.
    split; [|split].
    + intros Hlog; apply Hok; rewrite Hlog, Hdate; reflexivity.
    + intros raw hours Hlog Hat Ht Hpos; apply Hok; rewrite Hlog, Hdate.
      apply (logSection_no_at raw None hours); auto.
      exact (getToken_nonempty _ _ _ Hlog).
    + intros timePart dateText hours Hlog Hat Hd Ht Hpos.
      apply Hok; rewrite Hlog, Hdate.
      apply (logSection_blank_date timePart dateText None hours); auto.
  - exact parse_no_date.
  - repeat split; try (vm_compute; reflexivity);
      (eexists; split; [vm_compute; reflexivity|];
       repeat split; vm_compute; reflexivity).
Qed.

Lemma C7_witness :
  parseCommitMessage (js "QA-12 COMMENT:retest DATE:2023-02-29")
  = Throw calendarError.
Proof.
  refine (proj1 (proj2 (proj1 C7_standalone_date
            (js "QA-12 COMMENT:retest DATE:2023-02-29") (js "2023-02-29") _ _ _))
            (js "2023") (js "02") (js "29") _ _).
  - repeat split; vm_compute; discriminate.
  - vm_compute; reflexivity.
  - vm_compute; reflexivity.
  - repeat split; vm_compute; reflexivity.
  - vm_compute; intros (_ & _ & _ & H); exact (H eq_refl).
Defined.

(** ** C8: PHASE and CAT *)

(** C8.  In a successful parse, [phase] is the (trimmed) PHASE value when
    there is a PHASE token, else the (trimmed) CAT value when there is a CAT
    token, else null.  Neither token can make the parse fail, so a line with
    both is legal, and PHASE wins. *)
Theorem C8_phase_cat_resolution :
  (forall message r,
     parseCommitMessage message = Ok r ->
     (forall p, getToken (sanitizeFirstLine message) "PHASE" = Some p ->
                phase r = Some p /\ trim p = p)
     /\ (getToken (sanitizeFirstLine message) "PHASE" = None ->
         forall c, getToken (sanitizeFirstLine message) "CAT" = Some c ->
                   phase r = Some c /\ trim c = c)
     /\ (getToken (sanitizeFirstLine message) "PHASE" = None ->
         getToken (sanitizeFirstLine message) "CAT" = None ->
         phase r = None))
  /\ (forall message e,
        passesChecks message ->
        parseCommitMessage message = Throw e ->
        logSection (getToken (sanitizeFirstLine message) "LOG")
                   (getToken (sanitizeFirstLine message) "DATE") = Throw e)
  /\ (exists r, parseCommitMessage (js "ABC-1 PHASE:Dev CAT:QA") = Ok r
                /\ phase r = Some (js "Dev"))
  /\ (exists r, parseCommitMessage (js "ABC-1 CAT:QA PHASE:Dev") = Ok r
                /\ phase r = Some (js "Dev"))
  /\ (exists r, parseCommitMessage (js "ABC-1 CAT:QA") = Ok r
                /\ phase r = Some (js "QA"))
  /\ (exists r, parseCommitMessage (js "ABC-1 STATUS:Build") = Ok r
                /\ phase r = None).
Proof.
  split; [|split; [exact parse_Throw_from_log|]].
  - intros message r Hok.
    destruct (parse_Ok_fields _ _ Hok) as (_ & _ & _ & Hph & _).
    split; [|split].
    + intros p Hp; split.
      * rewrite Hph, Hp; unfold resolvePhase.
        pose proof (getToken_nonempty _ _ _ Hp).
        destruct p; [congruence|reflexivity].
      * apply getToken_shape in Hp as (pre & gap & post & Hp); tauto.
    + intros Hp c Hc; split.
      * rewrite Hph, Hp, Hc; unfold resolvePhase; simpl.
        pose proof (getToken_nonempty _ _ _ Hc).
        destruct c; [congruence|reflexivity].
      * apply getToken_shape in Hc as (pre & gap & post & Hc); tauto.
    + intros H1 H2; rewrite Hph, H1, H2; reflexivity.
  - repeat split; eexists; split; vm_compute; reflexivity.
Qed.

Lemma C8_witness :
  exists r, parseCommitMessage (js "OPS-9 CAT:QA PHASE:Code Review") = Ok r
            /\ phase r = Some (js "Code Review")
            /\ trim (js "Code Review") = js "Code Review".
Proof.
  eexists; split; [vm_compute; reflexivity|].
  refine (proj1 (proj1 C8_phase_cat_resolution
            (js "OPS-9 CAT:QA PHASE:Code Review") _ _) (js "Code Review") _);
    vm_compute; reflexivity.
Defined.

(** ** C9: READY *)

(** C9.  In a successful parse, [ready] is null when there is no READY
    token; with a READY value, trimmed and lower-cased, it is true for y,
    yes, true and 1, false for n, no, false and 0, and null for anything
    else.  The READY value never makes the parse fail. *)
Theorem C9_ready_normalization :
  (forall message r,
     parseCommitMessage message = Ok r ->
     (getToken (sanitizeFirstLine message) "READY" = None -> ready r = None)
     /\ (forall v,
           getToken (sanitizeFirstLine message) "READY" = Some v ->
           (In (toLowerCase (trim v)) (map js ["y"; "yes"; "true"; "1"]%string) ->
            ready r = Some true)
           /\ (In (toLowerCase (trim v)) (map js ["n"; "no"; "false"; "0"]%string) ->
               ready r = Some false)
           /\ (~ In (toLowerCase (trim v)) (map js ["y"; "yes"; "true"; "1"]%string) ->
               ~ In (toLowerCase (trim v)) (map js ["n"; "no"; "false"; "0"]%string) ->
               ready r = None)))
  /\ (forall message e,
        passesChecks message ->
        parseCommitMessage message = Throw e ->
        logSection (getToken (sanitizeFirstLine message) "LOG")
                   (getToken (sanitizeFirstLine message) "DATE") = Throw e)
  /\ map (fun w => match parseCommitMessage (js "ABC-1 READY:" ++ js w) with
                   | Ok r => Some (ready r)
                   | Throw _ => None
                   end)
         ["Yes"; "true"; "1"; "Y"; "TRUE"; "No"; "false"; "0"; "N"; "nO";
          "maybe"; "2"; "yes please"]%string
     = [Some (Some true); Some (Some true); Some (Some true); Some (Some true);
        Some (Some true); Some (Some false); Some (Some false);
        Some (Some false); Some (Some false); Some (Some false);
        Some None; Some None; Some None]
  /\ (exists r, parseCommitMessage (js "ABC-1 STATUS:Build") = Ok r
                /\ ready r = None).
Proof.
  split; [|split; [exact parse_Throw_from_log|]].
  - intros message r Hok.
    destruct (parse_Ok_fields _ _ Hok) as (_ & _ & _ & _ & Hr & _).
    split.
    + intros H; now rewrite Hr, H.
    + intros v Hv; rewrite Hr, Hv; apply parseReady_cases.
  - split; [vm_compute; reflexivity|].
    eexists; split; vm_compute; reflexivity.
Qed.

Lemma C9_witness :
  exists r, parseCommitMessage (js "PEB-4 READY:  tRuE") = Ok r
            /\ ready r = Some true.
Proof.
  eexists; split; [vm_compute; reflexivity|].
  refine (proj1 (proj2 (proj1 C9_ready_normalization
            (js "PEB-4 READY:  tRuE") _ _) (js "tRuE") _) _).
  - vm_compute; reflexivity.
  - vm_compute; reflexivity.
  - vm_compute; auto.
Defined.

(** ** C10: the date of LOG before the DATE token *)

(** C10.  When the LOG value carries a date after [@] that passes both
    checks, the parse succeeds with that date whatever the line has as DATE
    token: nothing is assumed of it, and a DATE value of the wrong form or
    off the calendar raises no error.  More generally, once the LOG value
    has a date text after its [@], the LOG section gives the same outcome
    for every DATE token. *)
Theorem C10_inline_date_wins :
  (forall message timePart dateText hours,
     passesChecks message ->
     getToken (sanitizeFirstLine message) "LOG"
       = Some (timePart ++ 64 :: dateText) ->
     ~ In 64 timePart ->
     parseLogTime timePart = Ok hours ->
     gt hours zero = true ->
     test datePatternRe (trim dateText) = true ->
     isValidISODate (trim dateText) = true ->
     exists r, parseCommitMessage message = Ok r
               /\ logDate r = Some (trim dateText)
               /\ logHours r = Some hours)
  /\ (forall timePart dateText dateToken dateToken',
        ~ In 64 timePart -> trim dateText <> [] ->
        logSection (Some (timePart ++ 64 :: dateText)) dateToken
        = logSection (Some (timePart ++ 64 :: dateText)) dateToken')
  /\ (getToken (sanitizeFirstLine (js "ABC-1 LOG:1h@2025-10-13 DATE:garbage")) "DATE"
        = Some (js "garbage")
      /\ test datePatternRe (js "garbage") = false
      /\ exists r, parseCommitMessage (js "ABC-1 LOG:1h@2025-10-13 DATE:garbage") = Ok r
                   /\ logDate r = Some (js "2025-10-13"))
  /\ (getToken (sanitizeFirstLine (js "ABC-1 DATE:2025-02-30 LOG:1h@2025-10-13")) "DATE"
        = Some (js "2025-02-30")
      /\ isValidISODate (js "2025-02-30") = false
      /\ exists r, parseCommitMessage (js "ABC-1 DATE:2025-02-30 LOG:1h@2025-10-13") = Ok r
                   /\ logDate r = Some (js "2025-10-13")).
Proof.
  split; [|split; [exact logSection_ignores_date|]].
  - intros message timePart dateText hours Hchk Hlog Hat Htime Hpos Hp Hv.
    assert (Hd : trim dateText <> []).
    { intros E; rewrite E in Hp; vm_compute in Hp; discriminate. }
    destruct (parse_after_checks _ Hchk) as (k & _ & E).
    rewrite E, Hlog, (logSection_inline _ _ _ _ Hat Htime Hpos Hd).
    rewrite (proj2 (proj2 (checkDate_cases _)) Hp Hv); simpl.
    eexists; split; [reflexivity|auto].
  - split; (split; [vm_compute; reflexivity|]);
      (split; [vm_compute; reflexivity|]);
      eexists; split; vm_compute; reflexivity.
Qed.

Lemma C10_witness :
  exists r, parseCommitMessage (js "OPS-3 DATE:31/12/2024 LOG:2:15@2024-02-29") = Ok r
            /\ logDate r = Some (js "2024-02-29")
            /\ logHours r = Some (ofRatio 9 4).
Proof.
  refine (proj1 C10_inline_date_wins
            (js "OPS-3 DATE:31/12/2024 LOG:2:15@2024-02-29")
            (js "2:15") (js "2024-02-29") (ofRatio 9 4) _ _ _ _ _ _ _).
  - repeat split; vm_compute; discriminate.
  - vm_compute; reflexivity.
  - vm_compute; intuition discriminate.
  - vm_compute; reflexivity.
  - vm_compute; reflexivity.
  - vm_compute; reflexivity.
  - vm_compute; reflexivity.
Defined.

(** * Lemmas for the further properties *)

(** ** The sanitizer *)

Section Sanitizer.

Lemma dropRun_space (s : jsstring) : dropRun isSpace s = trimStart s.
Proof. induction s as [|c t IH]; simpl; [reflexivity|now rewrite IH]. Qed.

(** The first answer of a greedy star is the longest run. *)
Lemma reps_greedy_head (p : char -> bool) (l : jsstring) :
  forall pv cs,
  exists x, hd_error (rev (reps p 0 None pv l cs)) = Some x
            /\ rest x = dropRun p l.
Proof.
  induction l as [|c t IH]; intros pv cs.
  - simpl; eexists; split; reflexivity.
  - cbn [reps dropRun Nat.pred option_map]; destruct (p c).
    + destruct (IH (Some c) cs) as (x & Hx & Hr).
      exists x; split; [|exact Hr].
      change ([MState pv (c :: t) cs] ++ reps p 0 None (Some c) t cs)
        with (MState pv (c :: t) cs :: reps p 0 None (Some c) t cs).
      cbn [rev]; destruct (rev (reps p 0 None (Some c) t cs));
        [discriminate|exact Hx].
    + simpl; eexists; split; reflexivity.
Qed.

(** [^p+] at the start: what is left after removing the match. *)
Lemma removeFirst_leading_run (p : char -> bool) (s : jsstring) :
  removeFirst (Seq Bol (Rep true 1 None p)) s = dropRun p s.
Proof.
  unfold removeFirst; rewrite exec_anchored.
  destruct s as [|c t]; [reflexivity|].
  cbn [m prev rest caps reps dropRun Nat.pred option_map app].
  destruct (p c); [|reflexivity].
  destruct (reps_greedy_head p t (Some c) []) as (x & Hx & Hr).
  destruct (rev (reps p 0 None (Some c) t [])) as [|y ys]; [discriminate|].
  injection Hx as ->; simpl; exact Hr.
Qed.

Lemma removeFirst_bom (s : jsstring) : removeFirst bomRe s = dropBOM s.
Proof.
  unfold removeFirst, bomRe; rewrite exec_anchored.
  destruct s as [|c t]; [reflexivity|].
  cbn [m rest dropBOM]; rewrite (N.eqb_sym 65279 c).
  destruct (c =? 65279); reflexivity.
Qed.

End Sanitizer.

Section FirstLine.

Lemma m_newline (pv : option char) (s : jsstring) (cs : list (nat * jsstring)) :
  m newlineRe (MState pv s cs) = [] <-> startsNewline s = false.
Proof.
  unfold newlineRe.
  change (m (Seq ?a ?b) ?z) with (flat_map (m b) (m a z)).
  destruct s as [|c t].
  - simpl; split; reflexivity.
  - cbn [m prev rest caps reps Nat.pred option_map app startsNewline].
    rewrite (N.eqb_sym 13 c).
    destruct (c =? 13) eqn:E13.
    + assert (Hc : (10 =? c) = false)
        by (apply N.eqb_neq; apply N.eqb_eq in E13; lia).
      rewrite (N.eqb_sym c 10), Hc.
      destruct t as [|d u];
        cbn [reps app rev flat_map rest orb andb]; rewrite Hc.
      * split; reflexivity.
      * rewrite (N.eqb_sym 10 d); destruct (d =? 10); simpl; split;
          try reflexivity; discriminate.
    + cbn [app rev flat_map m rest andb]; rewrite (N.eqb_sym 10 c).
      destruct (c =? 10); simpl; split; try reflexivity; discriminate.
Qed.

Lemma firstLineText_prefix (s : jsstring) :
  firstn (length (firstLineText s)) s = firstLineText s.
Proof.
  induction s as [|c t IH]; [reflexivity|].
  cbn [firstLineText]; destruct (startsNewline (c :: t)); [reflexivity|].
  simpl; now rewrite IH.
Qed.

Lemma search_newline (s : jsstring) :
  forall i pv,
    match search newlineRe i pv s with
    | Some h => h_start h = (i + length (firstLineText s))%nat
    | None => firstLineText s = s
    end.
Proof.
  induction s as [|c t IH]; intros i pv.
  - simpl; reflexivity.
  - cbn [search firstLineText].
    destruct (m newlineRe (MState pv (c :: t) [])) as [|x xs] eqn:E.
    + apply (proj1 (m_newline pv (c :: t) [])) in E; rewrite E.
      specialize (IH (S i) (Some c)).
      destruct (search newlineRe (S i) (Some c) t) as [h|].
      * rewrite IH; simpl; lia.
      * now rewrite IH.
    + destruct (startsNewline (c :: t)) eqn:Es.
      * simpl; lia.
      * rewrite (proj2 (m_newline pv (c :: t) []) Es) in E; discriminate.
Qed.

(** [split(/\r?\n/)[0]] is the text before the first line break. *)
Lemma splitFirst_newline (s : jsstring) :
  splitFirst newlineRe s = firstLineText s.
Proof.
  unfold splitFirst, exec; pose proof (search_newline s 0 None) as H.
  destruct (search newlineRe 0 None s) as [h|].
  - rewrite H; apply firstLineText_prefix.
  - now rewrite H.
Qed.

(** [sanitizeFirstLine] without patterns: the first line, without a byte
    order mark and zero-width code units at its start, trimmed. *)
Lemma sanitizeFirstLine_direct (message : jsstring) :
  sanitizeFirstLine message
  = trim (dropRun isZeroWidth (dropBOM (firstLineText message))).
Proof.
  unfold sanitizeFirstLine, trim, leadingSpaceRe, zeroWidthRe.
  rewrite splitFirst_newline, removeFirst_bom, !removeFirst_leading_run.
  now rewrite dropRun_space.
Qed.

End FirstLine.

Section FirstLineOnly.

Lemma firstLineText_no_lf (s : jsstring) : ~ In 10 (firstLineText s).
Proof.
  induction s as [|c t IH]; [intros []|].
  cbn [firstLineText]; destruct (startsNewline (c :: t)) eqn:E; [intros []|].
  intros [H|H]; [|now apply IH].
  subst c; discriminate.
Qed.

Lemma firstLineText_whole (s : jsstring) :
  ~ In 10 s -> firstLineText s = s.
Proof.
  induction s as [|c t IH]; intros H; [reflexivity|].
  cbn [firstLineText startsNewline].
  assert (Hc : (c =? 10) = false)
    by (apply N.eqb_neq; intros ->; apply H; now left).
  assert (Ht : match t with d :: _ => d =? 10 | [] => false end = false).
  { destruct t as [|d u]; [reflexivity|].
    apply N.eqb_neq; intros ->; apply H; right; now left. }
  rewrite Hc, Ht, andb_false_r; simpl.
  f_equal; apply IH; intros Hin; apply H; now right.
Qed.

(** The first line of a text with a line feed after [l]: it is [l], or [l]
    less the carriage return at its end. *)
Lemma firstLineText_app (l rest : jsstring) :
  ~ In 10 l ->
  firstLineText (l ++ 10 :: rest) = l
  \/ exists l', l = l' ++ [13] /\ firstLineText (l ++ 10 :: rest) = l'.
Proof.
  induction l as [|c t IH]; intros H.
  - left; reflexivity.
  - assert (Hc : (c =? 10) = false)
      by (apply N.eqb_neq; intros ->; apply H; now left).
    assert (Ht : ~ In 10 t) by (intros Hin; apply H; now right).
    cbn [app firstLineText startsNewline]; rewrite Hc; cbn [orb].
    destruct t as [|d u].
    + cbn [app]; rewrite N.eqb_refl, andb_true_r.
      destruct (N.eqb_spec c 13) as [->|Hne].
      * right; exists []; split; reflexivity.
      * left; reflexivity.
    + assert (Hd : (d =? 10) = false)
        by (apply N.eqb_neq; intros ->; apply Ht; now left).
      cbn [app]; rewrite Hd, andb_false_r.
      destruct (IH Ht) as [E|(l' & El & E)].
      * left; cbn [app] in E; now rewrite E.
      * right; exists (c :: l'); split; [now rewrite El|].
        cbn [app] in E; now rewrite E.
Qed.

Lemma trimStart_app_space (y : jsstring) (x : char) :
  isSpace x = true ->
  trimStart (y ++ [x])
  = match trimStart y with [] => [] | _ :: _ => trimStart y ++ [x] end.
Proof.
  intros Hx; induction y as [|c t IH]; simpl.
  - now rewrite Hx.
  - destruct (isSpace c); [exact IH|reflexivity].
Qed.

Lemma trimEnd_app_space (z : jsstring) (x : char) :
  isSpace x = true -> trimEnd (z ++ [x]) = trimEnd z.
Proof.
  intros Hx; unfold trimEnd; rewrite rev_app_distr; simpl; now rewrite Hx.
Qed.

(** A white space at the end does not survive trimming. *)
Lemma trim_app_space (y : jsstring) (x : char) :
  isSpace x = true -> trim (y ++ [x]) = trim y.
Proof.
  intros Hx; unfold trim; rewrite (trimStart_app_space _ _ Hx).
  destruct (trimStart y) as [|c u]; [reflexivity|].
  now apply trimEnd_app_space.
Qed.

Lemma dropBOM_snoc (l : jsstring) : dropBOM (l ++ [13]) = dropBOM l ++ [13].
Proof.
  destruct l as [|c t]; [reflexivity|].
  simpl; destruct (c =? 65279); reflexivity.
Qed.

Lemma dropRun_snoc (p : char -> bool) (l : jsstring) (x : char) :
  p x = false -> dropRun p (l ++ [x]) = dropRun p l ++ [x].
Proof.
  intros Hx; induction l as [|c t IH]; simpl.
  - now rewrite Hx.
  - destruct (p c); [exact IH|reflexivity].
Qed.

(** What follows the first line feed plays no part in the sanitized line. *)
Lemma sanitizeFirstLine_first_line (l rest : jsstring) :
  ~ In 10 l ->
  sanitizeFirstLine (l ++ 10 :: rest) = sanitizeFirstLine l.
Proof.
  intros H; rewrite !sanitizeFirstLine_direct, (firstLineText_whole l H).
  destruct (firstLineText_app l rest H) as [->|(l' & -> & ->)]; [reflexivity|].
  rewrite dropBOM_snoc, dropRun_snoc by reflexivity.
  now rewrite trim_app_space.
Qed.

Lemma trimStart_app_nonblank (l x : jsstring) :
  trimStart l <> [] -> trimStart (l ++ x) = trimStart l ++ x.
Proof.
  induction l as [|c t IH]; simpl; [congruence|].
  destruct (isSpace c); [exact IH|reflexivity].
Qed.

Lemma trim_app_nonblank (l x : jsstring) :
  trim l <> [] -> trim (l ++ x) <> [].
Proof.
  unfold trim; intros H.
  destruct (trimStart l) as [|c u] eqn:E; [exfalso; now apply H|].
  rewrite trimStart_app_nonblank by (rewrite E; discriminate).
  rewrite E; simpl app.
  rewrite (trimEnd_cons _ _ (trimStart_head _ _ _ E)); discriminate.
Qed.

End FirstLineOnly.

(** ** The issue key *)

Section IssueKey.

(** What a quantified class reaches, greedy or lazy. *)
Lemma rep_in (g : bool) (lo : nat) (hi : option nat) (p : char -> bool)
      (s y : mstate) :
  In y (m (Rep g lo hi p) s) <->
  exists w, rest s = w ++ rest y /\ forallb p w = true
            /\ (lo <= length w)%nat
            /\ (forall h, hi = Some h -> (length w <= h)%nat)
            /\ y = MState (lastp (prev s) w) (rest y) (caps s).
Proof.
  rewrite <- reps_in_bounded; simpl; destruct g; [|reflexivity].
  split; intros H; [now apply in_rev|now apply in_rev in H].
Qed.

Lemma lastp_digit (pv : option char) (w : jsstring) :
  w <> [] -> forallb isDigit w = true -> is_word (lastp pv w) = true.
Proof.
  intros Hne Hd; destruct w as [|x w'] using rev_ind; [congruence|].
  rewrite lastp_snoc, forallb_app in *; apply andb_true_iff in Hd as [_ Hx].
  simpl in Hx; rewrite andb_true_r in Hx.
  unfold is_word, isWordChar; now rewrite Hx, !orb_true_r.
Qed.

Lemma is_word_head (rest : jsstring) :
  is_word (hd_error rest) = false <->
  match rest with [] => True | c :: _ => isWordChar c = false end.
Proof. destruct rest; simpl; split; auto. Qed.

(** What the pattern of the issue key matches at the start of a line. *)
Lemma issueKey_shape (line : jsstring) (x : mstate) :
  In x (m (Seq (Grp 1 (Seq (Cls isUpper)
                      (Seq (Rep true 1 (Some 9%nat) isUpperOrDigit)
                      (Seq (Cls (N.eqb hyphen)) (Rep true 1 None isDigit)))))
               WordB)
          (MState None line [])) ->
  exists key rest,
    line = key ++ rest /\ keyShape key rest /\ lookup 1 (caps x) = Some key.
Proof.
  intros Hin.
  change (m (Seq ?a ?b) ?z) with (flat_map (m b) (m a z)) in Hin.
  apply in_flat_map in Hin as (s1 & H1 & Hw).
  change (m (Grp 1 ?r) ?z) with (map (set_cap 1 z) (m r z)) in H1.
  apply in_map_iff in H1 as (y & <- & Hy).
  change (m (Seq ?a ?b) ?z) with (flat_map (m b) (m a z)) in Hy.
  apply in_flat_map in Hy as (a1 & Ha1 & Hy).
  apply m_Cls_in in Ha1 as (u & t1 & Hl & Hu & ->).
  change (m (Seq ?a ?b) ?z) with (flat_map (m b) (m a z)) in Hy.
  apply in_flat_map in Hy as (a2 & Ha2 & Hy).
  apply rep_in in Ha2 as (mid & Hmid & Hpm & Hlo & Hhi & Ea2).
  change (m (Seq ?a ?b) ?z) with (flat_map (m b) (m a z)) in Hy.
  apply in_flat_map in Hy as (a3 & Ha3 & Hy).
  apply m_Cls_in in Ha3 as (h & t3 & Hr2 & Hh & ->).
  apply N.eqb_eq in Hh; subst h.
  apply rep_in in Hy as (ds & Hds & Hpd & Hlod & _ & Ey).
  simpl in Hl, Hmid, Hds.
  assert (Hline : line = (u :: mid ++ hyphen :: ds) ++ rest y).
  { rewrite Hl, Hmid, Hr2, Hds; simpl; now rewrite <- app_assoc. }
  destruct (set_cap_lookup 1 (MState None line []) y (u :: mid ++ hyphen :: ds) Hline)
    as [Hrest Hcap].
  assert (Hne : ds <> []) by (intros ->; simpl in Hlod; lia).
  change (m WordB ?z)
    with (if xorb (is_word (prev z)) (is_word (hd_error (rest z)))
          then [z] else []) in Hw.
  destruct (xorb _ _) eqn:Ex; [|destruct Hw].
  destruct Hw as [<-|[]].
  exists (u :: mid ++ hyphen :: ds), (rest y).
  split; [exact Hline|]; split; [|exact Hcap].
  exists u, mid, ds.
  split; [reflexivity|]; split; [exact Hu|]; split; [exact Hpm|].
  split; [split; [exact Hlo|exact (Hhi 9%nat eq_refl)]|].
  split; [exact Hne|]; split; [exact Hpd|].
  apply is_word_head.
  assert (Hp : is_word (prev y) = true)
    by (rewrite Ey; simpl; apply lastp_digit; auto).
  rewrite Hrest in Ex; simpl in Ex; rewrite Hp in Ex; simpl in Ex.
  now destruct (is_word (hd_error (rest y))).
Qed.

(** A line with an issue key at its start is matched. *)
Lemma issueKey_matches (key rest : jsstring) :
  keyShape key rest -> exec issueKeyRe (key ++ rest) <> None.
Proof.
  intros (u & mid & ds & -> & Hu & Hmid & [Hlo Hhi] & Hne & Hds & Hrest).
  unfold issueKeyRe; rewrite exec_anchored.
  set (s0 := MState None ((u :: mid ++ hyphen :: ds) ++ rest) []).
  set (y := MState (lastp (Some hyphen) ds) rest []).
  assert (Hin : In (set_cap 1 s0 y)
                   (m (Seq (Grp 1 (Seq (Cls isUpper)
                               (Seq (Rep true 1 (Some 9%nat) isUpperOrDigit)
                               (Seq (Cls (N.eqb hyphen)) (Rep true 1 None isDigit)))))
                           WordB) s0)).
  { change (m (Seq ?a ?b) ?z) with (flat_map (m b) (m a z)).
    apply in_flat_map; exists (set_cap 1 s0 y); split.
    - change (m (Grp 1 ?r) ?z) with (map (set_cap 1 z) (m r z)).
      apply in_map.
      change (m (Seq ?a ?b) ?z) with (flat_map (m b) (m a z)).
      apply in_flat_map.
      exists (advance u ((mid ++ hyphen :: ds) ++ rest) s0); split.
      { apply m_Cls_in; exists u, ((mid ++ hyphen :: ds) ++ rest); auto. }
      change (m (Seq ?a ?b) ?z) with (flat_map (m b) (m a z)).
      apply in_flat_map.
      exists (MState (lastp (Some u) mid) (hyphen :: ds ++ rest) []); split.
      { apply rep_in; exists mid; simpl; repeat split; auto.
        - now rewrite <- app_assoc.
        - intros h [= <-]; exact Hhi. }
      change (m (Seq ?a ?b) ?z) with (flat_map (m b) (m a z)).
      apply in_flat_map.
      exists (advance hyphen (ds ++ rest)
                (MState (lastp (Some u) mid) (hyphen :: ds ++ rest) [])); split.
      { apply m_Cls_in; exists hyphen, (ds ++ rest); repeat split. }
      apply rep_in; exists ds; simpl; repeat split; auto.
      + destruct ds; [congruence|simpl; lia].
      + intros h [=].
    - simpl.
      assert (Hp : is_word (lastp (Some hyphen) ds) = true)
        by (apply lastp_digit; auto).
      apply is_word_head in Hrest.
      rewrite Hp, Hrest; simpl; now left. }
  destruct (m _ s0); [destruct Hin|discriminate].
Qed.

(** The pattern of the issue key matches exactly the lines that start with
    an issue key. *)
Lemma issueKey_exec (line : jsstring) :
  (exists h, exec issueKeyRe line = Some h
             /\ exists rest, line = groupText 1 h ++ rest
                             /\ keyShape (groupText 1 h) rest)
  \/ (exec issueKeyRe line = None
      /\ forall key rest, line = key ++ rest -> ~ keyShape key rest).
Proof.
  destruct (exec issueKeyRe line) as [h|] eqn:E.
  - left; exists h; split; [reflexivity|].
    unfold issueKeyRe in E; rewrite exec_anchored in E.
    destruct (m _ _) as [|x xs] eqn:Em; [discriminate|].
    injection E as <-.
    assert (Hx : In x (x :: xs)) by now left.
    rewrite <- Em in Hx; apply issueKey_shape in Hx as (key & rest & Hl & Hk & Hc).
    exists rest; unfold groupText, group; simpl; rewrite Hc; auto.
  - right; split; [reflexivity|].
    intros key rest -> Hk; now apply issueKey_matches in Hk.
Qed.

End IssueKey.

(** ** What a parse can give *)

Section Outcomes.

Lemma forEach_Throw (line : jsstring) (names : list string) (e : string) :
  forEach (onlyOne line) names = Throw e ->
  exists n, In n names /\ e = duplicateError n /\ (1 < hits line n)%nat.
Proof.
  induction names as [|n t IH]; simpl; [discriminate|].
  unfold onlyOne at 1.
  destruct (Nat.ltb_spec 1 (hits line n)) as [Hlt|Hle]; simpl.
  - intros [= <-]; exists n; auto.
  - intros H; destruct (IH H) as (n' & Hin & He & Hh); eauto.
Qed.

Lemma forEach_outcome (line : jsstring) (names : list string) :
  forEach (onlyOne line) names = Ok tt
  \/ exists e, forEach (onlyOne line) names = Throw e.
Proof.
  destruct (forEach (onlyOne line) names) as [[]|e]; eauto.
Qed.

(** Where the errors of a parse come from. *)
Lemma parse_Throw_cases (message : jsstring) (e : string) :
  parseCommitMessage message = Throw e ->
  (trim message = [] /\ e = emptyError)
  \/ (trim message <> []
      /\ exec issueKeyRe (sanitizeFirstLine message) = None /\ e = keyError)
  \/ (trim message <> []
      /\ exec issueKeyRe (sanitizeFirstLine message) <> None
      /\ exists n, In n TOKEN_NAMES /\ e = duplicateError n
                   /\ (1 < hits (sanitizeFirstLine message) n)%nat)
  \/ (passesChecks message
      /\ logSection (getToken (sanitizeFirstLine message) "LOG")
                    (getToken (sanitizeFirstLine message) "DATE") = Throw e).
Proof.
  intros H.
  destruct (trim message) as [|c t] eqn:Et.
  { left; unfold parseCommitMessage in H; rewrite Et in H.
    injection H as <-; auto. }
  right.
  destruct (exec issueKeyRe (sanitizeFirstLine message)) as [k|] eqn:Ek.
  2:{ left; unfold parseCommitMessage in H; rewrite Et, Ek in H.
      injection H as <-; repeat split; discriminate. }
  right.
  destruct (unique (sanitizeFirstLine message)) eqn:Eu.
  - right.
    assert (Hchk : passesChecks message).
    { repeat split; [rewrite Et|rewrite Ek|exact Eu]; discriminate. }
    split; [exact Hchk|now apply parse_Throw_from_log].
  - left; split; [discriminate|]; split; [discriminate|].
    unfold parseCommitMessage in H; rewrite Et, Ek in H.
    destruct (forEach_outcome (sanitizeFirstLine message) TOKEN_NAMES)
      as [Hok|[e' He']].
    + exfalso.
      assert (Hall : forall names,
                 forEach (onlyOne (sanitizeFirstLine message)) names = Ok tt ->
                 forallb (fun n => (hits (sanitizeFirstLine message) n <=? 1)%nat)
                         names = true).
      { induction names as [|n u IH]; simpl; [reflexivity|].
        unfold onlyOne at 1.
        destruct (Nat.ltb_spec 1 (hits (sanitizeFirstLine message) n)); simpl;
          [discriminate|].
        intros Hu; rewrite (IH Hu), andb_true_r; apply Nat.leb_le; lia. }
      unfold unique in Eu; rewrite (Hall _ Hok) in Eu; discriminate.
    + rewrite He' in H; simpl in H; injection H as <-.
      now apply forEach_Throw in He'.
Qed.

Lemma parseLogTime_Throw (t : jsstring) (e : string) :
  parseLogTime t = Throw e ->
  e = formatError "LOG minutes must be < 60 for h:mm."
  \/ e = formatError "LOG must be 2h@YYYY-MM-DD, 1.5h, 1:30, or 90m.".
Proof.
  unfold parseLogTime.
  destruct (exec hoursRe t); [discriminate|].
  destruct (exec hourMinuteRe t).
  - destruct (SFleb _ _); [|discriminate]. intros [= <-]; now left.
  - destruct (exec minutesRe t); [discriminate|]. intros [= <-]; now right.
Qed.

Lemma checkDate_outcome (d : jsstring) :
  (checkDate d = Ok d /\ test datePatternRe d = true /\ isValidISODate d = true)
  \/ checkDate d = Throw (formatError "date must be yyyy-mm-dd.")
  \/ checkDate d = Throw calendarError.
Proof.
  unfold checkDate.
  destruct (test datePatternRe d); simpl; [|now right; left].
  destruct (isValidISODate d); simpl; [now left|now right; right].
Qed.

(** The errors of the LOG section. *)
Lemma logSection_Throw (rawLog dateToken : option jsstring) (e : string) :
  logSection rawLog dateToken = Throw e ->
  In e [formatError "LOG minutes must be < 60 for h:mm.";
        formatError "LOG must be 2h@YYYY-MM-DD, 1.5h, 1:30, or 90m.";
        formatError "LOG hours must be a positive number.";
        formatError "date must be yyyy-mm-dd.";
        calendarError].
Proof.
  assert (Hd : forall d (k : jsstring -> outcome (option number * option jsstring)),
             (forall x, k x <> Throw e) ->
             (logDate <- checkDate d ;; k logDate) = Throw e ->
             e = formatError "date must be yyyy-mm-dd." \/ e = calendarError).
  { intros d k Hk H.
    destruct (checkDate_outcome d) as [[E _]|[E|E]]; rewrite E in H; simpl in H.
    - now apply Hk in H.
    - injection H as <-; now left.
    - injection H as <-; now right. }
  unfold logSection.
  destruct (truthyText rawLog) as [raw|].
  - destruct (splitLog raw) as [timePart datePart].
    destruct (parseLogTime timePart) as [h|e'] eqn:Et; simpl.
    + destruct (negb (gt h zero)); simpl.
      * intros [= <-]; simpl; auto.
      * destruct (truthyText datePart) as [dp|].
        -- intros H; apply Hd in H;
             [destruct H as [-> | ->]; simpl; auto 10|discriminate].
        -- destruct (truthyText dateToken) as [dt|]; [|discriminate].
           intros H; apply Hd in H;
             [destruct H as [-> | ->]; simpl; auto 10|discriminate].
    + intros [= <-]; apply parseLogTime_Throw in Et.
      destruct Et as [-> | ->]; simpl; auto.
  - destruct (truthyText dateToken) as [dt|]; [|discriminate].
    intros H; apply Hd in H;
             [destruct H as [-> | ->]; simpl; auto 10|discriminate].
Qed.

(** What the LOG section returns. *)
Lemma logSection_Ok (rawLog dateToken : option jsstring)
      (hours : option number) (date : option jsstring) :
  logSection rawLog dateToken = Ok (hours, date) ->
  (match truthyText rawLog with
   | None => hours = None
   | Some raw =>
       exists h, hours = Some h
                 /\ parseLogTime (fst (splitLog raw)) = Ok h
                 /\ gt h zero = true
   end)
  /\ (forall d, date = Some d ->
        test datePatternRe d = true /\ isValidISODate d = true
        /\ ((exists raw, truthyText rawLog = Some raw
                         /\ truthyText (snd (splitLog raw)) = Some d)
            \/ truthyText dateToken = Some d)).
Proof.
  assert (Hd : forall d (hs : option number),
             (logDate <- checkDate d ;; Ok (hs, Some logDate)) = Ok (hours, date) ->
             hs = hours /\ date = Some d
             /\ test datePatternRe d = true /\ isValidISODate d = true).
  { intros d hs H.
    destruct (checkDate_outcome d) as [(E & Hp & Hv)|[E|E]];
      rewrite E in H; simpl in H; [|discriminate|discriminate].
    injection H as <- <-; auto. }
  unfold logSection.
  destruct (truthyText rawLog) as [raw|].
  - destruct (splitLog raw) as [timePart datePart] eqn:Es; simpl fst; simpl snd.
    destruct (parseLogTime timePart) as [h|e'] eqn:Et; simpl; [|discriminate].
    destruct (gt h zero) eqn:Eg; simpl; [|discriminate].
    destruct (truthyText datePart) as [dp|] eqn:Edp.
    + intros H; apply Hd in H as (<- & -> & Hp & Hv); split; [eauto|].
      intros d [= <-]; repeat split; auto.
      left; exists raw; rewrite Es; auto.
    + destruct (truthyText dateToken) as [dt|] eqn:Edt.
      * intros H; apply Hd in H as (<- & -> & Hp & Hv); split; [eauto|].
        intros d [= <-]; auto.
      * intros [= <- <-]; split; [eauto|discriminate].
  - destruct (truthyText dateToken) as [dt|] eqn:Edt.
    + intros H; apply Hd in H as (<- & -> & Hp & Hv); split; [reflexivity|].
      intros d [= <-]; auto.
    + intros [= <- <-]; split; [reflexivity|discriminate].
Qed.

End Outcomes.

(** ** What trimming keeps *)

Section Members.

Lemma In_trimStart (x : char) (s : jsstring) : In x (trimStart s) -> In x s.
Proof.
  induction s as [|c t IH]; simpl; [auto|].
  destruct (isSpace c); [intros H; right; now apply IH|auto].
Qed.

Lemma In_trim (x : char) (s : jsstring) : In x (trim s) -> In x s.
Proof.
  unfold trim, trimEnd; intros H.
  apply in_rev, In_trimStart, in_rev in H; now apply In_trimStart.
Qed.

Lemma In_dropRun (p : char -> bool) (x : char) (s : jsstring) :
  In x (dropRun p s) -> In x s.
Proof.
  induction s as [|c t IH]; simpl; [auto|].
  destruct (p c); [intros H; right; now apply IH|auto].
Qed.

Lemma In_dropBOM (x : char) (s : jsstring) : In x (dropBOM s) -> In x s.
Proof.
  destruct s as [|c t]; simpl; [auto|].
  destruct (c =? 65279); [intros H; now right|auto].
Qed.

End Members.

(** ** The grammar of durations *)

Section DurationGrammar.

Lemma exec_anchored_In (r : regex) (s : jsstring) (h : hit) :
  exec (Seq Bol r) s = Some h -> In (h_end h) (m r (MState None s [])).
Proof.
  rewrite exec_anchored; destruct (m r _) as [|x xs]; [discriminate|].
  intros [= <-]; now left.
Qed.

Lemma nonempty_digits (w : jsstring) : (1 <= length w)%nat -> w <> [].
Proof. intros H ->; simpl in H; lia. Qed.

(** What [\d+(?:\.\d+)?] reads. *)
Lemma hoursBody_shape (s y : mstate) :
  In y (m (Seq (Rep true 1 None isDigit)
               (Opt (Seq (Cls (N.eqb 46)) (Rep true 1 None isDigit)))) s) ->
  (exists ds, rest s = ds ++ rest y /\ ds <> [] /\ forallb isDigit ds = true)
  \/ (exists ds fs, rest s = ds ++ 46 :: fs ++ rest y
                    /\ ds <> [] /\ forallb isDigit ds = true
                    /\ fs <> [] /\ forallb isDigit fs = true).
Proof.
  intros Hin.
  change (m (Seq ?a ?b) s) with (flat_map (m b) (m a s)) in Hin.
  apply in_flat_map in Hin as (s1 & H1 & Hin).
  apply rep_digits_in in H1 as (ds & Hds & Hd & Hlen & _).
  change (m (Opt ?r) ?z) with (m r z ++ [z]) in Hin.
  apply in_app_iff in Hin as [Hin|[<-|[]]].
  - right.
    change (m (Seq ?a ?b) ?z) with (flat_map (m b) (m a z)) in Hin.
    apply in_flat_map in Hin as (s2 & H2 & Hin).
    apply m_Cls_in in H2 as (c & t & Hc & Hdot & ->).
    apply N.eqb_eq in Hdot; subst c.
    apply rep_digits_in in Hin as (fs & Hfs & Hf & Hlen' & _).
    simpl in Hfs; exists ds, fs; repeat split; auto using nonempty_digits.
    now rewrite Hds, Hc, Hfs.
  - left; exists ds; auto using nonempty_digits.
Qed.

Lemma exec_hours_shape (t : jsstring) (h : hit) :
  exec hoursRe t = Some h ->
  exists c, isH c = true
    /\ ((exists ds, t = ds ++ [c] /\ ds <> [] /\ forallb isDigit ds = true)
        \/ (exists ds fs, t = ds ++ 46 :: fs ++ [c]
                          /\ ds <> [] /\ forallb isDigit ds = true
                          /\ fs <> [] /\ forallb isDigit fs = true)).
Proof.
  unfold hoursRe; intros E; apply exec_anchored_In in E.
  apply group_then_last in E as (w & c & y & Hs & Hc & Hy & Hr & _);
    [|reflexivity].
  exists c; split; [exact Hc|].
  apply hoursBody_shape in Hy; rewrite Hr in Hy; simpl in Hs, Hy.
  destruct Hy as [(ds & E1 & H)|(ds & fs & E1 & H)]; [left|right].
  - exists ds; split; [congruence|exact H].
  - exists ds, fs; split; [congruence|exact H].
Qed.

Lemma exec_minutes_shape (t : jsstring) (h : hit) :
  exec minutesRe t = Some h ->
  exists ds c, t = ds ++ [c] /\ ds <> [] /\ forallb isDigit ds = true
               /\ isM c = true.
Proof.
  unfold minutesRe; intros E; apply exec_anchored_In in E.
  apply group_then_last in E as (w & c & y & Hs & Hc & Hy & Hr & _);
    [|reflexivity].
  apply rep_digits_in in Hy as (ds & Hds & Hd & Hlen & _).
  rewrite Hr in Hds; simpl in Hs, Hds.
  exists ds, c; repeat split; auto using nonempty_digits; congruence.
Qed.

Lemma exec_hourMinute_shape (t : jsstring) (h : hit) :
  exec hourMinuteRe t = Some h ->
  exists hs ms,
    t = hs ++ colon :: ms
    /\ hs <> [] /\ forallb isDigit hs = true
    /\ ms <> [] /\ forallb isDigit ms = true /\ (length ms <= 2)%nat.
Proof.
  unfold hourMinuteRe; intros E; apply exec_anchored_In in E.
  change (m (Seq ?a ?b) ?z) with (flat_map (m b) (m a z)) in E.
  apply in_flat_map in E as (s1 & H1 & Hin).
  change (m (Grp 1 ?r) ?z) with (map (set_cap 1 z) (m r z)) in H1.
  apply in_map_iff in H1 as (y1 & <- & Hy1).
  apply rep_digits_in in Hy1 as (w1 & Hw1 & Hd1 & Hl1 & _).
  change (m (Seq ?a ?b) ?z) with (flat_map (m b) (m a z)) in Hin.
  apply in_flat_map in Hin as (s2 & H2 & Hin).
  apply m_Cls_in in H2 as (c & u & Hc & Hcol & ->).
  apply N.eqb_eq in Hcol; subst c.
  change (m (Seq ?a ?b) ?z) with (flat_map (m b) (m a z)) in Hin.
  apply in_flat_map in Hin as (s3 & H3 & Hin).
  change (m (Grp 2 ?r) ?z) with (map (set_cap 2 z) (m r z)) in H3.
  apply in_map_iff in H3 as (y2 & <- & Hy2).
  apply rep_digits_in in Hy2 as (w2 & Hw2 & Hd2 & Hl2 & Hh2 & _).
  specialize (Hh2 _ eq_refl).
  simpl in Hin; destruct (rest y2) eqn:E2; [|destruct Hin].
  simpl in Hw1, Hc, Hw2; rewrite app_nil_r in Hw2; subst u.
  exists w1, w2; repeat split; auto using nonempty_digits.
  now rewrite Hw1, Hc.
Qed.

End DurationGrammar.

Section LogFormValues.

Lemma exec_minutes (ds : jsstring) (c : char) :
  ds <> [] -> forallb isDigit ds = true -> isM c = true ->
  exists h, exec minutesRe (ds ++ [c]) = Some h /\ groupText 1 h = ds.
Proof.
  intros Hne Hd Hc.
  unfold minutesRe; apply exec_group_then_last; [reflexivity|exact Hc|].
  exists (MState (lastp None ds) [c] []); split; [|reflexivity].
  apply digits_rep; auto; discriminate.
Qed.

Lemma parseLogTime_int (ds : jsstring) (c : char) :
  ds <> [] -> forallb isDigit ds = true -> isH c = true ->
  parseLogTime (ds ++ [c]) = Ok (ofRatio (digitsVal ds) 1).
Proof.
  intros Hne Hd Hc; unfold parseLogTime.
  destruct (exec_hours_int ds c Hne Hd Hc) as (h & -> & ->).
  now rewrite parseFloat_digits.
Qed.

Lemma parseLogTime_decimal (ds fs : jsstring) (c : char) :
  ds <> [] -> forallb isDigit ds = true ->
  fs <> [] -> forallb isDigit fs = true -> isH c = true ->
  parseLogTime (ds ++ 46 :: fs ++ [c])
  = Ok (ofRatio (digitsVal (ds ++ fs)) (10 ^ Z.of_nat (length fs))).
Proof.
  intros Hne Hd Hnf Hf Hc.
  replace (ds ++ 46 :: fs ++ [c]) with ((ds ++ 46 :: fs) ++ [c])
    by (now rewrite <- app_assoc).
  unfold parseLogTime.
  destruct (exec_hours_decimal ds fs c Hne Hd Hnf Hf Hc) as (h & -> & ->).
  now rewrite parseFloat_decimal.
Qed.

Lemma parseLogTime_hour_minute (hs ms : jsstring) :
  hs <> [] -> forallb isDigit hs = true ->
  ms <> [] -> forallb isDigit ms = true -> (length ms <= 2)%nat ->
  parseLogTime (hs ++ colon :: ms)
  = if (60 <=? digitsVal ms)%Z
    then Throw (formatError "LOG minutes must be < 60 for h:mm.")
    else Ok (add (ofZ (digitsVal hs)) (div (ofZ (digitsVal ms)) (ofZ 60))).
Proof.
  intros Hh Hdh Hm Hdm Hlen; unfold parseLogTime.
  assert (Hno : exec hoursRe (hs ++ colon :: ms) = None).
  { unfold hoursRe; apply exec_group_then_last_none; [reflexivity|].
    intros w c Hw; apply isDigit_not_H.
    apply (last_digit ms w c Hm Hdm (hs ++ [colon])).
    now rewrite <- app_assoc. }
  rewrite Hno.
  destruct (exec_hourMinute hs ms Hh Hdh Hm Hdm Hlen) as (h & -> & -> & ->).
  rewrite !parseInt_digits by assumption.
  rewrite (sixty_leb _ (minutes_below_100 _ Hdm Hlen)).
  reflexivity.
Qed.

Lemma parseLogTime_minutes (ds : jsstring) (c : char) :
  ds <> [] -> forallb isDigit ds = true -> isM c = true ->
  parseLogTime (ds ++ [c]) = Ok (div (ofZ (digitsVal ds)) (ofZ 60)).
Proof.
  intros Hne Hd Hc; unfold parseLogTime.
  assert (Hno1 : exec hoursRe (ds ++ [c]) = None).
  { unfold hoursRe; apply exec_group_then_last_none; [reflexivity|].
    intros w c' Hw; apply app_inj_tail in Hw as [_ <-].
    destruct (isM_cases _ Hc) as [-> | ->]; reflexivity. }
  assert (Hno2 : exec hourMinuteRe (ds ++ [c]) = None).
  { apply exec_hourMinute_none.
    intros w c' Hw; apply app_inj_tail in Hw as [_ <-].
    destruct (isM_cases _ Hc) as [-> | ->]; reflexivity. }
  rewrite Hno1, Hno2.
  destruct (exec_minutes ds c Hne Hd Hc) as (h & -> & ->).
  now rewrite parseInt_digits.
Qed.

Lemma truthyText_Some (v : option jsstring) (d : jsstring) :
  truthyText v = Some d -> v = Some d.
Proof. destruct v as [[|c t]|]; simpl; congruence. Qed.

End LogFormValues.

(** ** Seconds *)

Section Seconds.
Local Open Scope Z_scope.

Lemma sameNumber_eq (a b : number) : sameNumber a b = true -> a = b.
Proof.
  destruct a as [s|s| |s m e], b as [s'|s'| |s' m' e']; simpl;
    try discriminate; try reflexivity.
  - intros H; apply eqb_prop in H; congruence.
  - intros H; apply eqb_prop in H; congruence.
  - intros H; apply andb_true_iff in H as [H He].
    apply andb_true_iff in H as [Hs Hm].
    apply eqb_prop in Hs; apply Pos.eqb_eq in Hm; apply Z.eqb_eq in He.
    congruence.
Qed.

Lemma secondsAre_eq (hours : number) (secs : Z) :
  secondsAre hours secs = true -> toSeconds hours = Some (ofZ secs).
Proof.
  unfold secondsAre; destruct (toSeconds hours); [|discriminate].
  intros H; apply sameNumber_eq in H; congruence.
Qed.

Lemma zrange_In (lo n z : Z) :
  lo <= z < lo + n -> In z (zrange lo n).
Proof.
  intros H; unfold zrange; apply in_map_iff; exists (Z.to_nat (z - lo)); split.
  - lia.
  - apply in_seq; lia.
Qed.

(** Whole minutes, up to a hundred hours. *)
Lemma seconds_of_minutes (n : Z) :
  1 <= n <= 6000 ->
  toSeconds (div (ofZ n) sixty) = Some (ofZ (60 * n)).
Proof.
  intros Hn; apply secondsAre_eq.
  assert (Hall : forallb (fun k => secondsAre (div (ofZ k) sixty) (60 * k))
                         (zrange 1 6000) = true) by (vm_compute; reflexivity).
  rewrite forallb_forall in Hall; apply Hall, zrange_In; lia.
Qed.

(** Hours and minutes, below a hundred hours. *)
Lemma seconds_of_hour_minute (h mi : Z) :
  0 <= h <= 99 -> 0 <= mi <= 59 -> 0 < h + mi ->
  toSeconds (add (ofZ h) (div (ofZ mi) sixty)) = Some (ofZ (3600 * h + 60 * mi)).
Proof.
  intros Hh Hm Hpos; apply secondsAre_eq.
  assert (Hall : forallb (fun a => forallb (fun b =>
                    ((a =? 0) && (b =? 0))
                    || secondsAre (add (ofZ a) (div (ofZ b) sixty))
                                  (3600 * a + 60 * b))
                  (zrange 0 60)) (zrange 0 100) = true)
    by (vm_compute; reflexivity).
  rewrite forallb_forall in Hall.
  specialize (Hall h (zrange_In 0 100 h ltac:(lia))).
  rewrite forallb_forall in Hall.
  specialize (Hall mi (zrange_In 0 60 mi ltac:(lia))).
  apply orb_true_iff in Hall as [H|H]; [|exact H].
  apply andb_true_iff in H as [H1 H2]; apply Z.eqb_eq in H1, H2; lia.
Qed.

(** Hours with up to two decimals, below a hundred hours. *)
Lemma seconds_of_decimal (k : Z) (nf : nat) :
  (nf <= 2)%nat -> 1 <= k < 100 * 10 ^ Z.of_nat nf ->
  toSeconds (ofRatio k (10 ^ Z.of_nat nf))
  = Some (ofZ (k * 3600 / 10 ^ Z.of_nat nf)).
Proof.
  intros Hnf Hk; apply secondsAre_eq.
  assert (Hall : forallb (fun d => forallb (fun a =>
                    secondsAre (ofRatio a (10 ^ d)) (a * 3600 / 10 ^ d))
                  (zrange 1 (100 * 10 ^ d - 1))) (zrange 0 3) = true)
    by (vm_compute; reflexivity).
  rewrite forallb_forall in Hall.
  specialize (Hall (Z.of_nat nf) (zrange_In 0 3 (Z.of_nat nf) ltac:(lia))).
  rewrite forallb_forall in Hall.
  apply Hall, zrange_In; lia.
Qed.

End Seconds.

(** ** Base urls *)

Section CleanBase.

(** [/\/+$/] matches at a position when only slashes follow, and at least
    one. *)
Lemma m_slashEnd (pv : option char) (l : jsstring) (cs : list (nat * jsstring)) :
  (forall x, In x (m slashEndRe (MState pv l cs)) -> rest x = [])
  /\ (m slashEndRe (MState pv l cs) <> []
      <-> l <> [] /\ forallb isSlash l = true).
Proof.
  split.
  - intros x Hin; unfold slashEndRe in Hin.
    change (m (Seq ?a ?b) ?z) with (flat_map (m b) (m a z)) in Hin.
    apply in_flat_map in Hin as (y & _ & Hin); simpl in Hin.
    destruct (rest y) eqn:E; [|destruct Hin].
    destruct Hin as [<-|[]]; exact E.
  - unfold slashEndRe; split.
    + intros Hne.
      destruct (m _ _) as [|x xs] eqn:E; [congruence|].
      assert (Hin : In x (x :: xs)) by now left.
      rewrite <- E in Hin.
      change (m (Seq ?a ?b) ?z) with (flat_map (m b) (m a z)) in Hin.
      apply in_flat_map in Hin as (y & Hy & Hin); simpl in Hin.
      destruct (rest y) eqn:Er; [|destruct Hin].
      simpl in Hy; apply in_rev, reps_in_bounded in Hy
        as (w & Hw & Hall & Hlen & _).
      rewrite Er, app_nil_r in Hw; subst w; split; [|exact Hall].
      intros ->; simpl in Hlen; lia.
    + intros [Hne Hall].
      apply (nonempty_in _ (MState (lastp pv l) [] cs)).
      change (m (Seq ?a ?b) ?z) with (flat_map (m b) (m a z)).
      apply in_flat_map; exists (MState (lastp pv l) [] cs); split.
      * simpl; apply in_rev; rewrite rev_involutive.
        apply reps_in_bounded; exists l; simpl; rewrite app_nil_r.
        repeat split; auto; [|discriminate].
        destruct l; [congruence|simpl; lia].
      * simpl; now left.
Qed.

(** Where the search for [/\/+$/] ends: at the start of the run of slashes
    that closes the text. *)
Lemma search_slashEnd (l : jsstring) :
  forall i pv,
    match search slashEndRe i pv l with
    | Some h =>
        exists k, l = firstn (h_start h - i) l ++ repeat 47 (S k)
                  /\ (i <= h_start h)%nat
                  /\ rest (h_end h) = []
                  /\ forall w, firstn (h_start h - i) l <> w ++ [47]
    | None => l = [] \/ exists w c, l = w ++ [c] /\ isSlash c = false
    end.
Proof.
  assert (Hrep : forall s : jsstring, forallb isSlash s = true ->
                                      s = repeat 47 (length s)).
  { induction s as [|c t IH]; simpl; [reflexivity|].
    intros H; apply andb_true_iff in H as [Hc Ht].
    apply N.eqb_eq in Hc; subst c; f_equal; auto. }
  induction l as [|c t IH]; intros i pv.
  - cbn [search].
    destruct (m_slashEnd pv [] []) as [_ H].
    destruct (m slashEndRe _) as [|x xs]; [now left|].
    exfalso; destruct (proj1 H ltac:(discriminate)) as [Hne _]; congruence.
  - cbn [search].
    destruct (m_slashEnd pv (c :: t) []) as [Hrest H].
    destruct (m slashEndRe (MState pv (c :: t) [])) as [|x xs] eqn:E.
    + specialize (IH (S i) (Some c)).
      destruct (search slashEndRe (S i) (Some c) t) as [h|].
      * destruct IH as (k & Ht & Hle & Hr & Hlast).
        exists k; replace (h_start h - i)%nat with (S (h_start h - S i)) by lia.
        cbn [firstn app]; split; [now f_equal|].
        split; [lia|]; split; [exact Hr|].
        intros w Hw.
        destruct (firstn (h_start h - S i) t) as [|d u] eqn:Ef.
        -- destruct w as [|? [|? ?]]; try discriminate.
           injection Hw as ->.
           apply (proj2 H); [|reflexivity]; split; [discriminate|].
           rewrite Ht; cbn [app forallb].
           change (isSlash 47) with true; cbn [andb].
           clear; induction (S k) as [|n IHn]; simpl; auto.
        -- destruct w as [|e w]; [discriminate|].
           injection Hw as -> Hw; apply (Hlast w); exact Hw.
      * right; destruct IH as [->|(w & d & -> & Hd)].
        -- exists [], c; split; [reflexivity|].
           destruct (isSlash c) eqn:Ec; [|reflexivity].
           exfalso; apply (proj2 H); [|reflexivity].
           split; [discriminate|simpl; now rewrite Ec].
        -- exists (c :: w), d; auto.
    + destruct (proj1 H ltac:(discriminate)) as [_ Hall].
      cbn [h_start h_end]; rewrite Nat.sub_diag; cbn [firstn app].
      exists (length t); split; [exact (Hrep _ Hall)|].
      split; [lia|]; split.
      * apply Hrest; now left.
      * intros w Hw; destruct w; discriminate.
Qed.

End CleanBase.

(** ** The start of main *)

Section MainHead.

Lemma m_Cls_step (p : char -> bool) (r : regex) (pv : option char)
      (l : jsstring) (cs : list (nat * jsstring)) :
  m (Seq (Cls p) r) (MState pv l cs)
  = match l with
    | c :: t => if p c then m r (MState (Some c) t cs) else []
    | [] => []
    end.
Proof.
  change (m (Seq ?a ?b) ?z) with (flat_map (m b) (m a z)).
  cbn [m rest]; destruct l as [|c t]; [reflexivity|].
  destruct (p c); [|reflexivity].
  cbn [flat_map advance caps]; apply app_nil_r.
Qed.

Lemma sameLetter_word (l c : char) :
  in_range 97 122 l = true -> sameLetter l c = true -> isWordChar c = true.
Proof.
  unfold sameLetter, isWordChar, isUpper, isDigit, in_range; intros Hl Hc.
  apply andb_true_iff in Hl as [H1 H2]; apply N.leb_le in H1, H2.
  apply orb_true_iff in Hc as [Hc|Hc]; apply N.eqb_eq in Hc; subst c.
  - assert (E : ((97 <=? l) && (l <=? 122)) = true)
      by (apply andb_true_iff; split; apply N.leb_le; lia).
    rewrite E; now rewrite !orb_true_r.
  - assert (E : ((65 <=? l - 32) && (l - 32 <=? 90)) = true)
      by (apply andb_true_iff; split; apply N.leb_le; lia).
    now rewrite E.
Qed.

(** The pattern for merge commits, read on the line. *)
Lemma test_mergeRe (line : jsstring) : test mergeRe line = startsMerge line.
Proof.
  unfold test, mergeRe; rewrite exec_anchored.
  destruct line as [|a [|b [|c [|d [|e u]]]]]; cbn [startsMerge];
    repeat (rewrite m_Cls_step;
            try match goal with
                | |- context [if sameLetter ?l ?x then _ else _] =>
                    destruct (sameLetter l x) eqn:?
                end);
    try reflexivity.
  cbn [m prev rest is_word andb].
  rewrite (sameLetter_word 101 e eq_refl) by assumption; cbn [xorb].
  now destruct (is_word (hd_error u)).
Qed.

(** The key of a successful parse. *)
Lemma parse_Ok_key (message : jsstring) (r : parsed) :
  parseCommitMessage message = Ok r ->
  issueKey r = issue r
  /\ exists rest, firstLine r = issue r ++ rest /\ keyShape (issue r) rest.
Proof.
  intros Hok.
  pose proof (parse_Ok_checks _ _ Hok) as Hchk.
  destruct (parse_after_checks _ Hchk) as (k & Hk & E).
  rewrite E in Hok.
  destruct (logSection _ _) as [[hours date]|e]; simpl in Hok; [|discriminate].
  injection Hok as <-; simpl; split; [reflexivity|].
  destruct (issueKey_exec (sanitizeFirstLine message))
    as [(h & Hh & rest & Hl & Hs)|[Hnone _]]; [|congruence].
  rewrite Hk in Hh; injection Hh as <-; eauto.
Qed.

Lemma keyShape_nonempty (key rest : jsstring) : keyShape key rest -> key <> [].
Proof. intros (u & mid & ds & -> & _); discriminate. Qed.

(** The errors of a parse, the one for a blank message apart. *)
Lemma parse_Throw_nonblank (message : jsstring) (e : string) :
  trim message <> [] -> parseCommitMessage message = Throw e ->
  In e parseErrors /\ e <> emptyError.
Proof.
  intros Hne H.
  assert (Hin : In e (tl parseErrors)).
  { apply parse_Throw_cases in H
      as [[Ht _]|[(_ & _ & ->)|[(_ & _ & n & Hn & -> & _)|(_ & Hl)]]].
    - contradiction.
    - now left.
    - right; unfold parseErrors; cbn [app tl]; apply in_or_app; left.
      now apply in_map.
    - right; unfold parseErrors; cbn [app tl]; apply in_or_app; right.
      now apply logSection_Throw in Hl. }
  split; [now right|].
  assert (Hall : forallb (fun x => negb (String.eqb x emptyError))
                         (tl parseErrors) = true) by (vm_compute; reflexivity).
  rewrite forallb_forall in Hall; specialize (Hall e Hin).
  intros ->; rewrite String.eqb_refl in Hall; discriminate.
Qed.

Lemma firstLineOf_trimmed (msg : jsstring) :
  trim (firstLineOf msg) = firstLineOf msg.
Proof. apply trim_idem. Qed.

(** What [main] does with a commit message. *)
Lemma mainHead_cases (commitMessage : jsstring) :
  match mainHead commitMessage with
  | Throw e =>
      (firstLineOf commitMessage = [] /\ e = "Empty COMMIT_MESSAGE."%string)
      \/ (firstLineOf commitMessage <> []
          /\ startsMerge (firstLineOf commitMessage) = false
          /\ parseCommitMessage (firstLineOf commitMessage) = Throw e
          /\ In e parseErrors /\ e <> emptyError)
  | Ok Skipped =>
      firstLineOf commitMessage <> []
      /\ startsMerge (firstLineOf commitMessage) = true
  | Ok (Proceeds k r) =>
      firstLineOf commitMessage <> []
      /\ startsMerge (firstLineOf commitMessage) = false
      /\ parseCommitMessage (firstLineOf commitMessage) = Ok r
      /\ k = issue r /\ k <> []
  end.
Proof.
  unfold mainHead.
  pose proof (firstLineOf_trimmed commitMessage) as Ht.
  destruct (firstLineOf commitMessage) as [|c t] eqn:El; [now left|].
  rewrite test_mergeRe.
  destruct (startsMerge (c :: t)) eqn:Em; cbv iota;
    [split; [discriminate|reflexivity]|].
  destruct (parseCommitMessage (c :: t)) as [r|e] eqn:Ep; cbn [bind]; cbv iota.
  - destruct (parse_Ok_key _ _ Ep) as (Hk & rest & _ & Hs).
    apply keyShape_nonempty in Hs.
    rewrite Hk; destruct (issue r) as [|k ks] eqn:Ei; [congruence|].
    cbn [orElse]; repeat split; try reflexivity; try discriminate.
    now rewrite Ei.
  - right; split; [discriminate|]; split; [reflexivity|]; split; [reflexivity|].
    apply (parse_Throw_nonblank (c :: t)); [rewrite Ht; discriminate|exact Ep].
Qed.

End MainHead.

Section MergeKeys.

Lemma trimEnd_app_nonblank (w x : jsstring) :
  forallb notSpace w = true -> trimEnd (w ++ x) = w ++ trimEnd x.
Proof.
  induction w as [|c t IH]; intros H; [reflexivity|].
  cbn [forallb] in H; apply andb_true_iff in H as [Hc Ht].
  cbn [app]; rewrite trimEnd_cons, IH; auto.
  unfold notSpace in Hc; now destruct (isSpace c).
Qed.

(** The first line of a message that starts with the key of a project
    called MERGE. *)
Lemma firstLineOf_merge_key (tail : jsstring) :
  exists u, firstLineOf (js "MERGE-" ++ tail) = js "MERGE-" ++ u.
Proof.
  unfold firstLineOf; rewrite splitFirst_newline.
  exists (trimEnd (firstLineText tail)).
  change (js "MERGE-" ++ tail) with (77 :: 69 :: 82 :: 71 :: 69 :: 45 :: tail).
  cbn [firstLineText startsNewline N.eqb Pos.eqb orb andb].
  rewrite trim_cons by reflexivity.
  change (trimEnd (69 :: 82 :: 71 :: 69 :: 45 :: firstLineText tail))
    with (trimEnd ([69; 82; 71; 69; 45] ++ firstLineText tail)).
  now rewrite trimEnd_app_nonblank.
Qed.

End MergeKeys.

(** ** The Tempo category *)

Section ChooseCategory.

Lemma tempoAllowedValues_nonEmpty (raw : jsstring) :
  forall a, In a (tempoAllowedValues raw) -> a <> [].
Proof.
  intros a H; apply filter_In in H as [_ H]; now destruct a.
Qed.

Lemma chooseValidCategory_allowed (normalize : jsstring -> jsstring)
      (allowed : list jsstring) (fallback candidate : jsstring) :
  (forall a, In a allowed -> a <> []) ->
  let c := chooseValidCategory normalize allowed fallback candidate in
  (c = [] <-> normalize candidate = [])
  /\ (allowed = [] -> c = normalize candidate)
  /\ (allowed <> [] -> c <> [] -> In c allowed)
  /\ (In (normalize candidate) allowed -> c = normalize candidate).
Proof.
  intros Hne; cbv zeta; unfold chooseValidCategory.
  destruct (normalize candidate) as [|x n] eqn:En; cbn [nonEmpty negb].
  { repeat split; auto; congruence. }
  destruct allowed as [|a al] eqn:Ea; cbn [length Nat.eqb].
  { repeat split; auto; try discriminate; congruence. }
  rewrite <- Ea in *.
  destruct (includes allowed (x :: n)) eqn:Ei.
  { apply includes_In in Ei.
    repeat split; auto; try discriminate; congruence. }
  assert (Hnot : ~ In (x :: n) allowed)
    by (intros H; apply includes_In in H; congruence).
  destruct (nonEmpty fallback && includes allowed fallback) eqn:Ef.
  { apply andb_true_iff in Ef as [Hf Hi]; apply includes_In in Hi.
    split; [|split; [|split]]; auto; try contradiction.
    - split; [intros ->; discriminate|discriminate].
    - rewrite Ea; discriminate. }
  rewrite Ea; assert (Ha : a <> []) by (apply Hne; rewrite Ea; now left).
  destruct a as [|a0 a']; [congruence|]; cbn [nonEmpty].
  split; [|split; [|split]].
  - split; discriminate.
  - discriminate.
  - intros _ _; now left.
  - rewrite <- Ea; contradiction.
Qed.

End ChooseCategory.

(** ** Parsing the sanitized line again *)

Section Reparse.

Lemma dropRun_split (p : char -> bool) (x : jsstring) :
  exists z, x = z ++ dropRun p x /\ forallb p z = true.
Proof.
  induction x as [|c t IH]; [now exists []|].
  cbn [dropRun]; destruct (p c) eqn:E; [|now exists []].
  destruct IH as (z & Hz & Hp); exists (c :: z); cbn [app forallb].
  rewrite E, Hp; split; [now f_equal|reflexivity].
Qed.

Lemma dropRun_app (p : char -> bool) (z x : jsstring) :
  forallb p z = true -> dropRun p (z ++ x) = dropRun p x.
Proof.
  induction z as [|c t IH]; [reflexivity|].
  cbn [forallb app dropRun]; intros H; apply andb_true_iff in H as [-> Ht]; auto.
Qed.

Lemma trimStart_app_spaces (sp x : jsstring) :
  forallb isSpace sp = true -> trimStart (sp ++ x) = trimStart x.
Proof. intros H; rewrite <- !dropRun_space; now apply dropRun_app. Qed.

Lemma trimEnd_middle (a : jsstring) (c : char) (t : jsstring) :
  isSpace c = false -> trimEnd (a ++ c :: t) = a ++ c :: trimEnd t.
Proof.
  intros Hc; unfold trimEnd.
  rewrite rev_app_distr; cbn [rev]; rewrite <- app_assoc.
  rewrite app_assoc, trimStart_app_nonblank.
  - rewrite (trimStart_snoc _ _ Hc), !rev_app_distr, rev_involutive.
    reflexivity.
  - rewrite (trimStart_snoc _ _ Hc); intros H; apply app_eq_nil in H as [_ H].
    discriminate.
Qed.

Lemma zeroWidth_not_space (c : char) : isSpace c = true -> isZeroWidth c = false.
Proof.
  unfold isZeroWidth, in_range; intros H.
  destruct (8203 <=? c) eqn:E1; [|reflexivity].
  destruct (c <=? 8205) eqn:E2; [|reflexivity].
  apply N.leb_le in E1, E2.
  assert (Hc : c = 8203 \/ c = 8204 \/ c = 8205) by lia.
  destruct Hc as [-> | [-> | ->]]; discriminate.
Qed.

Lemma upper_plain (u : char) :
  isUpper u = true ->
  isSpace u = false /\ isZeroWidth u = false /\ (u =? 65279) = false /\ u <> 10.
Proof.
  unfold isUpper, in_range; intros H; apply andb_true_iff in H as [H1 H2].
  apply N.leb_le in H1, H2.
  assert (Hs : isSpace u = false).
  { unfold isSpace, isWhiteSpace, isLineTerminator, in_range.
    repeat match goal with
           | |- context [u =? ?k] =>
               replace (u =? k) with false by (symmetry; apply N.eqb_neq; lia)
           end.
    replace (8192 <=? u) with false by (symmetry; apply N.leb_gt; lia).
    reflexivity. }
  repeat split; auto.
  - unfold isZeroWidth, in_range.
    replace (8203 <=? u) with false by (symmetry; apply N.leb_gt; lia).
    reflexivity.
  - apply N.eqb_neq; lia.
  - lia.
Qed.

(** The first line behind a sanitized line that starts with a capital: an
    optional byte order mark, zero-width code units, white space, and then
    the line with, possibly, white space after it. *)
Lemma sanitized_from (F w : jsstring) (u : char) :
  isUpper u = true ->
  trim (dropRun isZeroWidth (dropBOM F)) = u :: w ->
  exists b z sp w',
    F = b ++ z ++ sp ++ u :: w'
    /\ (b = [] \/ b = [65279])
    /\ forallb isZeroWidth z = true /\ forallb isSpace sp = true
    /\ w = trimEnd w'.
Proof.
  intros Hu H; destruct (upper_plain u Hu) as (Hs & _).
  unfold trim in H.
  destruct (dropRun_split isSpace (dropRun isZeroWidth (dropBOM F)))
    as (sp & Hsp & Hspp).
  rewrite dropRun_space in Hsp.
  destruct (trimStart (dropRun isZeroWidth (dropBOM F))) as [|c w'] eqn:E;
    [discriminate|].
  pose proof (trimStart_head _ _ _ E) as Hc.
  rewrite (trimEnd_cons _ _ Hc) in H; injection H as -> <-.
  destruct (dropRun_split isZeroWidth (dropBOM F)) as (z & Hz & Hzp).
  rewrite Hsp in Hz.
  assert (Hb : exists b, F = b ++ dropBOM F /\ (b = [] \/ b = [65279])).
  { destruct F as [|c t]; [now exists []|].
    cbn [dropBOM]; destruct (N.eqb_spec c 65279) as [->|_].
    - exists [65279]; auto.
    - exists []; auto. }
  destruct Hb as (b & Hb & Hbb).
  exists b, z, sp, w'; repeat split; auto.
  now rewrite Hb at 1; rewrite Hz.
Qed.

Lemma sanitized_of (b z sp w' : jsstring) (u : char) :
  isUpper u = true ->
  (b = [] \/ b = [65279]) ->
  forallb isZeroWidth z = true -> forallb isSpace sp = true ->
  trim (b ++ z ++ sp ++ u :: w')
  = match z with
    | [] => u :: trimEnd w'
    | _ :: _ => z ++ sp ++ u :: trimEnd w'
    end.
Proof.
  intros Hu Hb Hz Hsp; destruct (upper_plain u Hu) as (Hs & _).
  unfold trim.
  assert (E : trimStart (b ++ z ++ sp ++ u :: w') = trimStart (z ++ sp ++ u :: w'))
    by (destruct Hb as [-> | ->]; reflexivity).
  rewrite E; destruct z as [|c z'].
  - cbn [app]; rewrite trimStart_app_spaces by assumption.
    rewrite (trimStart_fixed _ _ Hs); now apply trimEnd_cons.
  - cbn [forallb] in Hz; apply andb_true_iff in Hz as [Hc Hz'].
    assert (Hcs : isSpace c = false).
    { destruct (isSpace c) eqn:Ec; [|reflexivity].
      apply zeroWidth_not_space in Ec; congruence. }
    cbn [app]; rewrite (trimStart_fixed _ _ Hcs).
    change (c :: z' ++ sp ++ u :: w') with ((c :: z') ++ sp ++ u :: w').
    rewrite app_assoc, (trimEnd_middle _ _ _ Hs), <- app_assoc; reflexivity.
Qed.

Lemma sanitize_plain (u : char) (w : jsstring) :
  isUpper u = true -> ~ In 10 w -> trimEnd w = w ->
  sanitizeFirstLine (u :: w) = u :: w.
Proof.
  intros Hu Hlf Hw; destruct (upper_plain u Hu) as (Hs & Hz & Hb & Hn).
  rewrite sanitizeFirstLine_direct, firstLineText_whole.
  - cbn [dropBOM]; rewrite Hb; cbn [dropRun]; rewrite Hz.
    rewrite (trim_cons _ _ Hs); congruence.
  - intros [H|H]; [congruence|contradiction].
Qed.

Lemma In_trimEnd (x : char) (s : jsstring) : In x (trimEnd s) -> In x s.
Proof.
  unfold trimEnd; intros H; apply in_rev, In_trimStart in H.
  now apply in_rev.
Qed.

(** The trimmed first line is sanitized to the same line as the message,
    when that line starts with a capital. *)
Lemma sanitize_firstLineOf (message w : jsstring) (u : char) :
  isUpper u = true ->
  sanitizeFirstLine message = u :: w ->
  firstLineOf message <> []
  /\ sanitizeFirstLine (firstLineOf message) = u :: w
  /\ sanitizeFirstLine (u :: w) = u :: w.
Proof.
  intros Hu Hs; destruct (upper_plain u Hu) as (Hsp & Hzw & Hbom & Hn).
  pose proof Hs as Hd; rewrite sanitizeFirstLine_direct in Hd.
  destruct (sanitized_from _ _ _ Hu Hd) as (b & z & sp & w' & HF & Hb & Hz & Hspp & ->).
  assert (Hlf : ~ In 10 w').
  { intros H; apply (firstLineText_no_lf message); rewrite HF.
    apply in_or_app; right; apply in_or_app; right; apply in_or_app; right.
    now right. }
  assert (Hlf' : ~ In 10 (trimEnd w'))
    by (intros H; apply Hlf; now apply In_trimEnd).
  assert (Hplain : sanitizeFirstLine (u :: trimEnd w') = u :: trimEnd w')
    by (apply sanitize_plain; auto using trimEnd_idem).
  unfold firstLineOf; rewrite splitFirst_newline, HF.
  rewrite (sanitized_of b z sp w' u Hu Hb Hz Hspp).
  destruct z as [|c z']; [repeat split; auto; discriminate|].
  split; [discriminate|]; split; [|exact Hplain].
  cbn [forallb] in Hz; apply andb_true_iff in Hz as [Hc Hz'].
  assert (Hcz : ~ In 10 ((c :: z') ++ sp ++ u :: trimEnd w')).
  { intros H; apply (firstLineText_no_lf message); rewrite HF.
    apply in_or_app; right.
    apply in_app_iff in H as [H|H]; [apply in_or_app; now left|].
    apply in_or_app; right.
    apply in_app_iff in H as [H|H]; [apply in_or_app; now left|].
    apply in_or_app; right.
    destruct H as [H|H]; [now left|right; now apply In_trimEnd]. }
  rewrite sanitizeFirstLine_direct, (firstLineText_whole _ Hcz).
  assert (Hcb : (c =? 65279) = false).
  { apply N.eqb_neq; intros ->; discriminate. }
  cbn [app dropBOM]; rewrite Hcb; cbn [dropRun]; rewrite Hc.
  rewrite (dropRun_app _ z') by assumption.
  assert (E : dropRun isZeroWidth (sp ++ u :: trimEnd w') = sp ++ u :: trimEnd w').
  { destruct sp as [|s0 sp']; cbn [app dropRun]; [now rewrite Hzw|].
    cbn [forallb] in Hspp; apply andb_true_iff in Hspp as [Hs0 _].
    now rewrite (zeroWidth_not_space _ Hs0). }
  rewrite E; unfold trim; rewrite trimStart_app_spaces by assumption.
  rewrite (trimStart_fixed _ _ Hsp), (trimEnd_cons _ _ Hsp), trimEnd_idem.
  reflexivity.
Qed.

(** The parse is a function of the sanitized first line. *)
Lemma parse_same_line (m1 m2 : jsstring) :
  trim m1 <> [] -> trim m2 <> [] ->
  sanitizeFirstLine m1 = sanitizeFirstLine m2 ->
  parseCommitMessage m1 = parseCommitMessage m2.
Proof.
  intros H1 H2 E; unfold parseCommitMessage.
  destruct (trim m1); [congruence|].
  destruct (trim m2); [congruence|].
  now rewrite E.
Qed.

(** A successful parse is also the parse of the sanitized line and of the
    trimmed first line. *)
Lemma parse_Ok_again (message : jsstring) (r : parsed) :
  parseCommitMessage message = Ok r ->
  parseCommitMessage (firstLine r) = Ok r
  /\ firstLineOf message <> []
  /\ parseCommitMessage (firstLineOf message) = Ok r.
Proof.
  intros Hok.
  destruct (parse_Ok_key _ _ Hok) as (_ & rest & Hl & Hk).
  destruct (parse_Ok_fields _ _ Hok) as (_ & _ & _ & _ & _ & Hf).
  destruct (parse_Ok_checks _ _ Hok) as (Hne & _).
  destruct Hk as (u & mid & ds & Hi & Hu & _).
  rewrite Hi in Hl; cbn [app] in Hl; rewrite Hf in Hl.
  destruct (upper_plain u Hu) as (Hsp & _).
  destruct (sanitize_firstLineOf _ _ _ Hu Hl) as (Hne' & Hs' & Hs'').
  rewrite Hf, Hl; split; [|split; [exact Hne'|]].
  - rewrite <- Hok; apply parse_same_line; auto.
    + rewrite (trim_cons _ _ Hsp); discriminate.
    + congruence.
  - rewrite <- Hok; apply parse_same_line; auto.
    + unfold firstLineOf; now rewrite trim_idem.
    + congruence.
Qed.

End Reparse.

(** ** Retries *)

Section TempoRetries.
Local Open Scope Z_scope.
Import TempoWorklog.

(** One attempt of the loop that is retried. *)
Lemma attempts_retried (fuel : nat) (attempt : Z) (net : Z -> fetched) :
  attempt < maxRetries -> retried (net attempt) = true ->
  attempts (S fuel) attempt net
  = (waitAfter attempt (net attempt) :: fst (fst (attempts fuel (attempt + 1) net)),
     1 + snd (fst (attempts fuel (attempt + 1) net)),
     snd (attempts fuel (attempt + 1) net)).
Proof.
  intros Hlt Hr; cbn [attempts].
  destruct (Z.leb_spec attempt maxRetries) as [_|]; [|lia]; cbn [negb].
  destruct (Z.ltb_spec attempt maxRetries) as [_|]; [|lia].
  destruct (attempts fuel (attempt + 1) net) as [[waits n] e] eqn:E; cbn [fst snd].
  destruct (net attempt) as [|s ra b] eqn:En; cbn [retried waitAfter] in *;
    [reflexivity|].
  apply andb_true_iff in Hr as [Hr Hb]; apply andb_true_iff in Hr as [Hr H400].
  apply andb_true_iff in Hr as [Hok H409].
  apply negb_true_iff in Hok, H409, H400; rewrite Hok, H409, H400.
  destruct (busy s) eqn:Eb; cbn [andb].
  - destruct (truthyNumber (headerNumber ra)); reflexivity.
  - cbn [orb] in Hb; apply negb_true_iff in Hb; now rewrite Hb.
Qed.

(** The last attempt. *)
Lemma attempts_last (fuel : nat) (net : Z -> fetched) :
  retried (net 3) = true ->
  attempts (S (S fuel)) 3 net
  = if busyResponse (net 3)
    then ([waitAfter 3 (net 3)], 1, NoValue)
    else ([], 1, NetworkError (net 3)).
Proof.
  intros Hr; cbn [attempts]; change (negb (3 <=? maxRetries)) with false.
  change (3 <? maxRetries) with false; change (negb (3 + 1 <=? maxRetries)) with true.
  cbv iota.
  destruct (net 3) as [|s ra b]; cbn [retried busyResponse waitAfter] in *;
    [reflexivity|].
  apply andb_true_iff in Hr as [Hr Hb]; apply andb_true_iff in Hr as [Hr H400].
  apply andb_true_iff in Hr as [Hok H409].
  apply negb_true_iff in Hok, H409, H400; rewrite Hok, H409, H400.
  destruct (busy s); cbn [andb].
  - destruct (truthyNumber (headerNumber ra)); reflexivity.
  - cbn [orb] in Hb; apply negb_true_iff in Hb; now rewrite Hb.
Qed.

(** An attempt that is not retried ends the call, by its status. *)
Lemma attempts_decided (fuel : nat) (attempt : Z) (net : Z -> fetched) :
  attempt <= maxRetries -> retried (net attempt) = false ->
  exists e, attempts (S fuel) attempt net = ([], 1, e)
            /\ e <> NoValue /\ (forall c, e <> NetworkError c)
            /\ forall s ra b,
                 net attempt = Response s ra b ->
                 (ok s = true -> e = Created)
                 /\ (s = 409 -> e = Conflict)
                 /\ (s = 400 ->
                     e = if test duplicateRe b then Duplicate else BadRequest b)
                 /\ (ok s = false -> s <> 409 -> s <> 400 -> e = StatusError s b).
Proof.
  intros Hle Hr; cbn [attempts].
  destruct (Z.leb_spec attempt maxRetries) as [_|]; [|lia]; cbn [negb].
  destruct (net attempt) as [|s ra b]; cbn [retried] in Hr; [discriminate|].
  assert (Hok409 : ok 409 = false) by reflexivity.
  assert (Hok400 : ok 400 = false) by reflexivity.
  destruct (ok s) eqn:Eok; [decided_close|].
  destruct (Z.eqb_spec s 409) as [E409|E409]; [decided_close|].
  destruct (Z.eqb_spec s 400) as [E400|E400].
  { destruct (test duplicateRe b) eqn:Ed; decided_close. }
  cbn [negb andb] in Hr.
  destruct (busy s); [discriminate|]; cbn [orb] in Hr.
  apply negb_false_iff in Hr; rewrite Hr.
  decided_close.
Qed.

(** A busy response is one that is retried. *)
Lemma busy_retried (f : fetched) :
  busyResponse f = true -> retried f = true.
Proof.
  destruct f as [|s ra b]; cbn; [discriminate|].
  unfold ok, busy; intros H.
  destruct (Z.eqb_spec s 429) as [->|]; [reflexivity|].
  cbn [orb] in H; apply Z.leb_le in H.
  destruct (Z.leb_spec 200 s), (Z.leb_spec s 299), (Z.eqb_spec s 409),
    (Z.eqb_spec s 400), (Z.leb_spec 500 s); try lia; reflexivity.
Qed.

End TempoRetries.

Section JiraRetries.
Local Open Scope Z_scope.
Import JiraFetch.

(** The wait of [jiraFetch] before a retry, by the Retry-After header. *)
Lemma waitMs_header (attempt : Z) (retryAfter : option number) :
  waitMs attempt retryAfter
  = match retryAfter with
    | None => ofZ 0
    | Some x => if isFinite x then mul x (ofZ 1000)
                else ofZ (400 * (attempt + 1))
    end.
Proof. destruct retryAfter as [x|]; reflexivity. Qed.

(** One attempt of [jiraFetch]. *)
Lemma jira_attempt (fuel : nat) (attempt : Z) (net : Z -> fetched) :
  attempt <= maxRetries ->
  (busyResponse (net attempt) = true /\ attempt < maxRetries
   /\ exists s ra b,
        net attempt = Response s ra b
        /\ attempts (S fuel) attempt net
           = (waitMs attempt ra :: fst (fst (attempts fuel (attempt + 1) net)),
              snd (fst (attempts fuel (attempt + 1) net)),
              snd (attempts fuel (attempt + 1) net)))
  \/ ((busyResponse (net attempt) = false \/ maxRetries <= attempt)
      /\ attempts (S fuel) attempt net = ([], attempt, Some (net attempt))).
Proof.
  intros Hle; cbn [attempts].
  destruct (Z.leb_spec attempt maxRetries) as [_|]; [|lia]; cbn [negb].
  destruct (net attempt) as [|s ra b] eqn:En; cbn [busyResponse];
    [right; auto|].
  destruct (ok s) eqn:Eo.
  { right; split; [left|rewrite ?En; reflexivity].
    unfold ok in Eo; unfold busy.
    apply andb_true_iff in Eo as [H1 H2]; apply Z.leb_le in H1, H2.
    destruct (Z.eqb_spec s 429), (Z.leb_spec 500 s); try lia; reflexivity. }
  destruct (busy s) eqn:Eb; cbn [andb].
  - destruct (Z.ltb_spec attempt maxRetries) as [Hlt|Hge].
    + left; split; [reflexivity|]; split; [exact Hlt|].
      exists s, ra, b; split; [reflexivity|].
      destruct (attempts fuel (attempt + 1) net) as [[waits last] res].
      reflexivity.
    + right; split; [now right|now rewrite ?En].
  - right; split; [now left|now rewrite ?En].
Qed.

(** The policy of the retries of [jiraFetch]. *)
Lemma jiraFetch_policy (net : Z -> fetched) :
  let waits := fst (fst (jiraFetch net)) in
  let last := snd (fst (jiraFetch net)) in
  let res := snd (jiraFetch net) in
  0 <= last <= 2
  /\ res = Some (net last)
  /\ length waits = Z.to_nat last
  /\ (last < 2 -> busyResponse (net last) = false)
  /\ (forall k, 0 <= k < last ->
        exists s ra b,
          net k = Response s ra b /\ busy s = true
          /\ nth (Z.to_nat k) waits NaN = waitMs k ra).
Proof.
  cbv zeta; unfold jiraFetch.
  destruct (jira_attempt 3 0 net ltac:(unfold maxRetries; lia))
    as [(B0 & _ & s0 & ra0 & b0 & N0 & ->)|([B0|B0] & ->)];
    cbn [fst snd length];
    [|repeat split; intros; try lia; try reflexivity; assumption
     |unfold maxRetries in B0; lia].
  change (0 + 1) with 1.
  destruct (jira_attempt 2 1 net ltac:(unfold maxRetries; lia))
    as [(B1 & _ & s1 & ra1 & b1 & N1 & ->)|([B1|B1] & ->)];
    cbn [fst snd length];
    [| |unfold maxRetries in B1; lia].
  - change (1 + 1) with 2.
    destruct (jira_attempt 1 2 net ltac:(unfold maxRetries; lia))
      as [(_ & Hlt & _)|(_ & ->)]; [unfold maxRetries in Hlt; lia|].
    cbn [fst snd length]; repeat split; try lia; try reflexivity.
    intros k Hk; assert (Hk' : k = 0 \/ k = 1) by lia.
    destruct Hk' as [-> | ->].
    + exists s0, ra0, b0; rewrite N0 in B0; auto.
    + exists s1, ra1, b1; rewrite N1 in B1; auto.
  - repeat split; try lia; try reflexivity; [intros _; exact B1|].
    intros k Hk; assert (k = 0) as -> by lia.
    exists s0, ra0, b0; rewrite N0 in B0; auto.
Qed.

End JiraRetries.

(** * Further properties of the code *)

(** ** The sanitized first line *)

(** X1.  [sanitizeFirstLine] gives the text before the first line break (a
    line feed, or a carriage return and a line feed), without one byte order
    mark and then the zero-width code units at its start, trimmed on both
    sides.  The result holds no line feed and trimming it again changes
    nothing. *)
Theorem X1_sanitizeFirstLine_reading :
  forall message : jsstring,
    sanitizeFirstLine message
    = trim (dropRun isZeroWidth (dropBOM (firstLineText message)))
    /\ ~ In 10 (sanitizeFirstLine message)
    /\ trim (sanitizeFirstLine message) = sanitizeFirstLine message.
Proof.
  intros message; rewrite sanitizeFirstLine_direct; split; [reflexivity|split].
  - intros H; apply In_trim, In_dropRun, In_dropBOM in H.
    now apply firstLineText_no_lf in H.
  - apply trim_idem.
Qed.

(** X2.  Only the first line counts: when the text before the first line
    feed is not blank, the parse of the whole message is the parse of that
    text, whatever follows the line feed. *)
Theorem X2_only_the_first_line_counts :
  forall line body : jsstring,
    ~ In 10 line -> trim line <> [] ->
    parseCommitMessage (line ++ 10 :: body) = parseCommitMessage line.
Proof.
  intros line body Hlf Hne.
  pose proof (trim_app_nonblank line (10 :: body) Hne) as Hne'.
  unfold parseCommitMessage.
  destruct (trim line); [congruence|].
  destruct (trim (line ++ 10 :: body)); [congruence|].
  now rewrite (sanitizeFirstLine_first_line line body Hlf).
Qed.

Lemma X2_witness :
  parseCommitMessage
    (js "ABC-1 LOG:1h" ++ 10 :: js "STATUS:Done LOG:2h LOG:3h")
  = parseCommitMessage (js "ABC-1 LOG:1h").
Proof.
  refine (X2_only_the_first_line_counts (js "ABC-1 LOG:1h")
            (js "STATUS:Done LOG:2h LOG:3h") _ _).
  - vm_compute; intuition discriminate.
  - vm_compute; discriminate.
Defined.

(** ** The issue key *)

(** X3.  In a successful parse the issue is the start of the sanitized
    line and has the form of an issue key: an upper-case letter, one to
    nine upper-case letters or digits, a hyphen and digits, after which the
    line ends or goes on with something else than a letter, a digit or an
    underscore; [issueKey] is the same text. *)
Theorem X3_issue_is_a_key :
  forall message r,
    parseCommitMessage message = Ok r ->
    issueKey r = issue r
    /\ exists rest,
         firstLine r = issue r ++ rest /\ keyShape (issue r) rest.
Proof.
  intros message r Hok.
  pose proof (parse_Ok_checks _ _ Hok) as Hchk.
  destruct (parse_after_checks _ Hchk) as (k & Hk & E).
  rewrite E in Hok.
  destruct (logSection _ _) as [[hours date]|e]; simpl in Hok; [|discriminate].
  injection Hok as <-; simpl; split; [reflexivity|].
  destruct (issueKey_exec (sanitizeFirstLine message))
    as [(h & Hh & rest & Hl & Hs)|[Hnone _]]; [|congruence].
  rewrite Hk in Hh; injection Hh as <-; eauto.
Qed.

Lemma X3_witness :
  exists r rest,
    parseCommitMessage (js "PEB2-417: STATUS:Build") = Ok r
    /\ issue r = js "PEB2-417"
    /\ firstLine r = issue r ++ rest /\ keyShape (issue r) rest.
Proof.
  eexists.
  destruct (X3_issue_is_a_key (js "PEB2-417: STATUS:Build") _
              ltac:(vm_compute; reflexivity)) as (_ & rest & Hl & Hs).
  exists rest; repeat split; [exact Hl|exact Hs].
Defined.

(** X4.  A message that is not blank fails with the error about the issue
    key exactly when its sanitized first line does not start with an issue
    key; nothing else in the message changes that. *)
Theorem X4_missing_key_is_rejected :
  forall message : jsstring,
    trim message <> [] ->
    (parseCommitMessage message = Throw keyError
     <-> forall key rest,
           sanitizeFirstLine message = key ++ rest -> ~ keyShape key rest).
Proof.
  intros message Hne; split.
  - intros H; apply parse_Throw_cases in H
      as [[Ht _]|[(_ & Hk & _)|[(_ & _ & n & Hn & He & _)|(_ & Hl)]]].
    + contradiction.
    + destruct (issueKey_exec (sanitizeFirstLine message))
        as [(h & Hh & _)|[_ Hno]]; [congruence|exact Hno].
    + exfalso; revert He.
      destruct Hn as [<-|[<-|[<-|[<-|[<-|[<-|[<-|[]]]]]]]]; discriminate.
    + apply logSection_Throw in Hl; exfalso; revert Hl.
      intros [H|[H|[H|[H|[H|[]]]]]]; discriminate.
  - intros Hno; unfold parseCommitMessage.
    destruct (trim message); [congruence|].
    destruct (issueKey_exec (sanitizeFirstLine message))
      as [(h & Hh & rest & Hl & Hs)|[Hnone _]].
    + exfalso; exact (Hno _ _ Hl Hs).
    + rewrite Hnone; reflexivity.
Qed.

Lemma X4_witness :
  parseCommitMessage (js "OPS55 LOG:1h@2025-12-31") = Throw keyError
  /\ forall key rest,
       sanitizeFirstLine (js "OPS55 LOG:1h@2025-12-31") = key ++ rest ->
       ~ keyShape key rest.
Proof.
  split; [vm_compute; reflexivity|].
  refine (proj1 (X4_missing_key_is_rejected (js "OPS55 LOG:1h@2025-12-31") _) _).
  - vm_compute; discriminate.
  - vm_compute; reflexivity.
Defined.

(** ** Errors and fields *)

(** X5.  Whatever the message, an error of [parseCommitMessage] is one of
    fourteen messages: the blank message, the missing issue key, a second
    token of one of the seven names, the four format errors of LOG and of
    dates, and the calendar error.  All but the last start with "Super
    Commit format: ", and the error of the guard on an empty STATUS value is
    never among them. *)
Theorem X5_the_errors_of_a_parse :
  forall (message : jsstring) e,
    parseCommitMessage message = Throw e ->
    In e parseErrors
    /\ (isFormatError e = true \/ e = calendarError)
    /\ e <> formatError "STATUS value cannot be empty.".
Proof.
  intros message e H.
  assert (Hin : In e parseErrors).
  { apply parse_Throw_cases in H
      as [[_ ->]|[(_ & _ & ->)|[(_ & _ & n & Hn & -> & _)|(_ & Hl)]]].
    - unfold parseErrors; apply in_or_app; left; now left.
    - unfold parseErrors; apply in_or_app; left; right; now left.
    - unfold parseErrors; apply in_or_app; right; apply in_or_app; left.
      now apply in_map.
    - unfold parseErrors; apply in_or_app; right; apply in_or_app; right.
      now apply logSection_Throw in Hl. }
  split; [exact Hin|].
  assert (Hall : forallb (fun x =>
                   (isFormatError x || String.eqb x calendarError)
                   && negb (String.eqb x (formatError "STATUS value cannot be empty.")))
                 parseErrors = true) by (vm_compute; reflexivity).
  rewrite forallb_forall in Hall; specialize (Hall e Hin).
  apply andb_true_iff in Hall as [H1 H2]; split.
  - apply orb_true_iff in H1 as [H1|H1]; [now left|right].
    now apply String.eqb_eq.
  - intros ->; rewrite String.eqb_refl in H2; discriminate.
Qed.

Lemma X5_witness :
  In calendarError parseErrors
  /\ (isFormatError calendarError = true \/ calendarError = calendarError)
  /\ calendarError <> formatError "STATUS value cannot be empty.".
Proof.
  refine (X5_the_errors_of_a_parse (js "ABC-1 DATE:2025-02-30") calendarError _).
  vm_compute; reflexivity.
Defined.

(** X6.  In a successful parse [logHours] is there exactly when a LOG token
    is, and it is then the positive Number that the duration before the
    [@] stands for: never zero, never NaN. *)
Theorem X6_log_hours_are_positive :
  forall (message : jsstring) r,
    parseCommitMessage message = Ok r ->
    (logHours r = None <-> getToken (sanitizeFirstLine message) "LOG" = None)
    /\ forall h,
         logHours r = Some h ->
         gt h zero = true
         /\ h <> NaN /\ valueOf h <> Some 0%Q
         /\ exists raw,
              getToken (sanitizeFirstLine message) "LOG" = Some raw
              /\ parseLogTime (fst (splitLog raw)) = Ok h.
Proof.
  intros message r Hok.
  destruct (parse_Ok_fields _ _ Hok) as (Hsec & _).
  apply logSection_Ok in Hsec as [Hh _].
  rewrite truthyText_getToken in Hh.
  destruct (getToken (sanitizeFirstLine message) "LOG") as [raw|].
  - destruct Hh as (h & Eh & Ht & Hpos); split.
    + rewrite Eh; split; discriminate.
    + intros h' Hh'; rewrite Eh in Hh'; injection Hh' as <-.
      split; [exact Hpos|]; split; [|split; [|eauto]].
      * intros ->; discriminate.
      * destruct h as [s|s| |s mx ex]; try discriminate.
        destruct s; [discriminate|].
        unfold valueOf.
        remember (inject_Z (cond_Zopp false (Z.pos mx)) * Qpower 2 ex)%Q as q eqn:Eq.
        assert (Hp : (0 < q)%Q).
        { rewrite Eq; apply Qmult_lt_0_compat; [reflexivity|].
          apply Qpower_0_lt; reflexivity. }
        intros Hq; assert (Hq' : Qred q = 0%Q) by congruence.
        rewrite <- (Qred_correct q), Hq' in Hp; discriminate.
  - split; [now split|intros h Eh; congruence].
Qed.

Lemma X6_witness :
  exists r h,
    parseCommitMessage (js "ABC-1 LOG:0:01") = Ok r
    /\ logHours r = Some h
    /\ gt h zero = true.
Proof.
  eexists; eexists.
  split; [vm_compute; reflexivity|]; split; [vm_compute; reflexivity|].
  refine (proj1 (proj2 (X6_log_hours_are_positive (js "ABC-1 LOG:0:01") _ _) _ _));
    vm_compute; reflexivity.
Defined.

(** X7.  In a successful parse, [status], [comment] and [phase] are never
    empty, have no white space at either end, hold no line terminator, and
    are a piece of the sanitized line. *)
Theorem X7_text_fields_are_clean :
  forall (message : jsstring) r v,
    parseCommitMessage message = Ok r ->
    status r = Some v \/ comment r = Some v \/ phase r = Some v ->
    v <> [] /\ trim v = v
    /\ forallb isDot v = true
    /\ exists before after, firstLine r = before ++ v ++ after.
Proof.
  intros message r v Hok Hv.
  destruct (parse_Ok_fields _ _ Hok) as (_ & Hs & Hc & Hp & _ & Hl).
  assert (Hname : exists name, getToken (sanitizeFirstLine message) name = Some v).
  { destruct Hv as [H|[H|H]].
    - exists "STATUS"%string; congruence.
    - exists "COMMENT"%string; congruence.
    - rewrite Hp in H; unfold resolvePhase in H.
      rewrite !truthyText_getToken in H.
      destruct (getToken (sanitizeFirstLine message) "PHASE") as [p|] eqn:Ep.
      + exists "PHASE"%string; congruence.
      + destruct (getToken (sanitizeFirstLine message) "CAT") as [c|] eqn:Ec;
          [|discriminate].
        exists "CAT"%string; congruence. }
  destruct Hname as [name Hg].
  apply getToken_shape in Hg
    as (pre & gap & post & Hline & _ & _ & (c & body & -> & Hcs & Hbody) & _ & _ & Ht).
  split; [discriminate|]; split; [exact Ht|]; split.
  - simpl; rewrite Hbody, andb_true_r.
    unfold isDot; unfold isSpace in Hcs.
    apply orb_false_iff in Hcs as [_ ->]; reflexivity.
  - exists (pre ++ js name ++ colon :: gap), post.
    rewrite Hl, Hline.
    repeat (rewrite <- app_assoc; simpl); reflexivity.
Qed.

Lemma X7_witness :
  exists r,
    parseCommitMessage (js "ABC-1 CAT: Code  Review  READY:y") = Ok r
    /\ phase r = Some (js "Code  Review")
    /\ trim (js "Code  Review") = js "Code  Review"
    /\ forallb isDot (js "Code  Review") = true.
Proof.
  eexists; split; [vm_compute; reflexivity|]; split; [vm_compute; reflexivity|].
  refine (let H := X7_text_fields_are_clean
                     (js "ABC-1 CAT: Code  Review  READY:y") _ (js "Code  Review")
                     _ _ in conj (proj1 (proj2 H)) (proj1 (proj2 (proj2 H)))).
  - vm_compute; reflexivity.
  - right; right; vm_compute; reflexivity.
Defined.

(** ** Dates *)

(** X8.  The pattern of dates accepts the texts of four digits, a hyphen,
    two digits, a hyphen and two digits, and [isValidISODate] accepts those
    of them that name a day of the Gregorian calendar in a year from 0100
    on: a month from 01 to 12 and a day from 01 to the length of the month,
    29 for February in a leap year.  The years 0000 to 0099 have no valid
    date. *)
Theorem X8_valid_dates_are_calendar_dates :
  forall s : jsstring,
    (test datePatternRe s = true <-> exists y mo d, isoDateText s y mo d)
    /\ (isValidISODate s = true
        <-> exists y mo d,
              isoDateText s y mo d
              /\ calendarDate (digitsVal y) (digitsVal mo) (digitsVal d)).
Proof.
  intros s; split; [apply test_datePattern|apply isValidISODate_calendar].
Qed.

(** X9.  In a successful parse a [logDate] is a text yyyy-mm-dd that names
    a day of the calendar, and it is the text after the [@] of the LOG
    value or the value of the DATE token. *)
Theorem X9_log_date_is_a_calendar_date :
  forall (message : jsstring) r d,
    parseCommitMessage message = Ok r ->
    logDate r = Some d ->
    (exists y mo dd,
        isoDateText d y mo dd
        /\ calendarDate (digitsVal y) (digitsVal mo) (digitsVal dd))
    /\ ((exists raw,
            getToken (sanitizeFirstLine message) "LOG" = Some raw
            /\ snd (splitLog raw) = Some d)
        \/ getToken (sanitizeFirstLine message) "DATE" = Some d).
Proof.
  intros message r d Hok Hd.
  destruct (parse_Ok_fields _ _ Hok) as (Hsec & _).
  apply logSection_Ok in Hsec as [_ Hdate].
  destruct (Hdate d Hd) as (_ & Hv & Hfrom); split.
  - now apply isValidISODate_calendar.
  - destruct Hfrom as [(raw & Hr & Hs)|Hs]; [left|right].
    + exists raw; split; now apply truthyText_Some.
    + now apply truthyText_Some.
Qed.

Lemma X9_witness :
  exists r y mo dd,
    parseCommitMessage (js "ABC-1 LOG:1h@2024-02-29 DATE:2025-01-01") = Ok r
    /\ isoDateText (js "2024-02-29") y mo dd
    /\ calendarDate (digitsVal y) (digitsVal mo) (digitsVal dd).
Proof.
  eexists.
  destruct (X9_log_date_is_a_calendar_date
              (js "ABC-1 LOG:1h@2024-02-29 DATE:2025-01-01") _ (js "2024-02-29")
              ltac:(vm_compute; reflexivity) ltac:(vm_compute; reflexivity))
    as [(y & mo & dd & Ht & Hc) _].
  exists y, mo, dd; split; [vm_compute; reflexivity|]; split; [exact Ht|exact Hc].
Defined.

(** ** Durations *)

(** X10.  [parseLogTime] ends in the error that lists the forms of LOG
    exactly on the texts that have none of the three forms: digits with an
    optional point and digits and then [h] or [H], digits with [m] or [M],
    or digits, a colon and one or two digits. *)
Theorem X10_durations_have_three_forms :
  forall t : jsstring,
    parseLogTime t
      = Throw (formatError "LOG must be 2h@YYYY-MM-DD, 1.5h, 1:30, or 90m.")
    <-> ~ durationText t.
Proof.
  intros t.
  unfold parseLogTime; split.
  - destruct (exec hoursRe t) as [h|] eqn:E1; [discriminate|].
    destruct (exec hourMinuteRe t) as [h|] eqn:E2;
      [destruct (SFleb _ _); discriminate|].
    destruct (exec minutesRe t) as [h|] eqn:E3; [discriminate|].
    intros _ [(ds & c & -> & Hne & Hd & [Hc|Hc])
             |[(ds & fs & c & -> & Hne & Hd & Hnf & Hf & Hc)
              |(hs & ms & -> & Hh & Hdh & Hm & Hdm & Hlen)]].
    + destruct (exec_hours_int ds c Hne Hd Hc) as (h & E & _); congruence.
    + assert (Hex : exists h, exec minutesRe (ds ++ [c]) = Some h
                              /\ groupText 1 h = ds).
      { unfold minutesRe; apply exec_group_then_last; [reflexivity|exact Hc|].
        exists (MState (lastp None ds) [c] []); split; [|reflexivity].
        apply digits_rep; auto; discriminate. }
      destruct Hex as (h & E & _); congruence.
    + destruct (exec_hours_decimal ds fs c Hne Hd Hnf Hf Hc) as (h & E & _).
      rewrite <- app_assoc in E; cbn [app] in E.
      assert (X : Some h = None) by (rewrite <- E; exact E1); discriminate X.
    + destruct (exec_hourMinute hs ms Hh Hdh Hm Hdm Hlen) as (h & E & _).
      congruence.
  - intros Hno.
    destruct (exec hoursRe t) as [h|] eqn:E1.
    { exfalso; apply Hno.
      apply exec_hours_shape in E1 as (c & Hc & [(ds & H)|(ds & fs & H)]).
      - left; exists ds, c; tauto.
      - right; left; exists ds, fs, c; tauto. }
    destruct (exec hourMinuteRe t) as [h|] eqn:E2.
    { exfalso; apply Hno; right; right.
      now apply exec_hourMinute_shape in E2. }
    destruct (exec minutesRe t) as [h|] eqn:E3; [|reflexivity].
    exfalso; apply Hno; left.
    apply exec_minutes_shape in E3 as (ds & c & H); exists ds, c; tauto.
Qed.

(** X11.  The seconds that [toSeconds] makes of the hours of a LOG value are
    exact: sixty for each minute of a value in minutes up to 6000, 3600 for
    each hour and 60 for each minute of a value h:mm below a hundred hours,
    and 36 for each hundredth of an hour of a value in hours with at most
    two decimals below a hundred hours. *)
Theorem X11_seconds_are_exact :
  (forall (ds : jsstring) c,
      ds <> [] -> forallb isDigit ds = true -> isM c = true ->
      (1 <= digitsVal ds <= 6000)%Z ->
      exists h, parseLogTime (ds ++ [c]) = Ok h
                /\ toSeconds h = Some (ofZ (60 * digitsVal ds)))
  /\ (forall hs ms : jsstring,
        hs <> [] -> forallb isDigit hs = true ->
        ms <> [] -> forallb isDigit ms = true -> (length ms <= 2)%nat ->
        (digitsVal hs <= 99)%Z -> (digitsVal ms <= 59)%Z ->
        (0 < digitsVal hs + digitsVal ms)%Z ->
        exists h, parseLogTime (hs ++ colon :: ms) = Ok h
                  /\ toSeconds h
                     = Some (ofZ (3600 * digitsVal hs + 60 * digitsVal ms)))
  /\ (forall (ds : jsstring) c,
        ds <> [] -> forallb isDigit ds = true -> isH c = true ->
        (1 <= digitsVal ds <= 99)%Z ->
        exists h, parseLogTime (ds ++ [c]) = Ok h
                  /\ toSeconds h = Some (ofZ (3600 * digitsVal ds)))
  /\ (forall (ds fs : jsstring) c,
        ds <> [] -> forallb isDigit ds = true ->
        fs <> [] -> forallb isDigit fs = true -> isH c = true ->
        (length fs <= 2)%nat ->
        (1 <= digitsVal (ds ++ fs) < 100 * 10 ^ Z.of_nat (length fs))%Z ->
        exists h, parseLogTime (ds ++ 46 :: fs ++ [c]) = Ok h
                  /\ toSeconds h
                     = Some (ofZ (digitsVal (ds ++ fs) * 3600
                                  / 10 ^ Z.of_nat (length fs)))).
Proof.
  split; [|split; [|split]].
  - intros ds c Hne Hd Hc Hn; eexists; split.
    + now apply parseLogTime_minutes.
    + now apply seconds_of_minutes.
  - intros hs ms Hh Hdh Hm Hdm Hlen Hhs Hms Hpos.
    pose proof (minutes_below_100 _ Hdm Hlen) as Hb.
    assert (Hh0 : (0 <= digitsVal hs)%Z).
    { clear - Hdh; unfold digitsVal.
      assert (H : forall l a, forallb isDigit l = true -> (0 <= a)%Z ->
                  (0 <= fold_left (fun acc c => 10 * acc + digitVal c) l a)%Z).
      { induction l as [|x l IH]; intros a Hl Ha; [exact Ha|].
        cbn [forallb] in Hl; apply andb_true_iff in Hl as [Hx Hl].
        apply digitVal_range in Hx; cbn [fold_left]; apply IH; auto; lia. }
      apply H; auto; lia. }
    eexists; split.
    + rewrite parseLogTime_hour_minute by assumption.
      destruct (Z.leb_spec 60 (digitsVal ms)); [lia|reflexivity].
    + apply seconds_of_hour_minute; lia.
  - intros ds c Hne Hd Hc Hn; eexists; split.
    + now apply parseLogTime_int.
    + pose proof (seconds_of_decimal (digitsVal ds) 0 ltac:(lia)) as H.
      change (10 ^ Z.of_nat 0)%Z with 1%Z in H.
      rewrite Z.div_1_r in H; rewrite H by lia.
      do 2 f_equal; lia.
  - intros ds fs c Hne Hd Hnf Hf Hc Hlen Hn; eexists; split.
    + now apply parseLogTime_decimal.
    + now apply seconds_of_decimal.
Qed.

Lemma X11_witness :
  (exists h, parseLogTime (js "90m") = Ok h /\ toSeconds h = Some (ofZ 5400))
  /\ (exists h, parseLogTime (js "7:05") = Ok h /\ toSeconds h = Some (ofZ 25500))
  /\ (exists h, parseLogTime (js "8h") = Ok h /\ toSeconds h = Some (ofZ 28800))
  /\ (exists h, parseLogTime (js "0.25H") = Ok h /\ toSeconds h = Some (ofZ 900)).
Proof.
  destruct X11_seconds_are_exact as (Hmin & Hhm & Hint & Hdec).
  split; [|split; [|split]].
  - refine (Hmin (js "90") 109 _ _ _ _);
      try discriminate; try reflexivity; vm_compute; split; discriminate.
  - refine (Hhm (js "7") (js "05") _ _ _ _ _ _ _ _);
      try discriminate; try reflexivity; vm_compute; try discriminate; lia.
  - refine (Hint (js "8") 104 _ _ _ _);
      try discriminate; try reflexivity; vm_compute; split; discriminate.
  - refine (Hdec (js "0") (js "25") 72 _ _ _ _ _ _ _);
      try discriminate; try reflexivity; vm_compute; try lia;
      split; [discriminate|reflexivity].
Defined.

(** ** Base urls *)

(** X12.  [cleanBase] gives the url without the white space at its two ends
    and without the slashes that then end it: what it returns never ends in
    a slash, and only slashes were taken from the end of the trimmed url. *)
Theorem X12_cleanBase_strips_slashes :
  forall url : jsstring,
    exists k, trim url = cleanBase url ++ repeat 47 k
              /\ forall w, cleanBase url <> w ++ [47].
Proof.
  intros url.
  unfold cleanBase, removeFirst, exec.
  pose proof (search_slashEnd (trim url) 0 None) as H.
  destruct (search slashEndRe 0 None (trim url)) as [h|].
  - destruct H as (k & Hl & _ & Hr & Hlast).
    rewrite Nat.sub_0_r in Hl, Hlast; rewrite Hr, app_nil_r.
    exists (S k); split; [exact Hl|exact Hlast].
  - exists 0%nat; simpl; rewrite app_nil_r; split; [reflexivity|].
    intros w Hw; destruct H as [H|(w' & c & H & Hc)].
    + rewrite H in Hw; destruct w; discriminate.
    + rewrite H in Hw; apply app_inj_tail in Hw as [_ ->]; discriminate.
Qed.

(** ** The start of main *)

(** X13.  [main] parses the trimmed first line of the commit message.  When
    it throws before any request is made, the line is empty and the error is
    "Empty COMMIT_MESSAGE.", or the error is one of the parser other than
    that of a blank message; the error "Commit must start with ISSUE-KEY" is
    never thrown.  When it goes on, the issue key it works with is the issue
    of the parse and has the form of a key. *)
Theorem X13_main_always_has_a_key :
  forall commitMessage : jsstring,
    (forall e,
        mainHead commitMessage = Throw e ->
        e <> "Commit must start with ISSUE-KEY (e.g., PEB-4)."%string
        /\ ((firstLineOf commitMessage = []
             /\ e = "Empty COMMIT_MESSAGE."%string)
            \/ (parseCommitMessage (firstLineOf commitMessage) = Throw e
                /\ In e parseErrors /\ e <> emptyError)))
    /\ (forall k r,
          mainHead commitMessage = Ok (Proceeds k r) ->
          parseCommitMessage (firstLineOf commitMessage) = Ok r
          /\ k = issue r
          /\ exists rest, firstLine r = k ++ rest /\ keyShape k rest).
Proof.
  intros commitMessage; pose proof (mainHead_cases commitMessage) as H.
  split.
  - intros e He; rewrite He in H.
    destruct H as [[Hl ->]|(Hl & _ & Hp & Hin & Hne)].
    + split; [discriminate|now left].
    + split; [|right; auto].
      assert (Hall : forallb (fun x => negb (String.eqb x
                        "Commit must start with ISSUE-KEY (e.g., PEB-4)."))
                       parseErrors = true) by (vm_compute; reflexivity).
      rewrite forallb_forall in Hall; specialize (Hall e Hin).
      intros ->; rewrite String.eqb_refl in Hall; discriminate.
  - intros k r Hk; rewrite Hk in H.
    destruct H as (_ & _ & Hp & -> & _).
    split; [exact Hp|]; split; [reflexivity|].
    now destruct (parse_Ok_key _ _ Hp) as [_ Hs].
Qed.

Lemma X13_witness :
  exists r rest,
    parseCommitMessage (firstLineOf (js "  PEB-4 STATUS:Build  ")) = Ok r
    /\ js "PEB-4" = issue r
    /\ firstLine r = js "PEB-4" ++ rest /\ keyShape (js "PEB-4") rest.
Proof.
  eexists.
  destruct (proj2 (X13_main_always_has_a_key (js "  PEB-4 STATUS:Build  "))
              (js "PEB-4") _ ltac:(vm_compute; reflexivity))
    as (Hp & Hk & rest & Hl & Hs).
  exists rest; split; [exact Hp|]; split; [exact Hk|]; split; [exact Hl|exact Hs].
Defined.

(** X14.  [main] returns without parsing anything exactly when the trimmed
    first line of the commit message starts with "merge" in any letter case
    and does not go on with a letter, a digit or an underscore.  So it does
    on every message that starts with an issue key of a project called
    MERGE, whatever tokens follow. *)
Theorem X14_merge_commits_are_skipped :
  (forall commitMessage : jsstring,
      mainHead commitMessage = Ok Skipped
      <-> startsMerge (firstLineOf commitMessage) = true)
  /\ (forall tail : jsstring, mainHead (js "MERGE-" ++ tail) = Ok Skipped).
Proof.
  assert (Hiff : forall msg : jsstring,
             mainHead msg = Ok Skipped <-> startsMerge (firstLineOf msg) = true).
  { intros msg; pose proof (mainHead_cases msg) as H; split.
    - intros E; rewrite E in H; tauto.
    - intros E; destruct (mainHead msg) as [[|k r]|e]; [reflexivity|..].
      + destruct H as (_ & H & _); congruence.
      + destruct H as [[H _]|(_ & H & _)]; [|congruence].
        rewrite H in E; discriminate. }
  split; [exact Hiff|]; intros tail.
  apply Hiff; destruct (firstLineOf_merge_key tail) as [u ->].
  reflexivity.
Qed.

(** ** The Tempo category *)

(** X15.  Whatever [normalizeCategoryName] returns, the category chosen by
    [chooseValidCategory] is empty only for a candidate that normalizes to
    the empty text; with no list of allowed values it is the normalized
    candidate; with one it is always one of the allowed values, and the
    normalized candidate itself when that is allowed. *)
Theorem X15_chosen_category_is_allowed :
  forall (normalizeCategoryName : jsstring -> jsstring)
         (raw tempoCategoryValue candidate : jsstring),
    let allowed := tempoAllowedValues raw in
    let c := chooseValidCategory normalizeCategoryName allowed
                                 tempoCategoryValue candidate in
    (c = [] <-> normalizeCategoryName candidate = [])
    /\ (allowed = [] -> c = normalizeCategoryName candidate)
    /\ (allowed <> [] -> c <> [] -> In c allowed)
    /\ (In (normalizeCategoryName candidate) allowed ->
        c = normalizeCategoryName candidate).
Proof.
  intros normalize raw fallback candidate.
  apply chooseValidCategory_allowed, tempoAllowedValues_nonEmpty.
Qed.

Lemma X15_witness :
  In (js "Testing") (tempoAllowedValues (js "Development, Testing,,"))
  /\ chooseValidCategory (fun s => s)
       (tempoAllowedValues (js "Development, Testing,,")) (js "Testing")
       (js "Ops") = js "Testing".
Proof.
  split; [|vm_compute; reflexivity].
  refine (proj1 (proj2 (proj2 (X15_chosen_category_is_allowed
            (fun s => s) (js "Development, Testing,,") (js "Testing") (js "Ops"))))
          _ _); vm_compute; discriminate.
Defined.

(** ** Parsing again *)

(** X16.  The [firstLine] of a successful parse parses to the same result:
    what [parseCommitMessage] returns can be read back from the line it
    returns. *)
Theorem X16_first_line_parses_again :
  forall (message : jsstring) r,
    parseCommitMessage message = Ok r ->
    parseCommitMessage (firstLine r) = Ok r.
Proof. intros message r Hok; now apply parse_Ok_again in Hok. Qed.

Lemma X16_witness :
  exists r,
    parseCommitMessage (65279 :: js "  ABC-1 LOG:90m  " ++ 13 :: 10 :: js "body")
    = Ok r
    /\ firstLine r = js "ABC-1 LOG:90m"
    /\ parseCommitMessage (js "ABC-1 LOG:90m") = Ok r.
Proof.
  eexists; split; [vm_compute; reflexivity|]; split; [vm_compute; reflexivity|].
  match goal with
  | |- _ = Ok ?R =>
      exact (X16_first_line_parses_again
               (65279 :: js "  ABC-1 LOG:90m  " ++ 13 :: 10 :: js "body") R
               ltac:(vm_compute; reflexivity))
  end.
Defined.

(** X17.  [main] agrees with the parser: on a message that
    [parseCommitMessage] accepts, [main] either returns as for a merge
    commit or goes on with the very result of that parse, although it hands
    the parser the trimmed first line and not the message.  The converse
    fails: after a space and a zero-width space the parser finds no issue
    key, and [main] does. *)
Theorem X17_main_agrees_with_the_parser :
  (forall (message : jsstring) r,
      parseCommitMessage message = Ok r ->
      mainHead message
      = if startsMerge (firstLineOf message) then Ok Skipped
        else Ok (Proceeds (issue r) r))
  /\ (parseCommitMessage (32 :: 8203 :: js "ABC-1 STATUS:Done") = Throw keyError
      /\ exists r, mainHead (32 :: 8203 :: js "ABC-1 STATUS:Done")
                   = Ok (Proceeds (js "ABC-1") r)).
Proof.
  split.
  - intros message r Hok.
    destruct (parse_Ok_again _ _ Hok) as (_ & Hne & Hp).
    destruct (parse_Ok_key _ _ Hok) as (Hk & rest & _ & Hs).
    apply keyShape_nonempty in Hs.
    unfold mainHead.
    destruct (firstLineOf message) as [|c t] eqn:El; [congruence|].
    rewrite test_mergeRe; destruct (startsMerge (c :: t)); [reflexivity|].
    rewrite Hp; cbn [bind]; rewrite Hk.
    destruct (issue r) as [|k ks]; [congruence|reflexivity].
  - split; [vm_compute; reflexivity|].
    eexists; vm_compute; reflexivity.
Qed.

Lemma X17_witness :
  exists r,
    parseCommitMessage (js " PEB-4 STATUS:Build ") = Ok r
    /\ mainHead (js " PEB-4 STATUS:Build ") = Ok (Proceeds (issue r) r).
Proof.
  eexists; split; [vm_compute; reflexivity|].
  refine (proj1 X17_main_agrees_with_the_parser (js " PEB-4 STATUS:Build ") _ _).
  vm_compute; reflexivity.
Defined.

(** ** Retries *)

(** X18.  [logTempoWorklog] posts the worklog one to three times.  Every
    request before the last was retried, and a call that stops before the
    third request made a last request that was not: an attempt is retried
    when the request is rejected, or when its status is 429, 500 or more, or
    is neither a success nor a 4xx.  Each retried attempt but the third is
    followed by a wait, and so is the third when it meets a 429 or a status
    from 500 on; the wait after attempt k is the Retry-After header of a
    busy response when that is a Number other than zero and NaN, and
    otherwise 500 ms times two to the k-1.  A last request that is not
    retried decides the call by its status: a success gives the response,
    409 and a 400 that tells of a duplicate count as success, another 400
    and any other 4xx are thrown.  When the third attempt meets a 429 or a
    status from 500 on, the call waits a third time and returns without a
    value and without an error; the error for a failure after the last
    attempt is thrown only when the third attempt is retried for another
    reason, with what that attempt came to as its cause. *)
Theorem X18_tempo_retries :
  forall net : Z -> fetched,
    let waits := fst (fst (TempoWorklog.logTempoWorklog net)) in
    let requests := snd (fst (TempoWorklog.logTempoWorklog net)) in
    let e := snd (TempoWorklog.logTempoWorklog net) in
    (1 <= requests <= 3)%Z
    /\ (forall k, (1 <= k < requests)%Z -> TempoWorklog.retried (net k) = true)
    /\ ((requests < 3)%Z -> TempoWorklog.retried (net requests) = false)
    /\ (TempoWorklog.retried (net requests) = false ->
        forall s ra b,
          net requests = Response s ra b ->
          (ok s = true -> e = TempoWorklog.Created)
          /\ (s = 409%Z -> e = TempoWorklog.Conflict)
          /\ (s = 400%Z ->
              e = if test TempoWorklog.duplicateRe b
                  then TempoWorklog.Duplicate else TempoWorklog.BadRequest b)
          /\ (ok s = false -> s <> 409%Z -> s <> 400%Z ->
              e = TempoWorklog.StatusError s b))
    /\ (e = TempoWorklog.NoValue
        <-> TempoWorklog.retried (net 1%Z) = true
            /\ TempoWorklog.retried (net 2%Z) = true
            /\ busyResponse (net 3%Z) = true)
    /\ ((exists c, e = TempoWorklog.NetworkError c)
        <-> TempoWorklog.retried (net 1%Z) = true
            /\ TempoWorklog.retried (net 2%Z) = true
            /\ TempoWorklog.retried (net 3%Z) = true
            /\ busyResponse (net 3%Z) = false)
    /\ (forall c, e = TempoWorklog.NetworkError c -> c = net 3%Z)
    /\ (e = TempoWorklog.NoValue -> length waits = 3%nat)
    /\ (e <> TempoWorklog.NoValue -> Z.of_nat (length waits) = (requests - 1)%Z)
    /\ (forall k, (1 <= k <= Z.of_nat (length waits))%Z ->
          nth (Z.to_nat (k - 1)) waits NaN = TempoWorklog.waitAfter k (net k))
    /\ (length waits <= 3)%nat
    /\ (forall k, (k < length waits)%nat ->
          TempoWorklog.retried (net (Z.of_nat k + 1)%Z) = true).
Proof.
  intros net.
  cbv zeta; unfold TempoWorklog.logTempoWorklog.
  pose proof (busy_retried (net 3%Z)) as Hb3.
  destruct (TempoWorklog.retried (net 1%Z)) eqn:E1.
  2:{ destruct (attempts_decided 3 1%Z net
                  ltac:(unfold TempoWorklog.maxRetries; lia) E1)
        as (e & -> & Hn & Hc & Hd); cbn [fst snd length].
      repeat apply conj; try exact (fun _ => Hd); retries_close Hb3. }
  rewrite (attempts_retried 3 1%Z net
             ltac:(unfold TempoWorklog.maxRetries; lia) E1).
  cbn [fst snd]; change (1 + 1)%Z with 2%Z.
  destruct (TempoWorklog.retried (net 2%Z)) eqn:E2.
  2:{ destruct (attempts_decided 2 2%Z net
                  ltac:(unfold TempoWorklog.maxRetries; lia) E2)
        as (e & -> & Hn & Hc & Hd); cbn [fst snd length].
      change (1 + 1)%Z with 2%Z.
      repeat apply conj; try exact (fun _ => Hd); retries_close Hb3. }
  rewrite (attempts_retried 2 2%Z net
             ltac:(unfold TempoWorklog.maxRetries; lia) E2).
  cbn [fst snd]; change (2 + 1)%Z with 3%Z.
  destruct (TempoWorklog.retried (net 3%Z)) eqn:E3.
  2:{ destruct (attempts_decided 1 3%Z net
                  ltac:(unfold TempoWorklog.maxRetries; lia) E3)
        as (e & -> & Hn & Hc & Hd); cbn [fst snd length].
      change (1 + (1 + 1))%Z with 3%Z.
      repeat apply conj; try exact (fun _ => Hd); retries_close Hb3. }
  rewrite (attempts_last 0 net E3).
  destruct (busyResponse (net 3%Z)) eqn:Eb; cbn [fst snd length];
    change (1 + (1 + 1))%Z with 3%Z;
    repeat apply conj; retries_close Hb3.
Qed.

Lemma X18_witness :
  length (fst (fst (TempoWorklog.logTempoWorklog
                      (fun _ => Response 503 None [])))) = 3%nat.
Proof.
  refine (proj1 (proj2 (proj2 (proj2 (proj2 (proj2 (proj2 (proj2
            (X18_tempo_retries (fun _ => Response 503 None []))))))))) _).
  vm_compute; reflexivity.
Defined.

(** X19.  [jiraFetch] makes at most three requests and always comes to what
    the last of them came to, never to a call without a value; every request before the last met a 429 or a
    status from 500 on, and a call that stops before the third request did
    not.  The wait before a retry is a thousand times the Retry-After
    header when that converts to a finite Number, and it is zero when the
    header is missing: the wait of 400 ms times the attempt is only for a
    header that does not convert to a finite Number. *)
Theorem X19_jira_retries :
  forall net : Z -> fetched,
    let waits := fst (fst (JiraFetch.jiraFetch net)) in
    let last := snd (fst (JiraFetch.jiraFetch net)) in
    let res := snd (JiraFetch.jiraFetch net) in
    (0 <= last <= 2)%Z
    /\ res = Some (net last)
    /\ length waits = Z.to_nat last
    /\ ((last < 2)%Z -> busyResponse (net last) = false)
    /\ (forall k, (0 <= k < last)%Z ->
          exists s ra b,
            net k = Response s ra b /\ busy s = true
            /\ nth (Z.to_nat k) waits NaN
               = match ra with
                 | None => ofZ 0
                 | Some x => if isFinite x then mul x (ofZ 1000)
                             else ofZ (400 * (k + 1))
                 end).
Proof.
  intros net; cbv zeta.
  destruct (jiraFetch_policy net) as (H1 & H2 & H3 & H4 & H5).
  repeat split; try assumption; try lia.
  intros k Hk; destruct (H5 k Hk) as (s & ra & b & Hn & Hb & Hw).
  exists s, ra, b; rewrite Hw, waitMs_header; auto.
Qed.

Lemma X19_witness :
  exists s ra b,
    Response 429 None [] = Response s ra b /\ busy s = true
    /\ nth 0 (fst (fst (JiraFetch.jiraFetch
                          (fun k => if (k =? 0)%Z then Response 429 None []
                                    else Response 200 None []))))
           NaN
       = match ra with
         | None => ofZ 0
         | Some x => if isFinite x then mul x (ofZ 1000)
                     else ofZ (400 * (0 + 1))
         end.
Proof.
  refine (proj2 (proj2 (proj2 (proj2 (X19_jira_retries
            (fun k => if (k =? 0)%Z then Response 429 None []
                      else Response 200 None []))))) 0%Z _).
  vm_compute; split; [discriminate|reflexivity].
Defined.

(** ** From the parser to Tempo *)

(** X20.  The hours of a successful parse always pass the guard of
    [logTempo], so that "Tempo logHours missing." is not thrown for them,
    and [toSeconds] rejects them only when they are infinite, which a run
    of 310 digits before the [h] gives. *)
Theorem X20_parsed_hours_reach_toSeconds :
  (forall (message : jsstring) r h,
      parseCommitMessage message = Ok r ->
      logHours r = Some h ->
      timeSpentSeconds h = Ok (toSeconds h)
      /\ (toSeconds h = None <-> h = S754_infinity false))
  /\ exists r,
       parseCommitMessage (js "ABC-1 LOG:" ++ repeat 57 310 ++ js "h") = Ok r
       /\ logHours r = Some (S754_infinity false).
Proof.
  split.
  - intros message r h Hok Hh.
    destruct (parse_Ok_fields _ _ Hok) as (Hsec & _).
    apply logSection_Ok in Hsec as [Hlog _].
    assert (Hpos : gt h zero = true).
    { destruct (truthyText _) as [raw|]; [|congruence].
      destruct Hlog as (h' & E & _ & Hg); congruence. }
    unfold timeSpentSeconds; rewrite Hpos; split; [reflexivity|].
    unfold toSeconds.
    destruct h as [s|s| |s mx e]; try discriminate.
    + destruct s; [discriminate|]; split; reflexivity.
    + destruct s; [discriminate|].
      assert (Hle : SFleb (S754_finite false mx e) (ofZ 0) = false).
      { unfold gt, zero in Hpos; unfold SFltb, SFleb in *.
        change (ofZ 0) with (S754_zero false) in *.
        cbn [SFcompare] in *; reflexivity. }
      cbn [isFinite negb orb]; rewrite Hle; split; discriminate.
  - eexists; split; vm_compute; reflexivity.
Qed.

Lemma X20_witness :
  exists r h,
    parseCommitMessage (js "ABC-1 LOG:45m") = Ok r
    /\ logHours r = Some h
    /\ timeSpentSeconds h = Ok (toSeconds h)
    /\ toSeconds h = Some (ofZ 2700).
Proof.
  eexists; eexists.
  split; [vm_compute; reflexivity|]; split; [vm_compute; reflexivity|].
  split; [|vm_compute; reflexivity].
  refine (proj1 (proj1 X20_parsed_hours_reach_toSeconds
                   (js "ABC-1 LOG:45m") _ _ _ _));
    vm_compute; reflexivity.
Defined.
